(** * vscode-pddl: the validation pipeline, embedded and verified

    A shallow embedding of
      - [client/src/diagnostics/PlanValidator.ts]  (plan-validator output parser),
      - [client/src/diagnostics/Diagnostics.ts]    (debounced validation scheduler),
      - the [TypeObjectMap] index exercised by the unit tests,
    followed by the properties the specification states about them.

    Conventions.
      - A JavaScript string is a [string]; one [ascii] stands for one UTF-16
        code unit below 256.
      - A JavaScript number is a [number]: an exact rational, an infinity or
        NaN.  Rounding of IEEE doubles is not modelled.
      - Objects with identity (the files of the workspace) live in a store and
        are referred to by their URI, which is the key of the workspace map.
      - Stateful methods are computations in the state monad [M]. *)

From Stdlib Require Import Ascii String QArith Qabs Qpower.
From stdpp Require Import base option list gmap strings.
From Equations Require Import Equations.

Local Open Scope string_scope.
Local Open Scope list_scope.

(** ** JavaScript strings *)

Module Js.

(** *** Character classes *)

Definition code (c : ascii) : nat := nat_of_ascii c.

(** [\d] *)
Definition isDigit (c : ascii) : bool :=
  (48 <=? code c)%nat && (code c <=? 57)%nat.

(** Line terminators, the characters [.] refuses: LF and CR
    (U+2028 and U+2029 lie outside the modelled code units). *)
Definition isLineTerminator (c : ascii) : bool :=
  (code c =? 10)%nat || (code c =? 13)%nat.

(** [.] *)
Definition isDot (c : ascii) : bool := negb (isLineTerminator c).

(** [\s], also the characters [trim] removes: TAB, LF, VT, FF, CR, space
    and the no-break space. *)
Definition isWhiteSpace (c : ascii) : bool :=
  ((9 <=? code c)%nat && (code c <=? 13)%nat)
  || (code c =? 32)%nat || (code c =? 160)%nat.

(** [[\s\S]] *)
Definition isAny (c : ascii) : bool := isWhiteSpace c || negb (isWhiteSpace c).

(** *** String primitives *)

Definition toLowerChar (c : ascii) : ascii :=
  let n := code c in
  if ((65 <=? n)%nat && (n <=? 90)%nat)
     || ((192 <=? n)%nat && (n <=? 222)%nat && negb (n =? 215)%nat)
  then ascii_of_nat (n + 32) else c.

Fixpoint toLowerCase (s : string) : string :=
  match s with
  | EmptyString => EmptyString
  | String c r => String (toLowerChar c) (toLowerCase r)
  end.

Fixpoint trimStart (s : string) : string :=
  match s with
  | EmptyString => EmptyString
  | String c r => if isWhiteSpace c then trimStart r else s
  end.

Fixpoint trimEnd (s : string) : string :=
  match s with
  | EmptyString => EmptyString
  | String c r =>
      match trimEnd r with
      | EmptyString => if isWhiteSpace c then EmptyString else String c EmptyString
      | r' => String c r'
      end
  end.

Definition trim (s : string) : string := trimEnd (trimStart s).

(** [s.split(sep)] for a one-character separator: never the empty list. *)
Fixpoint split (sep : ascii) (s : string) : list string :=
  match s with
  | EmptyString => [EmptyString]
  | String c r =>
      if Ascii.eqb c sep then EmptyString :: split sep r
      else match split sep r with
           | h :: t => String c h :: t
           | [] => [String c EmptyString]
           end
  end.

Definition LF : ascii := ascii_of_nat 10.

(** [s.join(sep)] *)
Fixpoint join (sep : string) (l : list string) : string :=
  match l with
  | [] => EmptyString
  | [x] => x
  | x :: r => x +:+ sep +:+ join sep r
  end.

(** Removes the literal [p] from the front of [s]. *)
Fixpoint strip_prefix (p s : string) : option string :=
  match p, s with
  | EmptyString, _ => Some s
  | String a p', String b s' => if Ascii.eqb a b then strip_prefix p' s' else None
  | String _ _, EmptyString => None
  end.

(** The longest prefix of characters in a class, and what follows it. *)
Fixpoint span (P : ascii -> bool) (s : string) : string * string :=
  match s with
  | EmptyString => (EmptyString, EmptyString)
  | String c r =>
      if P c then let '(d, t) := span P r in (String c d, t)
      else (EmptyString, s)
  end.

Fixpoint forallb (P : ascii -> bool) (s : string) : bool :=
  match s with
  | EmptyString => true
  | String c r => P c && forallb P r
  end.

(** *** Regular expressions

    The patterns of the sources are sequences of literals, character classes
    and [+] over a character class.  Each combinator is a backtracking matcher
    in continuation-passing style: it consumes a prefix of its input and hands
    the rest to the continuation [k]; when [k] fails it tries its next
    alternative, in the priority order of the ECMAScript semantics
    (greedy [+]: longest repetition first). *)

Section Regex.
Context {A : Type}.

Definition re_lit (p : string) (k : string -> option A) (s : string) : option A :=
  match strip_prefix p s with
  | Some r => k r
  | None => None
  end.

Definition re_class (P : ascii -> bool) (k : string -> option A) (s : string)
  : option A :=
  match s with
  | String c r => if P c then k r else None
  | EmptyString => None
  end.

Fixpoint re_plus (P : ascii -> bool) (k : string -> option A) (s : string)
  : option A :=
  match s with
  | String c r =>
      if P c then
        match re_plus P k r with
        | Some x => Some x
        | None => k r
        end
      else None
  | EmptyString => None
  end.

(** An unanchored pattern is tried at every start position, leftmost first
    (the end of the input included). *)
Fixpoint re_search (m : string -> option A) (s : string) : option A :=
  match m s with
  | Some x => Some x
  | None =>
      match s with
      | String _ r => re_search m r
      | EmptyString => None
      end
  end.
End Regex.

(** The text a group captured, from the input [g] at the group's start and the
    input [e] at its end. *)
Definition captured (g e : string) : string :=
  substring 0 (String.length g - String.length e) g.

(** [s.match(p)] as a test, for a pattern [p] without metacharacters. *)
Definition matches (p s : string) : bool :=
  match re_search (re_lit p (fun _ => Some tt)) s with
  | Some _ => true
  | None => false
  end.

(** *** Numbers *)

Inductive number : Type :=
| NaN
| Infinity (negative : bool)
| Fin (q : Q).

Definition digitValue (c : ascii) : Z := Z.of_nat (code c - 48).

(** The value of a string of decimal digits, most significant first. *)
Definition digitsValue (s : string) : Z :=
  fold_left (fun acc c => (10 * acc + digitValue c)%Z) (list_ascii_of_string s) 0%Z.

Definition takeSign (s : string) : bool * string :=
  match s with
  | String "-" r => (true, r)
  | String "+" r => (false, r)
  | _ => (false, s)
  end.

Definition signed (negative : bool) (q : Q) : Q := if negative then Qopp q else q.

(** The exponent part [e±ddd] at the front of [s]; 0 when there is none. *)
Definition exponentPart (s : string) : Z :=
  match s with
  | String c r =>
      if (Ascii.eqb c "e" || Ascii.eqb c "E")%bool then
        let '(neg, r1) := takeSign r in
        let '(ds, _) := span isDigit r1 in
        match ds with
        | EmptyString => 0%Z
        | _ => if neg then Z.opp (digitsValue ds) else digitsValue ds
        end
      else 0%Z
  | EmptyString => 0%Z
  end.

(** The decimal literal (digits, fraction, exponent) at the front of [s1],
    NaN when there is none. *)
Definition decimalLiteral (neg : bool) (s1 : string) : number :=
  let '(ip, s2) := span isDigit s1 in
  let '(fp, s3) :=
    match s2 with
    | String "." r => span isDigit r
    | _ => (EmptyString, s2)
    end in
  match ip, fp with
  | EmptyString, EmptyString => NaN
  | _, _ =>
      let mantissa :=
        (inject_Z (digitsValue ip)
         + inject_Z (digitsValue fp) / inject_Z (10 ^ Z.of_nat (String.length fp)))%Q in
      Fin (signed neg (mantissa * Qpower 10 (exponentPart s3))%Q)
  end.

(** [parseFloat]: the longest prefix of the trimmed input that is a signed
    decimal literal or [Infinity]. *)
Definition parseFloat (s : string) : number :=
  let '(neg, s1) := takeSign (trimStart s) in
  match strip_prefix "Infinity" s1 with
  | Some _ => Infinity neg
  | None => decimalLiteral neg s1
  end.

Definition Qltb (x y : Q) : bool := negb (Qle_bool y x).

(** *** Facts about strings

    These facts and those about the matchers stand here, ahead of the
    definitions that follow, because the loop of the output parser recurses
    on what a match leaves of its input: its termination rests on them. *)

Lemma append_cons a s t : String a s +:+ t = String a (s +:+ t).
Proof. reflexivity. Qed.

Lemma append_nil_l s : "" +:+ s = s.
Proof. reflexivity. Qed.


Lemma append_assoc s t u : (s +:+ t) +:+ u = s +:+ t +:+ u.
Proof. induction s as [|a s IH]; [done|]. by rewrite !append_cons, IH. Qed.

Lemma length_append s t :
  String.length (s +:+ t) = (String.length s + String.length t)%nat.
Proof. induction s as [|a s IH]; [done|]. rewrite append_cons. simpl. by rewrite IH. Qed.





Lemma strip_prefix_Some p s r : strip_prefix p s = Some r <-> s = p +:+ r.
Proof.
  revert s. induction p as [|a p IH]; intros s; simpl.
  - rewrite append_nil_l. split; congruence.
  - destruct s as [|b s]; [by rewrite append_cons|].
    rewrite append_cons. destruct (Ascii.eqb_spec a b) as [->|Hne].
    + rewrite IH. split; [by intros ->|congruence].
    + split; [done|congruence].
Qed.

Lemma strip_prefix_append p r : strip_prefix p (p +:+ r) = Some r.
Proof. by apply strip_prefix_Some. Qed.

Lemma span_spec P s d t :
  span P s = (d, t) ->
  s = d +:+ t /\ forallb P d = true
  /\ match t with String c _ => P c = false | EmptyString => True end.
Proof.
  revert d t. induction s as [|a s IH]; intros d t; simpl.
  - by intros [= <- <-].
  - destruct (P a) eqn:Ha.
    + destruct (span P s) as [d' t'] eqn:Hs. intros [= <- <-].
      destruct (IH _ _ eq_refl) as (-> & Hd & Ht).
      rewrite append_cons. simpl. by rewrite Ha, Hd.
    + intros [= <- <-]. by rewrite append_nil_l.
Qed.


Lemma captured_append d e : captured (d +:+ e) e = d.
Proof.
  unfold captured. rewrite length_append.
  replace (String.length d + String.length e - String.length e)%nat
    with (String.length d) by lia.
  induction d as [|a d IH]; [by destruct e|].
  rewrite append_cons. simpl. by rewrite IH.
Qed.

(** *** Facts about the matchers *)

Section RegexFacts.
Context {A : Type}.
Implicit Types (k m : string -> option A) (P : ascii -> bool).

Lemma re_lit_Some p k s x :
  re_lit p k s = Some x <-> exists r, s = p +:+ r /\ k r = Some x.
Proof.
  unfold re_lit. destruct (strip_prefix p s) as [r|] eqn:E.
  - apply strip_prefix_Some in E as ->. split; [by exists r|].
    by intros (r' & ->%(inj _) & ?).
  - split; [done|]. intros (r & -> & _). by rewrite strip_prefix_append in E.
Qed.

Lemma re_class_Some P k s x :
  re_class P k s = Some x <-> exists c r, s = String c r /\ P c = true /\ k r = Some x.
Proof.
  destruct s as [|c r]; simpl.
  - split; [done|]. by intros (? & ? & ? & _).
  - destruct (P c) eqn:Hc.
    + split; [by exists c, r|]. by intros (? & ? & [= <- <-] & _ & ?).
    + split; [done|]. intros (? & ? & [= <- <-] & ? & _). congruence.
Qed.

Lemma re_plus_complete P k d r :
  d <> "" -> forallb P d = true -> is_Some (k r) -> is_Some (re_plus P k (d +:+ r)).
Proof.
  intros Hd HP Hk. induction d as [|c d IH]; [done|].
  rewrite append_cons. simpl in *. apply andb_prop in HP as [-> HP].
  destruct d as [|c' d'].
  - rewrite append_nil_l. by destruct (re_plus P k r).
  - destruct IH as [w ->]; by eauto.
Qed.

(** What a successful [+] consumed: a non-empty run [d] of class characters,
    the longest one after which the continuation succeeds. *)
Lemma re_plus_Some P k s x :
  re_plus P k s = Some x ->
  exists d r, s = d +:+ r /\ d <> "" /\ forallb P d = true /\ k r = Some x
    /\ forall d' r', s = d' +:+ r' -> forallb P d' = true ->
         (String.length d < String.length d')%nat -> k r' = None.
Proof.
  revert x. induction s as [|c s IH]; intros x; simpl; [done|].
  destruct (P c) eqn:Hc; [|done].
  destruct (re_plus P k s) as [y|] eqn:E.
  - intros [= <-]. destruct (IH _ eq_refl) as (d & r & -> & Hd & HP & Hk & Hmax).
    exists (String c d), r. rewrite append_cons. simpl. rewrite Hc, HP.
    repeat split; [done..|].
    intros [|c' d'] r' Heq HP' Hlen; [simpl in Hlen; lia|].
    rewrite !append_cons in Heq. injection Heq as <- Heq.
    simpl in HP'. apply andb_prop in HP' as [_ HP'].
    apply (Hmax d' r' Heq HP'). simpl in Hlen. lia.
  - intros Hk. exists (String c ""), s. simpl. rewrite Hc.
    repeat split; [done..|].
    intros [|c' d'] r' Heq HP' Hlen; [simpl in Hlen; lia|].
    rewrite !append_cons in Heq. injection Heq as <- Heq.
    simpl in HP'. apply andb_prop in HP' as [_ HP'].
    destruct (k r') as [z|] eqn:Hz; [|done]. exfalso.
    destruct (re_plus_complete P k d' r') as [w Hw]; [| done | by eexists |].
    + intros ->. simpl in Hlen. lia.
    + subst s. congruence.
Qed.

(** A successful search found the leftmost start position at which the
    pattern matches. *)
Lemma re_search_Some m s x :
  re_search m s = Some x ->
  exists pre t, s = pre +:+ t /\ m t = Some x
    /\ forall pre' t', s = pre' +:+ t' ->
         (String.length pre' < String.length pre)%nat -> m t' = None.
Proof.
  induction s as [|c s IH]; simpl.
  - destruct (m "") eqn:E; [|done]. intros [= <-]. exists "", "".
    repeat split; [done..|]. intros ?? _ Hl. simpl in Hl. lia.
  - destruct (m (String c s)) eqn:E.
    + intros [= <-]. exists "", (String c s).
      repeat split; [done..|]. intros ?? _ Hl. simpl in Hl. lia.
    + intros H. destruct (IH H) as (pre & t & -> & Hm & Hleft).
      exists (String c pre), t. rewrite append_cons.
      repeat split; [done..|].
      intros [|c' pre'] t' Heq Hl.
      * rewrite append_nil_l in Heq. by subst t'.
      * rewrite append_cons in Heq. injection Heq as <- Heq.
        apply (Hleft pre' t' Heq). simpl in Hl. lia.
Qed.

Lemma re_search_complete m pre t :
  is_Some (m t) -> is_Some (re_search m (pre +:+ t)).
Proof.
  intros [x Hx]. induction pre as [|c pre IH].
  - rewrite append_nil_l. destruct t; simpl; rewrite Hx; by eexists.
  - rewrite append_cons. simpl. destruct (m (String c (pre +:+ t))); by eauto.
Qed.

Lemma re_search_None m s :
  re_search m s = None -> forall pre t, s = pre +:+ t -> m t = None.
Proof.
  intros H pre t ->. destruct (m t) eqn:E; [|done].
  destruct (re_search_complete m pre t) as [? ?]; [by eexists|congruence].
Qed.
End RegexFacts.

Lemma matches_true p s : matches p s = true <-> exists a b, s = a +:+ p +:+ b.
Proof.
  unfold matches. split.
  - destruct (re_search _ s) as [[]|] eqn:E; [|done]. intros _.
    apply re_search_Some in E as (a & t & -> & Hm & _).
    apply re_lit_Some in Hm as (b & -> & _). by exists a, b.
  - intros (a & b & ->).
    destruct (re_search_complete (re_lit p (fun _ => Some tt)) a (p +:+ b)) as [[] ->];
      [|done].
    unfold re_lit. rewrite strip_prefix_append. by eexists.
Qed.

End Js.


(** ** The editor's diagnostic records (vscode API) *)

Module DiagnosticSeverity.
Inductive t : Set := Error | Warning | Information | Hint.
End DiagnosticSeverity.

(** [new Range(startLine, startCharacter, endLine, endCharacter)] *)
Record Range : Set := mkRange {
  startLine : nat;
  startCharacter : nat;
  endLine : nat;
  endCharacter : nat
}.

(** [new Diagnostic(range, message, severity)] *)
Record Diagnostic : Set := mkDiagnostic {
  range : Range;
  message : string;
  severity : DiagnosticSeverity.t
}.

(** A JavaScript [Error]. *)
Record JsError : Set := mkError {
  errorName : string;
  errorMessage : string
}.

(** ** The parsed files (common/src/parser, common/src/PlanStep) *)

Inductive FileStatus : Set := Dirty | Parsed | Validating | Validated.

#[global] Instance FileStatus_eq_dec : EqDecision FileStatus.
Proof. solve_decision. Defined.

(** Modelled from the spec: a plan step, of which the sources under study read
    the start time and the source line index (spec section 3, PlanInfo). *)
Record PlanStep := mkPlanStep {
  actionName : string;
  startTime : Js.number;
  lineIndex : nat
}.

(** Modelled from the spec: [PlanStep.equalsWithin(a, b, epsilon)], the
    tolerance-based equality [|a-b| < epsilon] of spec section 3.  A comparison
    with NaN or an infinity on either side is false, as in JavaScript. *)
Definition equalsWithin (a b : Js.number) (epsilon : Q) : bool :=
  match a, b with
  | Js.Fin x, Js.Fin y => Js.Qltb (Qabs (x - y)) epsilon
  | _, _ => false
  end.

(** Modelled from the spec: the variants of a parsed file (spec section 4.2).
    [DomainInfo] declares a domain name (the file's [name]); [ProblemInfo]
    names the domain it refers to; [PlanInfo] names its problem and holds the
    plan steps; a file whose header does not parse is unknown PDDL. *)
Inductive FileKind :=
| DomainKind
| ProblemKind (domainName : string)
| PlanKind (problemName : string) (steps : list PlanStep)
| UnknownKind.

(** Modelled from the spec: [FileInfo] (spec section 3): URI, declared name,
    source text and validation status, with the variant data. *)
Record FileInfo := mkFileInfo {
  fileUri : string;
  name : string;
  text : string;
  status : FileStatus;
  kind : FileKind
}.

Definition withStatus (s : FileStatus) (f : FileInfo) : FileInfo :=
  mkFileInfo (fileUri f) (name f) (text f) s (kind f).

Definition isDomain (f : FileInfo) : bool :=
  match kind f with DomainKind => true | _ => false end.
Definition isProblem (f : FileInfo) : bool :=
  match kind f with ProblemKind _ => true | _ => false end.
Definition isPlan (f : FileInfo) : bool :=
  match kind f with PlanKind _ _ => true | _ => false end.
Definition isUnknownPddl (f : FileInfo) : bool :=
  match kind f with UnknownKind => true | _ => false end.

Definition getSteps (planInfo : FileInfo) : list PlanStep :=
  match kind planInfo with PlanKind _ s => s | _ => [] end.

Definition getProblemName (planInfo : FileInfo) : string :=
  match kind planInfo with PlanKind p _ => p | _ => "" end.

Definition getDomainName (problemInfo : FileInfo) : string :=
  match kind problemInfo with ProblemKind d => d | _ => "" end.

(** ** Configuration (client/src/configuration, common/src/Settings) *)

(** The parser settings the scheduler reads.  [None] stands for an unset
    ([undefined] or [null]) value; the delay is in whole seconds. *)
Record PDDLParserSettings := mkSettings {
  delayInSecondsBeforeParsing : option nat;
  executableOrService : option string;
  executableOptions : string;
  problemPattern : string;
  serviceAuthenticationEnabled : bool
}.

(** [PddlConfiguration]: what its getters return.  The epsilon time step is
    held as the text [epsilon.toString()] yields. *)
Record PddlConfiguration := mkConfiguration {
  getParserSettings : PDDLParserSettings;
  getValidatorPath : string;
  getEpsilonTimeStep : string
}.

(** The two validator transports [createValidator] builds. *)
Inductive Validator :=
| ValidatorService (path : string) (authenticationEnabled : bool)
| ValidatorExecutable (path syntax customPattern : string).

Definition validatorPath (v : Validator) : string :=
  match v with
  | ValidatorService p _ => p
  | ValidatorExecutable p _ _ => p
  end.

(** What [child_process.spawnSync] returns. *)
Record SpawnResult := mkSpawnResult {
  spawnError : option JsError;
  stdout : string;
  stderr : option string;
  exitStatus : string
}.

(** The collaborators whose code lies outside the sources under study: they
    are parameters of the development. *)
Record Collaborators := mkCollaborators {
  (** [Parser.stripComments] *)
  stripComments : string -> string;
  (** [Validator.createRange(line, character)] *)
  createRange : nat -> nat -> Range;
  (** [PddlWorkspace.getFolderUri(fileUri)] *)
  getFolderUri : string -> string;
  (** [PddlWorkspace.getFileName(fileUri)] *)
  getFileName : string -> string;
  (** [Util.toPddlFile(prefix, text)]: the path of the temporary file *)
  toPddlFile : string -> string -> string;
  (** [dirname(Uri.parse(fileUri).fsPath)] *)
  dirnameOf : string -> string;
  (** [process.spawnSync(path, args, {cwd})] *)
  spawnSync : string -> list string -> string -> SpawnResult;
  (** the constants [CONF_PDDL] and [VALIDATION_PATH] of configuration.ts *)
  CONF_PDDL : string;
  VALIDATION_PATH : string
}.

(** ** The state of the extension *)

(** What the extension does to its surroundings, in order: the calls to the
    external validator, the messages shown, the lines sent to the output
    channel.  The entries [Sweep] and [Called] record that the timer started
    a validation sweep and which validation methods the sweep called, so that
    a pass can be read back. *)
Inductive Call :=
| ValidateUnknownFile (fileUri : string)
| ValidatePddlDocument (fileUri : string) (scheduleFurtherValidation : bool)
| ValidatePlan (fileUri : string) (scheduleFurtherValidation : bool).

Inductive Event :=
| Called (call : Call)
| Sweep
| ValidatorValidate (v : Validator) (domainUri : string) (problemUris : list string)
    (scheduleFurtherValidation : bool)
| SuggestNewParserConfiguration (showNever : bool)
| ShowErrorMessage (msg : string)
| ConsoleWarn (msg : string)
| Spawn (path : string) (args : list string) (cwd : string)
| OutputAppend (text : string)
| OutputShow.

Record State := mkState {
  (** [pddlWorkspace]: every file of every folder, in the order the workspace
      enumerates them; the URI is the key *)
  files : list FileInfo;
  diagnosticCollection : gmap string (list Diagnostic);
  pddlConfiguration : PddlConfiguration;
  (** [this.pddlParserSettings] *)
  pddlParserSettings : PDDLParserSettings;
  (** [this.validator] *)
  validator : option Validator;
  (** [this.timeout]: the handle [setTimeout] returned last *)
  timeout : option nat;
  (** the event loop: the clock in milliseconds, the pending timers as
      (handle, due time), the next free handle *)
  clock : nat;
  timers : list (nat * nat);
  nextTimer : nat;
  log : list Event
}.

Definition set_files (f : list FileInfo -> list FileInfo) (st : State) : State :=
  mkState (f (files st)) (diagnosticCollection st) (pddlConfiguration st)
    (pddlParserSettings st) (validator st) (timeout st) (clock st) (timers st)
    (nextTimer st) (log st).

Definition set_diagnosticCollection
  (f : gmap string (list Diagnostic) -> gmap string (list Diagnostic)) (st : State)
  : State :=
  mkState (files st) (f (diagnosticCollection st)) (pddlConfiguration st)
    (pddlParserSettings st) (validator st) (timeout st) (clock st) (timers st)
    (nextTimer st) (log st).

Definition set_pddlConfiguration (x : PddlConfiguration) (st : State) : State :=
  mkState (files st) (diagnosticCollection st) x (pddlParserSettings st)
    (validator st) (timeout st) (clock st) (timers st) (nextTimer st) (log st).

Definition set_pddlParserSettings (x : PDDLParserSettings) (st : State) : State :=
  mkState (files st) (diagnosticCollection st) (pddlConfiguration st)
    x (validator st) (timeout st) (clock st) (timers st) (nextTimer st) (log st).

Definition set_validator (x : option Validator) (st : State) : State :=
  mkState (files st) (diagnosticCollection st) (pddlConfiguration st)
    (pddlParserSettings st) x (timeout st) (clock st) (timers st)
    (nextTimer st) (log st).

Definition set_timeout (x : option nat) (st : State) : State :=
  mkState (files st) (diagnosticCollection st) (pddlConfiguration st)
    (pddlParserSettings st) (validator st) x (clock st) (timers st)
    (nextTimer st) (log st).

Definition set_clock (x : nat) (st : State) : State :=
  mkState (files st) (diagnosticCollection st) (pddlConfiguration st)
    (pddlParserSettings st) (validator st) (timeout st) x (timers st)
    (nextTimer st) (log st).

Definition set_timers (f : list (nat * nat) -> list (nat * nat)) (st : State) : State :=
  mkState (files st) (diagnosticCollection st) (pddlConfiguration st)
    (pddlParserSettings st) (validator st) (timeout st) (clock st) (f (timers st))
    (nextTimer st) (log st).

Definition set_nextTimer (x : nat) (st : State) : State :=
  mkState (files st) (diagnosticCollection st) (pddlConfiguration st)
    (pddlParserSettings st) (validator st) (timeout st) (clock st) (timers st)
    x (log st).

Definition set_log (f : list Event -> list Event) (st : State) : State :=
  mkState (files st) (diagnosticCollection st) (pddlConfiguration st)
    (pddlParserSettings st) (validator st) (timeout st) (clock st) (timers st)
    (nextTimer st) (f (log st)).

(** *** The state monad *)

Definition M (A : Type) : Type := State -> A * State.

Definition ret {A} (a : A) : M A := fun st => (a, st).

Definition bind {A B} (m : M A) (k : A -> M B) : M B :=
  fun st => let '(a, st') := m st in k a st'.

Declare Scope monad_scope.
Delimit Scope monad_scope with monad.
Bind Scope monad_scope with M.
Notation "x <- m ;; k" := (bind m (fun x => k))
  (at level 100, m at next level, k at level 200, right associativity) : monad_scope.
Notation "m ;; k" := (bind m (fun _ => k))
  (at level 100, k at level 200, right associativity) : monad_scope.
Local Open Scope monad_scope.

Definition gets {A} (f : State -> A) : M A := fun st => (f st, st).
Definition modify (f : State -> State) : M unit := fun st => (tt, f st).
Definition when (b : bool) (m : M unit) : M unit := if b then m else ret tt.
Definition exec {A} (m : M A) (st : State) : State := snd (m st).
Definition eval {A} (m : M A) (st : State) : A := fst (m st).

(** [for (x of l) body(x)] *)
Fixpoint forEach {A} (l : list A) (body : A -> M unit) : M unit :=
  match l with
  | [] => ret tt
  | x :: r => body x ;; forEach r body
  end.

Definition emit (e : Event) : M unit := modify (set_log (fun l => l ++ [e])).

(** *** Timers of the event loop *)

(** [setTimeout(callback, ms)]: the only callback this class ever schedules
    is the validation sweep, so a pending timer is its handle and due time. *)
Definition setTimeout (ms : nat) : M nat :=
  fun st =>
    let h := nextTimer st in
    (h, set_nextTimer (S h) (set_timers (fun l => l ++ [(h, (clock st + ms)%nat)]) st)).

(** [clearTimeout(h)]: without effect when [h] has fired or was cleared. *)
Definition clearTimeout (h : nat) : M unit :=
  modify (set_timers (filter (fun t => fst t ≠ h))).

(** ** The workspace (common/src/workspace-model) *)

Module PddlWorkspace.
Section Workspace.
Context (ext : Collaborators).

(** [fileInfo.setStatus(status)]: the file is an object of the workspace,
    found under its URI. *)
Definition setStatus (uri : string) (s : FileStatus) : M unit :=
  modify (set_files (map (fun f =>
    if decide (fileUri f = uri) then withStatus s f else f))).

(** Modelled from the spec: [getAllFilesIf(predicate)] scans all files across
    all folders and keeps those the predicate accepts (spec sections 4.5, 6). *)
Definition getAllFilesIf (predicate : FileInfo -> bool) : M (list FileInfo) :=
  gets (fun st => List.filter predicate (files st)).

(** Modelled from the spec: the folder of a file groups the files sharing its
    containing directory (spec section 3, Workspace Folder). *)
Definition getFolderOf (fileInfo : FileInfo) : M (list FileInfo) :=
  gets (fun st =>
    List.filter (fun f => String.eqb (getFolderUri ext (fileUri f))
                                     (getFolderUri ext (fileUri fileInfo)))
                (files st)).

(** Modelled from the spec: [folder.getDomainFilesFor(problemFile)], the domain
    files of the folder whose declared name case-insensitively equals the
    problem's referenced domain name (spec sections 3 and 4.4). *)
Definition getDomainFilesFor (problemFile : FileInfo) : M (list FileInfo) :=
  folder <- getFolderOf problemFile ;;
  ret (List.filter (fun f =>
         isDomain f && String.eqb (Js.toLowerCase (name f))
                                  (Js.toLowerCase (getDomainName problemFile)))
       folder).

(** Modelled from the spec: [pddlWorkspace.getDomainFileFor(problemInfo)]
    returns the single match; the ambiguous and the missing case yield no
    file (spec section 4.4). *)
Definition getDomainFileFor (problemFile : FileInfo) : M (option FileInfo) :=
  domainFiles <- getDomainFilesFor problemFile ;;
  ret match domainFiles with
      | [d] => Some d
      | _ => None
      end.

(** Modelled from the spec: [getProblemFiles(domainInfo)], the problem files of
    the domain's folder that refer to the domain by name (spec section 3). *)
Definition getProblemFiles (domainInfo : FileInfo) : M (list FileInfo) :=
  folder <- getFolderOf domainInfo ;;
  ret (List.filter (fun f =>
         isProblem f && String.eqb (Js.toLowerCase (getDomainName f))
                                   (Js.toLowerCase (name domainInfo)))
       folder).

End Workspace.
End PddlWorkspace.

(** ** PlanValidator.ts: the outcome of a plan validation *)

Definition createRangeFromLine (errorLine : nat) : Range :=
  mkRange errorLine 0 errorLine 100.

Definition createDiagnostic (errorLine : nat) (error : string)
  (severity : DiagnosticSeverity.t) : Diagnostic :=
  mkDiagnostic (createRangeFromLine errorLine) error severity.

(** [class PlanValidationOutcome]; [error] is [None] for [null]. *)
Record PlanValidationOutcome := mkOutcome {
  planInfo : FileInfo;
  diagnostics : list Diagnostic;
  error : option string
}.

Module PlanValidationOutcome.

Definition getError (o : PlanValidationOutcome) : option string := error o.

(** The map with the single entry [planInfo.fileUri -> diagnostics]. *)
Definition getDiagnostics (o : PlanValidationOutcome) : gmap string (list Diagnostic) :=
  {[ fileUri (planInfo o) := diagnostics o ]}.

Definition goalNotAttained (planInfo : FileInfo) : PlanValidationOutcome :=
  let errorLine :=
    match last (getSteps planInfo) with
    | Some step => (lineIndex step + 1)%nat
    | None => 0%nat
    end in
  let error := "Plan does not reach the goal." in
  mkOutcome planInfo [createDiagnostic errorLine error DiagnosticSeverity.Warning]
    (Some error).

Definition invalidPlanDescription (planInfo : FileInfo) : PlanValidationOutcome :=
  let error := "Invalid plan description." in
  mkOutcome planInfo [createDiagnostic 0 error DiagnosticSeverity.Error] (Some error).

(** [undefined] is passed for the error, so the parameter's default, [null],
    applies. *)
Definition valid (planInfo : FileInfo) : PlanValidationOutcome :=
  mkOutcome planInfo [] None.

Definition failed (planInfo : FileInfo) (error : JsError) : PlanValidationOutcome :=
  let message := "Validate tool failed. " +:+ errorMessage error in
  mkOutcome planInfo [createDiagnostic 0 message DiagnosticSeverity.Error] (Some message).

Definition failedAtTime (planInfo : FileInfo) (timeStamp : Js.number)
  (repairHints : list string) : PlanValidationOutcome :=
  let stepAtTimeStamp :=
    find (fun step => equalsWithin (startTime step) timeStamp (1 # 10000))
         (getSteps planInfo) in
  let errorLine :=
    match stepAtTimeStamp with
    | Some step => lineIndex step
    | None => 0%nat
    end in
  mkOutcome planInfo
    (map (fun hint => mkDiagnostic (createRangeFromLine errorLine) hint
                        DiagnosticSeverity.Warning) repairHints)
    None.

Definition unknown (planInfo : FileInfo) : PlanValidationOutcome :=
  mkOutcome planInfo
    [mkDiagnostic (createRangeFromLine 0)
       "Unknown error. Run the 'PDDL: Validate plan' command for more information."
       DiagnosticSeverity.Warning]
    (Some "Unknown error.").

End PlanValidationOutcome.

(** ** PlanValidator.ts: reading the validator's output *)

Module PlanValidator.

(** [/Checking next happening \(time (\d+.\d+)\)/] tried at the front of [s]:
    the text of the group and the input that follows the match. *)
Definition failurePattern (s : string) : option (string * string) :=
  Js.re_lit "Checking next happening (time " (fun g =>
    Js.re_plus Js.isDigit
      (Js.re_class Js.isDot
         (Js.re_plus Js.isDigit (fun e =>
            Js.re_lit ")" (fun rest => Some (Js.captured g e, rest)) e))) g) s.

(** [failurePattern.exec(output)], on the part of the output from [lastIndex]
    on: the next match, and the output from the new [lastIndex] on. *)
Definition failurePattern_exec (s : string) : option (string * string) :=
  Js.re_search failurePattern s.

Lemma failurePattern_exec_shorter s cap rest :
  failurePattern_exec s = Some (cap, rest) ->
  (String.length rest < String.length s)%nat.
Proof.
  intros H. apply Js.re_search_Some in H as (pre & t & -> & H & _).
  apply Js.re_lit_Some in H as (r1 & -> & H).
  rewrite !Js.length_append. simpl.
  apply Js.re_plus_Some in H as (d1 & r2 & -> & _ & _ & H & _).
  apply Js.re_class_Some in H as (c & r3 & -> & _ & H).
  apply Js.re_plus_Some in H as (d2 & r4 & -> & _ & _ & H & _).
  apply Js.re_lit_Some in H as (r5 & -> & [= _ ->]).
  rewrite !Js.length_append. simpl. rewrite !Js.length_append. simpl. lia.
Qed.

Definition inspect {A} (a : A) : {b | a = b} := exist _ a eq_refl.

(** The loop
    [while ((result = failurePattern.exec(output)) !== null)
       timeStamp = parseFloat(result[1]);]
    on the output from [lastIndex] on. *)
Equations timeStampLoop (rest : string) (timeStamp : Js.number) : Js.number
  by wf (String.length rest) lt :=
  timeStampLoop rest timeStamp with inspect (failurePattern_exec rest) := {
    | @exist (Some (result1, rest')) _ => timeStampLoop rest' (Js.parseFloat result1)
    | @exist None _ => timeStamp }.
Next Obligation. by eapply failurePattern_exec_shorter. Qed.

(** [/Plan Repair Advice:([\s\S]+)Failed plans:/] tried at the front of [s]:
    the text of the group. *)
Definition repairAdvicePattern (s : string) : option string :=
  Js.re_lit "Plan Repair Advice:" (fun g =>
    Js.re_plus Js.isAny (fun e =>
      Js.re_lit "Failed plans:" (fun _ => Some (Js.captured g e)) e) g) s.

Definition unidentifiedError : string :=
  "Unidentified error. Run the 'PDDL: Validate plan' command for more info.".

Definition analyzeOutput (planInfo : FileInfo) (error : option JsError)
  (output : string) : PlanValidationOutcome :=
  match error with
  | Some e => PlanValidationOutcome.failed planInfo e
  | None =>
      if Js.matches "Plan failed to execute" output
         || Js.matches "Goal not satisfied" output
      then
        let timeStamp := timeStampLoop output (Js.Fin (-1)) in
        match Js.re_search repairAdvicePattern output with
        | Some match1 =>
            PlanValidationOutcome.failedAtTime planInfo timeStamp
              (Js.split Js.LF (Js.trim match1))
        | None =>
            PlanValidationOutcome.failedAtTime planInfo timeStamp [unidentifiedError]
        end
      else if Js.matches "Bad plan description!" output then
        PlanValidationOutcome.invalidPlanDescription planInfo
      else if Js.matches "Plan valid" output then
        PlanValidationOutcome.valid planInfo
      else PlanValidationOutcome.unknown planInfo
  end.

Section Validate.
Context (ext : Collaborators).

(** Lines sent to the output channel, under [if (showOutput)]. *)
Definition appendLine (showOutput : bool) (line : string) : M unit :=
  when showOutput (emit (OutputAppend (line +:+ String Js.LF ""))).

(** [testConfiguration()] *)
Definition testConfiguration : M bool :=
  validatePath <- gets (fun st => getValidatorPath (pddlConfiguration st)) ;;
  if (String.length validatePath =? 0)%nat then
    emit (ShowErrorMessage
            ("Set the 'validate' executable path to the '" +:+ CONF_PDDL ext +:+ "."
             +:+ VALIDATION_PATH ext +:+ "' setting.")) ;;
    ret false
  else ret true.

(** The problem file the [forEach] over the folder leaves in
    [problemFileInfo]: the last problem whose name matches. *)
Definition findProblemFile (planInfo : FileInfo) (folder : list FileInfo)
  : option FileInfo :=
  fold_left (fun problemFileInfo value =>
      if isProblem value
         && String.eqb (Js.toLowerCase (name value))
                       (Js.toLowerCase (getProblemName planInfo))
      then Some value else problemFileInfo)
    folder None.

Definition noProblemFile (planInfo : FileInfo) : JsError :=
  mkError "Error"
    ("No problem file with name '(problem " +:+ getProblemName planInfo
     +:+ "') and located in the same folder as the plan is not open in the editor.").

Definition noDomainFile (problemFileInfo : FileInfo) : JsError :=
  mkError "Error"
    ("No domain file corresponding to problem '" +:+ name problemFileInfo
     +:+ "' and located in the same folder is open in the editor.").

Definition validatePlanAndReportDiagnostics (planInfo : FileInfo) (showOutput : bool)
  (onSuccess : gmap string (list Diagnostic) -> M unit)
  (onError : string -> M unit) : M PlanValidationOutcome :=
  epsilon <- gets (fun st => getEpsilonTimeStep (pddlConfiguration st)) ;;
  validatePath <- gets (fun st => getValidatorPath (pddlConfiguration st)) ;;
  folder <- PddlWorkspace.getFolderOf ext planInfo ;;
  match findProblemFile planInfo folder with
  | None =>
      let outcome := PlanValidationOutcome.failed planInfo (noProblemFile planInfo) in
      onSuccess (PlanValidationOutcome.getDiagnostics outcome) ;;
      ret outcome
  | Some problemFileInfo =>
      domainFileInfo <- PddlWorkspace.getDomainFileFor ext problemFileInfo ;;
      match domainFileInfo with
      | None =>
          let outcome :=
            PlanValidationOutcome.failed planInfo (noDomainFile problemFileInfo) in
          onSuccess (PlanValidationOutcome.getDiagnostics outcome) ;;
          ret outcome
      | Some domainFileInfo =>
          let domainFile := toPddlFile ext "domain" (text domainFileInfo) in
          let problemFile := toPddlFile ext "problem" (text problemFileInfo) in
          let planFile := toPddlFile ext "plan" (text planInfo) in
          let args := ["-t"; epsilon; "-v"; domainFile; problemFile; planFile] in
          let cwd := dirnameOf ext (fileUri planInfo) in
          emit (Spawn validatePath args cwd) ;;
          let child := spawnSync ext validatePath args cwd in
          appendLine showOutput (validatePath +:+ " " +:+ Js.join " " args) ;;
          let output := stdout child in
          appendLine showOutput output ;;
          match stderr child with
          | Some err =>
              when showOutput (emit (OutputAppend "Error:")) ;;
              appendLine showOutput err
          | None => ret tt
          end ;;
          let outcome := analyzeOutput planInfo (spawnError child) output in
          match spawnError child with
          | Some e =>
              appendLine showOutput
                ("Error: name=" +:+ errorName e +:+ ", message=" +:+ errorMessage e) ;;
              onError (errorName e)
          | None => onSuccess (PlanValidationOutcome.getDiagnostics outcome)
          end ;;
          appendLine showOutput ("Exit code: " +:+ exitStatus child) ;;
          when showOutput (emit OutputShow) ;;
          ret outcome
      end
  end.

End Validate.

End PlanValidator.


(** ** Diagnostics.ts: the validation scheduler *)

Module Diagnostics.
Section Scheduler.
Context (ext : Collaborators).

Definition defaultTimerDelayInSeconds : nat := 3.

(** [x || d] on a number of seconds that may be unset: 0 is falsy as well. *)
Definition orDefault (x : option nat) (d : nat) : nat :=
  match x with
  | Some (S n) => S n
  | Some O | None => d
  end.

Definition cancelScheduledValidation : M unit :=
  t <- gets timeout ;;
  match t with
  | Some h => clearTimeout h
  | None => ret tt
  end.

Definition scheduleValidation : M unit :=
  cancelScheduledValidation ;;
  settings <- gets pddlParserSettings ;;
  let timerDelayInSeconds :=
    orDefault (delayInSecondsBeforeParsing settings) defaultTimerDelayInSeconds in
  h <- setTimeout (timerDelayInSeconds * 1000) ;;
  modify (set_timeout (Some h)).

(** [diagnostics.forEach((diagnostics, fileUri) =>
       this.diagnosticCollection.set(Uri.parse(fileUri), diagnostics))] *)
Definition sendDiagnostics (diagnostics : gmap string (list Diagnostic)) : M unit :=
  modify (set_diagnosticCollection (fun collection =>
    map_fold (fun fileUri ds acc => <[fileUri := ds]> acc) collection diagnostics)).

Definition sendDiagnostic (fileUri message : string)
  (severity : DiagnosticSeverity.t) : M unit :=
  let diagnostics := [mkDiagnostic (createRange ext 0 0) message severity] in
  modify (set_diagnosticCollection (fun collection => <[fileUri := diagnostics]> collection)).

Definition sendDiagnosticInfo (fileUri message : string) : M unit :=
  sendDiagnostic fileUri message DiagnosticSeverity.Information.

Definition clearDiagnostics (fileUri : string) : M unit :=
  modify (set_diagnosticCollection (fun collection => delete fileUri collection)).

Definition multipleDomainsMessage (problemFile : FileInfo) (domainFiles : list FileInfo)
  : string :=
  "There are multiple candidate domains with name " +:+ getDomainName problemFile
  +:+ ": " +:+ Js.join ", " (map (fun d => getFileName ext (fileUri d)) domainFiles).

Definition noDomainsMessage (problemFile : FileInfo) : string :=
  "There are no domains open in the same folder with name (domain '"
  +:+ getDomainName problemFile +:+ "') open in the editor.".

Definition getDomainFileFor (problemFile : FileInfo) : M (option FileInfo) :=
  domainFiles <- PddlWorkspace.getDomainFilesFor ext problemFile ;;
  if (1 <? length domainFiles)%nat then
    sendDiagnosticInfo (fileUri problemFile)
      (multipleDomainsMessage problemFile domainFiles) ;;
    PddlWorkspace.setStatus (fileUri problemFile) Validated ;;
    ret None
  else if (length domainFiles =? 0)%nat then
    sendDiagnosticInfo (fileUri problemFile) (noDomainsMessage problemFile) ;;
    PddlWorkspace.setStatus (fileUri problemFile) Validated ;;
    ret None
  else ret (head domainFiles).

Definition cannotRecognize (firstLine : string) : string :=
  "Cannot recognize whether this is a domain or problem: " +:+ firstLine.

Definition validateUnknownFile (fileInfo : FileInfo) : M unit :=
  PddlWorkspace.setStatus (fileUri fileInfo) Validating ;;
  (if (0 <? String.length (text fileInfo))%nat then
     let firstLine :=
       hd "" (Js.split Js.LF (Js.trimStart (stripComments ext (text fileInfo)))) in
     sendDiagnostic (fileUri fileInfo) (cannotRecognize firstLine)
       DiagnosticSeverity.Error
   else clearDiagnostics (fileUri fileInfo)) ;;
  PddlWorkspace.setStatus (fileUri fileInfo) Validated.

(** [executableOrService.match(/^http[s]?:/i)] *)
Definition isService (executableOrService : string) : bool :=
  let l := Js.toLowerCase executableOrService in
  match Js.strip_prefix "http:" l, Js.strip_prefix "https:" l with
  | None, None => false
  | _, _ => true
  end.

Definition createValidator : M Validator :=
  current <- gets validator ;;
  settings <- gets pddlParserSettings ;;
  let path := default "" (executableOrService settings) in
  let stale :=
    match current with
    | None => true
    | Some v =>
        negb (String.eqb (validatorPath v) path)
        || match v with
           | ValidatorExecutable _ syntax customPattern =>
               negb (String.eqb syntax (executableOptions settings))
               || negb (String.eqb customPattern (problemPattern settings))
           | ValidatorService _ _ => false
           end
    end in
  match current with
  | Some v =>
      if stale then
        let v' :=
          if isService path
          then ValidatorService path (serviceAuthenticationEnabled settings)
          else ValidatorExecutable path (executableOptions settings)
                 (problemPattern settings) in
        modify (set_validator (Some v')) ;; ret v'
      else ret v
  | None =>
      let v' :=
        if isService path
        then ValidatorService path (serviceAuthenticationEnabled settings)
        else ValidatorExecutable path (executableOptions settings)
               (problemPattern settings) in
      modify (set_validator (Some v')) ;; ret v'
  end.

(** The success callback handed to the validators. *)
Definition onSuccess (scheduleFurtherValidation : bool)
  (diagnostics : gmap string (list Diagnostic)) : M unit :=
  sendDiagnostics diagnostics ;;
  when scheduleFurtherValidation scheduleValidation.

(** The error callback handed to [validator.validate]. *)
Definition onValidateError (err : string) : M unit :=
  emit (ShowErrorMessage err) ;;
  emit (ConsoleWarn err) ;;
  emit (SuggestNewParserConfiguration false).

(** The error callback handed to the plan validator. *)
Definition onValidatePlanError (err : string) : M unit :=
  emit (ShowErrorMessage err) ;;
  emit (ConsoleWarn err).

(** [validator.validate] runs in the background: the call is recorded, and its
    callbacks run when the event loop delivers the validator's answer.
    [createValidator] always yields a validator, so the test [if (!validator)]
    never returns. *)
Definition validateDomainAndProblems (domainInfo : FileInfo)
  (problemFiles : list FileInfo) (scheduleFurtherValidation : bool) : M unit :=
  settings <- gets pddlParserSettings ;;
  match executableOrService settings with
  | None | Some EmptyString => emit (SuggestNewParserConfiguration true)
  | Some _ =>
      PddlWorkspace.setStatus (fileUri domainInfo) Validating ;;
      forEach problemFiles (fun p => PddlWorkspace.setStatus (fileUri p) Validating) ;;
      v <- createValidator ;;
      emit (ValidatorValidate v (fileUri domainInfo) (map fileUri problemFiles)
              scheduleFurtherValidation)
  end.

(** The file is an object of the workspace, never [null]; what goes to the
    console is left out. *)
Definition validatePddlDocument (fileInfo : FileInfo)
  (scheduleFurtherValidation : bool) : M unit :=
  if isDomain fileInfo then
    problemFiles <- PddlWorkspace.getProblemFiles ext fileInfo ;;
    validateDomainAndProblems fileInfo problemFiles scheduleFurtherValidation
  else if isProblem fileInfo then
    domainFile <- getDomainFileFor fileInfo ;;
    match domainFile with
    | Some d => validateDomainAndProblems d [fileInfo] scheduleFurtherValidation
    | None => ret tt
    end
  else ret tt.

(** The plan validator runs its process synchronously and has no [await]:
    its callbacks run before [validatePlan] returns.  The plan is an object of
    the workspace, never [null]. *)
Definition validatePlan (planInfo : FileInfo) (scheduleFurtherValidation : bool)
  : M unit :=
  configured <- PlanValidator.testConfiguration ext ;;
  if negb configured then ret tt
  else
    PddlWorkspace.setStatus (fileUri planInfo) Validating ;;
    _ <- PlanValidator.validatePlanAndReportDiagnostics ext planInfo false
           (onSuccess scheduleFurtherValidation) onValidatePlanError ;;
    ret tt.

(** [fileInfo => fileInfo.isX() && fileInfo.getStatus() == FileStatus.Parsed] *)
Definition isDirty (isKind : FileInfo -> bool) (fileInfo : FileInfo) : bool :=
  isKind fileInfo && bool_decide (status fileInfo = Parsed).

(** Each call the pass makes to one of the validation methods is recorded in
    the log first. *)
Definition call (c : Call) (m : M unit) : M unit := emit (Called c) ;; m.

Definition validateAllDirty : M unit :=
  dirtyUnknowns <- PddlWorkspace.getAllFilesIf (isDirty isUnknownPddl) ;;
  forEach dirtyUnknowns (fun file =>
    call (ValidateUnknownFile (fileUri file)) (validateUnknownFile file)) ;;
  dirtyDomains <- PddlWorkspace.getAllFilesIf (isDirty isDomain) ;;
  match dirtyDomains with
  | firstDirtyDomain :: _ =>
      let scheduleFurtherValidation := (1 <? length dirtyDomains)%nat in
      call (ValidatePddlDocument (fileUri firstDirtyDomain) scheduleFurtherValidation)
        (validatePddlDocument firstDirtyDomain scheduleFurtherValidation)
  | [] =>
      dirtyProblems <- PddlWorkspace.getAllFilesIf (isDirty isProblem) ;;
      match dirtyProblems with
      | firstDirtyProblem :: _ =>
          let scheduleFurtherValidation := (1 <? length dirtyProblems)%nat in
          call (ValidatePddlDocument (fileUri firstDirtyProblem) scheduleFurtherValidation)
            (validatePddlDocument firstDirtyProblem scheduleFurtherValidation)
      | [] => ret tt
      end ;;
      dirtyPlans <- PddlWorkspace.getAllFilesIf (isDirty isPlan) ;;
      match dirtyPlans with
      | firstDirtyPlan :: _ =>
          let scheduleFurtherValidation := (1 <? length dirtyPlans)%nat in
          call (ValidatePlan (fileUri firstDirtyPlan) scheduleFurtherValidation)
            (validatePlan firstDirtyPlan scheduleFurtherValidation)
      | [] => ret tt
      end
  end.

(** The callback [scheduleValidation] hands to [setTimeout]; the log records
    that a sweep starts. *)
Definition timerCallback : M unit := emit Sweep ;; validateAllDirty.

Definition revalidateAll : M unit :=
  modify (set_files (map (fun f =>
    if bool_decide (status f = Dirty) then f else withStatus Parsed f))) ;;
  cancelScheduledValidation ;;
  validateAllDirty.

Definition handleConfigurationChange : M unit :=
  settings <- gets (fun st => getParserSettings (pddlConfiguration st)) ;;
  modify (set_pddlParserSettings settings) ;;
  revalidateAll.

End Scheduler.
End Diagnostics.

(** ** The event loop around the scheduler

    The scheduler is driven by events: the workspace reports an update, time
    passes, the pending timer fires, the external validator answers, the
    configuration changes.  A timer fires when it is due: time does not pass
    beyond the due time of a pending timer. *)

Module EventLoop.
Section Loop.
Context (ext : Collaborators).

Inductive Input :=
(** [PddlWorkspace.UPDATED], after the workspace changed its files *)
| Updated (change : list FileInfo -> list FileInfo)
(** [PddlWorkspace.REMOVING] *)
| Removing (doc : FileInfo)
| Elapse (ms : nat)
| TimerFires (h : nat)
| ValidatorSucceeded (scheduleFurtherValidation : bool)
    (diagnostics : gmap string (list Diagnostic))
| ValidatorFailed (err : string)
| ConfigurationChanged (configuration : PddlConfiguration).

Definition pendingTimer (h : nat) (st : State) : option (nat * nat) :=
  List.find (fun t => (fst t =? h)%nat) (timers st).

(** One event; [None] when the event cannot happen in the state. *)
Definition step (i : Input) (st : State) : option State :=
  match i with
  | Updated change =>
      Some (exec (Diagnostics.scheduleValidation) (set_files change st))
  | Removing doc =>
      Some (exec (Diagnostics.clearDiagnostics (fileUri doc)) st)
  | Elapse ms =>
      if List.forallb (fun t => (clock st + ms <=? snd t)%nat) (timers st)
      then Some (set_clock (clock st + ms) st)
      else None
  | TimerFires h =>
      match pendingTimer h st with
      | Some (_, due) =>
          if (due <=? clock st)%nat
          then Some (exec (Diagnostics.timerCallback ext)
                       (set_timers (filter (fun t => fst t ≠ h)) st))
          else None
      | None => None
      end
  | ValidatorSucceeded scheduleFurtherValidation diagnostics =>
      Some (exec (Diagnostics.onSuccess scheduleFurtherValidation diagnostics) st)
  | ValidatorFailed err =>
      Some (exec (Diagnostics.onValidateError err) st)
  | ConfigurationChanged configuration =>
      Some (exec (Diagnostics.handleConfigurationChange ext)
              (set_pddlConfiguration configuration st))
  end.


(** The configured delay of the debounce, in milliseconds. *)
Definition delayMs (st : State) : nat :=
  (Diagnostics.orDefault (delayInSecondsBeforeParsing (pddlParserSettings st))
     Diagnostics.defaultTimerDelayInSeconds * 1000)%nat.




(** At most one timer is pending, and it is the one [this.timeout] holds. *)
Definition singleSlot (st : State) : Prop :=
  match timers st with
  | [] => True
  | [(h, _)] => timeout st = Some h
  | _ => False
  end.

End Loop.
End EventLoop.

(** ** The type-object index (common/src/DomainInfo) *)

Module TypeObjectMap.

(** Modelled from the spec: [TypeObjects], a type name with its ordered,
    duplicate-free list of object names (spec section 3). *)
Record TypeObjects := mkTypeObjects {
  type : string;
  getObjects : list string
}.

(** Modelled from the spec: [TypeObjectMap] (the class itself is not among the
    sources under study, only its unit tests are): the mapping from type name
    to its objects, looked up case-insensitively, and the reverse mapping from
    object name to owning type, looked up in exact case (spec sections 3
    and 4.3). *)
Record t := mkMap {
  types : gmap string TypeObjects;
  owners : gmap string string
}.

Definition empty : t := mkMap ∅ ∅.

Definition length (m : t) : nat := size (types m).

Definition getTypeCaseInsensitive (typeName : string) (m : t) : option TypeObjects :=
  types m !! Js.toLowerCase typeName.

Definition getTypeOf (objectName : string) (m : t) : option TypeObjects :=
  owner ← owners m !! objectName; getTypeCaseInsensitive owner m.

(** Modelled from the spec: [addObject], which keeps the list duplicate-free:
    an object already listed is not listed again (spec section 3). *)
Definition addObject (objectName : string) (e : TypeObjects) : TypeObjects :=
  if bool_decide (objectName ∈ getObjects e) then e
  else mkTypeObjects (type e) (getObjects e ++ [objectName]).

(** Modelled from the spec: [add(type, object)], a no-op the second time; an
    object keeps the type that was added for it first (spec sections 3, 4.3
    and 8). *)
Definition add (typeName objectName : string) (m : t) : t :=
  let found := default (mkTypeObjects typeName []) (getTypeCaseInsensitive typeName m) in
  mkMap (<[Js.toLowerCase typeName := addObject objectName found]> (types m))
        (match owners m !! objectName with
         | Some _ => owners m
         | None => <[objectName := typeName]> (owners m)
         end).

(** Modelled from the spec: [addAll(type, objects)], [add] for each object in
    turn (spec section 4.3). *)
Definition addAll (typeName : string) (objects : list string) (m : t) : t :=
  fold_left (fun acc objectName => add typeName objectName acc) objects m.

End TypeObjectMap.

(** ** The symbol tables of a parsed file (common/src/parser)

    The parser's code lies outside the sources under study.  What the editor
    features read of a parsed domain or problem is held in these records; the
    casts [<DomainInfo>fileInfo] and [<ProblemInfo>fileInfo], the merge of two
    lists of type objects and the upsert of a document are parameters of the
    development. *)

(** A parameter of a predicate or function ([Parameter] in the sources). *)
Record PddlParameter := mkPddlParameter {
  parameterName : string;
  parameterType : string
}.

(** A predicate or function ([Variable] in the sources). *)
Record PddlVariable := mkPddlVariable {
  variableName : string;
  parameters : list PddlParameter
}.

Record DomainInfo := mkDomainInfo {
  (** [domain.constants], [domain.getConstants()] *)
  getConstants : list TypeObjectMap.TypeObjects;
  getPredicates : list PddlVariable;
  getFunctions : list PddlVariable;
  getTypesInheritingFrom : string -> list string;
  getTypes : list string;
  getTypesInclObject : list string;
  (** [domain.getTypeInheritance().getEdges()] *)
  getTypeInheritanceEdges : list (string * string)
}.

Record ProblemInfo := mkProblemInfo {
  (** [problem.objects], [problem.getObjectsPerType()] *)
  getObjectsPerType : list TypeObjectMap.TypeObjects
}.

Record SymbolTables := mkSymbolTables {
  (** [<DomainInfo>fileInfo] *)
  asDomainInfo : FileInfo -> DomainInfo;
  (** [<ProblemInfo>fileInfo] *)
  asProblemInfo : FileInfo -> ProblemInfo;
  (** [TypeObjects.concatObjects(constants, objects)] *)
  concatObjects : list TypeObjectMap.TypeObjects -> list TypeObjectMap.TypeObjects
                  -> list TypeObjectMap.TypeObjects;
  (** [pddlWorkspace.upsertFile(uri, version, text)] *)
  upsertFile : string -> nat -> string -> M FileInfo;
  (** [pddlWorkspace.upsertAndParseFile(uri, PddlLanguage.PLAN, version, text)] *)
  upsertAndParsePlan : string -> nat -> string -> M (option FileInfo)
}.

(** ** The editor's documents and completion items (vscode API) *)

(** [new Position(line, character)] *)
Record Position := mkPosition {
  line : nat;
  character : nat
}.

(** A [TextDocument]; [getText None] is [document.getText()], the whole text,
    [getText (Some range)] the text the range covers. *)
Record TextDocument := mkTextDocument {
  uri : string;
  version : nat;
  languageId : string;
  lineCount : nat;
  getText : option Range -> string
}.

(** [new Range(start, end)] *)
Definition rangeBetween (s e : Position) : Range :=
  mkRange (line s) (character s) (line e) (character e).

(** What is appended to a [MarkdownString], in order. *)
Inductive MarkdownPart :=
| AppendText (value : string)
| AppendCodeblock (code language : string)
| AppendMarkdown (value : string).

Module CompletionItemKind.
Inductive t : Set := Text | Snippet.
End CompletionItemKind.

(** A [CompletionItem]; [insertText] holds the value of its [SnippetString]. *)
Record CompletionItem := mkCompletionItem {
  label : string;
  itemKind : CompletionItemKind.t;
  insertText : string;
  documentation : list MarkdownPart
}.

(** ** AutoCompletion.ts: the snippets offered inside [(:init] *)

Module CompletionCollector.

(** [a.indexOf(v)], -1 when [v] is not in [a]. *)
Fixpoint indexOfFrom (i : nat) (a : list string) (v : string) : Z :=
  match a with
  | [] => (-1)%Z
  | x :: r => if String.eqb x v then Z.of_nat i else indexOfFrom (S i) r v
  end.

Definition indexOf (a : list string) (v : string) : Z := indexOfFrom 0 a v.

(** [a.filter((v, i) => p(v, i))], on the part of the array from index [i]
    on. *)
Fixpoint filterFrom {A} (p : A -> nat -> bool) (i : nat) (a : list A) : list A :=
  match a with
  | [] => []
  | x :: r => if p x i then x :: filterFrom p (S i) r else filterFrom p (S i) r
  end.

(** [a.filter((v, i, a) => a.indexOf(v) === i)] *)
Definition distinct (a : list string) : list string :=
  filterFrom (fun v i => (indexOf a v =? Z.of_nat i)%Z) 0 a.

(** [a.reduce((x, y) => x.concat(y), [])] *)
Definition flatten {A} (a : list (list A)) : list A :=
  fold_left (fun x y => x ++ y) a [].

(** [s.includes(p)] on strings: the search for the text [p], leftmost start
    first. *)
Definition textIncludes (s p : string) : bool :=
  match Js.re_search (Js.re_lit p (fun _ => Some tt)) s with
  | Some _ => true
  | None => false
  end.

(** [types.includes(t)] *)
Definition includes (types : list string) (t : string) : bool :=
  existsb (String.eqb t) types.

Definition getObjects (allTypeObjects : list TypeObjectMap.TypeObjects)
  (types : list string) : list string :=
  flatten
    (map TypeObjectMap.getObjects
       (List.filter (fun typeObjects => includes types (TypeObjectMap.type typeObjects))
          allTypeObjects)).

Definition getTypesInvolved (variables : list PddlVariable) (domainFile : DomainInfo)
  : list string :=
  let typesDirectlyInvolved :=
    distinct (map parameterType (flatten (map parameters variables))) in
  let typesInheriting :=
    flatten (map (fun type1 => getTypesInheritingFrom domainFile type1)
               typesDirectlyInvolved) in
  typesInheriting ++ typesDirectlyInvolved.

(** Exactly two parameters, of the same type. *)
Definition isSymmetric (variable : PddlVariable) : bool :=
  (length (parameters variable) =? 2)%nat
  && match parameters variable with
     | p0 :: p1 :: _ => String.eqb (parameterType p0) (parameterType p1)
     | _ => false
     end.

Definition getSymmetricPredicates (domainFile : DomainInfo) : list PddlVariable :=
  List.filter isSymmetric (getPredicates domainFile).

Definition getSymmetricFunctions (domainFile : DomainInfo) : list PddlVariable :=
  List.filter isSymmetric (getFunctions domainFile).

Definition useTabAndEnter (what : string) : string :=
  "Use the `Tab` and `Enter` keys on your keyboard to cycle through the selection of the "
  +:+ what +:+ ".".

Definition predicateAndFunctionItem (predicateNames functionNames objectNames : string)
  : CompletionItem :=
  mkCompletionItem "Initialize a symmetric predicate and function"
    CompletionItemKind.Snippet
    ("(${1|" +:+ predicateNames +:+ "|} ${2|" +:+ objectNames +:+ "|} ${3|"
     +:+ objectNames +:+ "|}) (${1} ${3} ${2})" +:+ String Js.LF ""
     +:+ "(= (${4|" +:+ functionNames +:+ "|} ${2|" +:+ objectNames +:+ "|} ${3|"
     +:+ objectNames +:+ "|}) ${5}) (= (${4} ${3} ${2}) ${5})")
    [AppendText "Inserts a predicate and function initialization for predicates and functions with two parameters of the same type.";
     AppendCodeblock ("(road A B) (road B A)" +:+ String Js.LF ""
                      +:+ "(= (distance A B) 1) (= (distance B A) 1)") "PDDL";
     AppendMarkdown (useTabAndEnter "predicate, objects, function and the function value")].

Definition predicateItem (predicateNames objectNames : string) : CompletionItem :=
  mkCompletionItem "Initialize a symmetric predicate" CompletionItemKind.Snippet
    ("(${1|" +:+ predicateNames +:+ "|} ${2|" +:+ objectNames +:+ "|} ${3|"
     +:+ objectNames +:+ "|}) (${1} ${3} ${2})")
    [AppendText "Inserts a predicate initialization for predicates with two parameters of the same type.";
     AppendCodeblock "(road A B) (road B A)" "pddl";
     AppendMarkdown (useTabAndEnter "predicate and objects")].

Definition functionItem (functionNames objectNames : string) : CompletionItem :=
  mkCompletionItem "Initialize a symmetric function" CompletionItemKind.Snippet
    ("(= (${1|" +:+ functionNames +:+ "|} ${2|" +:+ objectNames +:+ "|} ${3|"
     +:+ objectNames +:+ "|}) ${4}) (= (${1} ${3} ${2}) ${4})")
    [AppendText "Inserts a function initialization for functions with two parameters of the same type.";
     AppendCodeblock "(= (distance A B) 1) (= (distance B A) 1)" "pddl";
     AppendMarkdown (useTabAndEnter "function, objects and the function value")].

Section Collector.
Context (ext : Collaborators) (tables : SymbolTables).

(** The methods that push to [this.completions] take the list as it stands
    and return it as they leave it. *)
Definition createSymmetricInit (problemFileInfo : ProblemInfo) (domainFile : DomainInfo)
  (completions : list CompletionItem) : list CompletionItem :=
  let allTypeObjects :=
    concatObjects tables (getConstants domainFile) (getObjectsPerType problemFileInfo) in
  let symmetricPredicates := getSymmetricPredicates domainFile in
  let symmetricPredicateNames := Js.join "," (map variableName symmetricPredicates) in
  let symmetricFunctions := getSymmetricFunctions domainFile in
  let symmetricFunctionNames := Js.join "," (map variableName symmetricFunctions) in
  let completions1 :=
    if (0 <? length symmetricPredicates)%nat && (0 <? length symmetricFunctions)%nat then
      let typesInvolved :=
        getTypesInvolved (symmetricPredicates ++ symmetricFunctions) domainFile in
      let objectNames := Js.join "," (getObjects allTypeObjects typesInvolved) in
      completions
      ++ [predicateAndFunctionItem symmetricPredicateNames symmetricFunctionNames
            objectNames]
    else completions in
  let completions2 :=
    if (0 <? length symmetricPredicates)%nat then
      let typesInvolved := getTypesInvolved symmetricPredicates domainFile in
      let objectNames := Js.join "," (getObjects allTypeObjects typesInvolved) in
      completions1 ++ [predicateItem symmetricPredicateNames objectNames]
    else completions1 in
  if (0 <? length symmetricFunctions)%nat then
    let typesInvolved := getTypesInvolved symmetricFunctions domainFile in
    let objectNames := Js.join "," (getObjects allTypeObjects typesInvolved) in
    completions2 ++ [functionItem symmetricFunctionNames objectNames]
  else completions2.

Definition createProblemInitCompletionItems (problemFileInfo : FileInfo)
  (domainFiles : list FileInfo) (completions : list CompletionItem)
  : list CompletionItem :=
  match domainFiles with
  | [domainFile] =>
      createSymmetricInit (asProblemInfo tables problemFileInfo)
        (asDomainInfo tables domainFile) completions
  | _ => completions
  end.

(** The text before the position holds [(:init], the text after it
    [(:goal]. *)
Definition isInInit (document : TextDocument) (position : Position) : bool :=
  let startPosition := mkPosition 0 0 in
  let endPosition := mkPosition (lineCount document) 10000 in
  textIncludes (getText document (Some (rangeBetween startPosition position))) "(:init"
  && textIncludes (getText document (Some (rangeBetween position endPosition))) "(:goal".

Definition createProblemCompletionItems (document : TextDocument) (position : Position)
  (problemFileInfo : FileInfo) (completions : list CompletionItem)
  : M (list CompletionItem) :=
  domainFiles <- PddlWorkspace.getDomainFilesFor ext problemFileInfo ;;
  if isInInit document position
  then ret (createProblemInitCompletionItems problemFileInfo domainFiles completions)
  else ret completions.

(** [new CompletionCollector(pddlWorkspace, document, position, context)
       .getCompletions()] *)
Definition provideCompletionItems (document : TextDocument) (position : Position)
  : M (list CompletionItem) :=
  activeFileInfo <- upsertFile tables (uri document) (version document)
                      (getText document None) ;;
  if isProblem activeFileInfo
  then createProblemCompletionItems document position activeFileInfo []
  else ret [].

End Collector.
End CompletionCollector.

(** ** PlanValidator.ts: the command [pddl.plan.validate] *)

Module ValidateCommand.

(** What [validateTextDocument] resolves to: the outcome of a validation, or
    the outcome built for a document that could not be parsed, whose
    [planInfo] is [null]. *)
Inductive Outcome :=
| OfPlan (outcome : PlanValidationOutcome)
| OfNull (diagnostics : list Diagnostic) (error : option string).

Definition getError (o : Outcome) : option string :=
  match o with
  | OfPlan outcome => PlanValidationOutcome.getError outcome
  | OfNull _ error => error
  end.

(** [PlanValidationOutcome.failed(null, error)] *)
Definition failedNull (error : JsError) : Outcome :=
  let message := "Validate tool failed. " +:+ errorMessage error in
  OfNull [createDiagnostic 0 message DiagnosticSeverity.Error] (Some message).

(** [if (s)] on a string that may be [null] or [undefined]: the empty string
    is falsy as well. *)
Definition truthy (s : option string) : bool :=
  match s with
  | Some (String _ _) => true
  | _ => false
  end.

Section Command.
Context (ext : Collaborators) (tables : SymbolTables).

Definition validateTextDocument (planDocument : TextDocument) : M Outcome :=
  planFileInfo <- upsertAndParsePlan tables (uri planDocument) (version planDocument)
                    (getText planDocument None) ;;
  match planFileInfo with
  | None => ret (failedNull (mkError "Error" "Cannot open or parse plan file."))
  | Some planFileInfo =>
      outcome <- PlanValidator.validatePlanAndReportDiagnostics ext planFileInfo true
                   (fun _ => ret tt) (fun _ => ret tt) ;;
      ret (OfPlan outcome)
  end.

(** The handler registered for the command; [activeTextEditor] is the
    document of [window.activeTextEditor], if there is one.  What the methods
    of the collaborators may throw is not modelled, so the [catch] clause has
    no counterpart. *)
Definition validateCommand (activeTextEditor : option TextDocument) : M unit :=
  match activeTextEditor with
  | Some document =>
      if String.eqb (languageId document) "plan" then
        configured <- PlanValidator.testConfiguration ext ;;
        if negb configured then ret tt
        else
          outcome <- validateTextDocument document ;;
          if truthy (getError outcome)
          then emit (ShowErrorMessage (default "" (getError outcome)))
          else ret tt
      else emit (ShowErrorMessage "There is no plan file open.")
  | None => emit (ShowErrorMessage "There is no plan file open.")
  end.

End Command.
End ValidateCommand.

(** ** ProblemObjectsView: the graph of the objects of a problem *)

Module NetworkNode.
Record t := mk {
  id : nat;
  label : string;
  shape : string
}.
End NetworkNode.

(** [from] and [to] are [undefined] when the map of nodes does not hold the
    name. *)
Module NetworkEdge.
Record t := mk {
  from : option nat;
  to : option nat;
  label : string
}.
End NetworkEdge.

Record GraphViewData := mkGraphViewData {
  graphNodes : list NetworkNode.t;
  graphRelationships : list NetworkEdge.t
}.

Module ProblemObjectsRendererDelegate.

(** [nodes] is a JavaScript [Map]: it keeps its keys in the order of their
    first insertion, and setting a key it holds replaces the value in
    place. *)
Fixpoint mapSet (key : string) (value : nat) (m : list (string * nat))
  : list (string * nat) :=
  match m with
  | [] => [(key, value)]
  | (k, v) :: r =>
      if String.eqb k key then (k, value) :: r else (k, v) :: mapSet key value r
  end.

Fixpoint mapGet (key : string) (m : list (string * nat)) : option nat :=
  match m with
  | [] => None
  | (k, v) :: r => if String.eqb k key then Some v else mapGet key r
  end.

(** The fields of the delegate. *)
Record t := mk {
  nodes : list (string * nat);
  relationships : list NetworkEdge.t;
  objectsAndConstantsPerType : list TypeObjectMap.TypeObjects;
  lastIndex : nat;
  typeNames : gset string
}.

Definition set_nodes (f : list (string * nat) -> list (string * nat)) (d : t) : t :=
  mk (f (nodes d)) (relationships d) (objectsAndConstantsPerType d) (lastIndex d)
     (typeNames d).

Definition set_relationships (f : list NetworkEdge.t -> list NetworkEdge.t) (d : t) : t :=
  mk (nodes d) (f (relationships d)) (objectsAndConstantsPerType d) (lastIndex d)
     (typeNames d).

Definition set_lastIndex (n : nat) (d : t) : t :=
  mk (nodes d) (relationships d) (objectsAndConstantsPerType d) n (typeNames d).

Definition set_typeNames (f : gset string -> gset string) (d : t) : t :=
  mk (nodes d) (relationships d) (objectsAndConstantsPerType d) (lastIndex d)
     (f (typeNames d)).

(** [a.forEach((x, index) => body)], on the part of the array from [index]
    on. *)
Fixpoint forEachFrom {A} (body : A -> nat -> t -> t) (index : nat) (a : list A) (d : t)
  : t :=
  match a with
  | [] => d
  | x :: r => forEachFrom body (S index) r (body x index d)
  end.

Definition toEdge (edge : string * string) (label : string) (d : t) : NetworkEdge.t :=
  let '(from, to) := edge in
  NetworkEdge.mk (mapGet from (nodes d)) (mapGet to (nodes d)) label.

Definition addEdge (edge : string * string) (label : string) (d : t) : t :=
  set_relationships (fun r => r ++ [toEdge edge label d]) d.

Definition addObjects (typeName : string) (d : t) : t :=
  match List.find (fun element => String.eqb (TypeObjectMap.type element) typeName)
          (objectsAndConstantsPerType d) with
  | Some objectsOfType =>
      let objects := TypeObjectMap.getObjects objectsOfType in
      let d' :=
        forEachFrom (fun objectName index d =>
            addEdge (objectName, typeName) ""
              (set_nodes (mapSet objectName (index + lastIndex d)) d))
          0 objects d in
      set_lastIndex (lastIndex d' + length objects) d'
  | None => d
  end.

(** The constructor.  [lastIndex] has no initial value in the source and is
    assigned before it is read. *)
Definition new (tables : SymbolTables) (domain : DomainInfo) (problem : ProblemInfo) : t :=
  let d0 :=
    mk [] []
       (concatObjects tables (getConstants domain) (getObjectsPerType problem)) 0 ∅ in
  let d1 :=
    forEachFrom (fun t index d =>
        set_typeNames (fun s => {[ t ]} ∪ s) (set_nodes (mapSet t index) d))
      0 (getTypesInclObject domain) d0 in
  let d2 :=
    fold_left (fun d edge => addEdge edge "extends" d) (getTypeInheritanceEdges domain) d1 in
  let d3 := set_lastIndex (length (getTypesInclObject domain)) d2 in
  fold_left (fun d t => addObjects t d) (getTypes domain) d3.

Definition toNode (entry : string * nat) (d : t) : NetworkNode.t :=
  let '(entryLabel, entryId) := entry in
  let shape := if bool_decide (entryLabel ∈ typeNames d) then "ellipse" else "box" in
  NetworkNode.mk entryId entryLabel shape.

Definition getNodes (d : t) : list NetworkNode.t :=
  map (fun entry => toNode entry d) (nodes d).

Definition getRelationships (d : t) : list NetworkEdge.t := relationships d.

(** [ProblemObjectsRenderer.render] *)
Definition render (tables : SymbolTables) (problem : ProblemInfo) (domain : DomainInfo)
  : GraphViewData :=
  let renderer := new tables domain problem in
  mkGraphViewData (getNodes renderer) (getRelationships renderer).

End ProblemObjectsRendererDelegate.

(** ** What the specification says about the validator's output *)

(** [output] contains the text [p]. *)
Definition Contains (p output : string) : Prop :=
  exists a b, output = a +:+ p +:+ b.

(** The texts [\d+.\d+] matches: digits, one character that is no line
    terminator, digits. *)
Definition TimeText (T : string) : Prop :=
  exists d1 c d2,
    T = d1 +:+ String c d2
    /\ d1 <> "" /\ Js.forallb Js.isDigit d1 = true
    /\ Js.isDot c = true
    /\ d2 <> "" /\ Js.forallb Js.isDigit d2 = true.

Definition happeningPrefix : string := "Checking next happening (time ".

(** An occurrence of "Checking next happening (time T)" in [output]. *)
Definition Occurs (output : string) : Prop :=
  exists pre T post,
    output = pre +:+ happeningPrefix +:+ T +:+ ")" +:+ post /\ TimeText T.


(** The block of repair advice in [output]: the text between
    "Plan Repair Advice:" and "Failed plans:". *)
Definition AdviceBlock (output a block b : string) : Prop :=
  output = a +:+ "Plan Repair Advice:" +:+ block +:+ "Failed plans:" +:+ b
  /\ block <> "".

(** Of the advice blocks of [output], the one that starts first and, among
    those, ends last. *)
Definition Outermost (output a block : string) : Prop :=
  forall a' block' b', AdviceBlock output a' block' b' ->
    (String.length a <= String.length a')%nat
    /\ (String.length a = String.length a' ->
        String.length block' <= String.length block)%nat.

(** The repair hints the specification asks for: the lines of the advice
    block, white space around the block being trimmed; one generic hint when
    there is no block. *)
Inductive RepairHints (output : string) : list string -> Prop :=
| hints_of_block a block b :
    AdviceBlock output a block b ->
    Outermost output a block ->
    RepairHints output (Js.split Js.LF (Js.trim block))
| hints_generic :
    (forall a block b, ~ AdviceBlock output a block b) ->
    RepairHints output [PlanValidator.unidentifiedError].

Definition within (timeStamp : Js.number) (step : PlanStep) : Prop :=
  equalsWithin (startTime step) timeStamp (1 # 10000) = true.

(** The line the diagnostics go to: that of the first step whose start time
    is within the tolerance of the timestamp, line 0 when no step is. *)
Inductive ErrorLine (steps : list PlanStep) (timeStamp : Js.number) : nat -> Prop :=
| line_of_step before step after :
    steps = before ++ step :: after ->
    Forall (fun s => ~ within timeStamp s) before ->
    within timeStamp step ->
    ErrorLine steps timeStamp (lineIndex step)
| line_zero :
    Forall (fun s => ~ within timeStamp s) steps ->
    ErrorLine steps timeStamp 0.

(** A start time that differs from [t] by at least [epsilon]. *)
Definition differsAtLeast (epsilon t : Q) (step : PlanStep) : Prop :=
  match startTime step with
  | Js.Fin x => (epsilon <= Qabs (x - t))%Q
  | _ => True
  end.

(** *** What the parser computes, named for the comparison *)

Definition repairHints (output : string) : list string :=
  match Js.re_search PlanValidator.repairAdvicePattern output with
  | Some match1 => Js.split Js.LF (Js.trim match1)
  | None => [PlanValidator.unidentifiedError]
  end.

Definition errorLine (planInfo : FileInfo) (timeStamp : Js.number) : nat :=
  match find (fun step => equalsWithin (startTime step) timeStamp (1 # 10000))
             (getSteps planInfo) with
  | Some step => lineIndex step
  | None => 0%nat
  end.

Definition adviceStart : string := "Plan Repair Advice:".
Definition adviceEnd : string := "Failed plans:".



(** ** What the specification says about the scheduler *)


(** An event of the surroundings, as opposed to a record of the pass. *)
Definition external (e : Event) : bool :=
  match e with
  | Called _ | Sweep => false
  | _ => true
  end.

(** The calls to validation methods a log records, in order. *)
Definition calls (l : list Event) : list Call :=
  flat_map (fun e => match e with Called c => [c] | _ => [] end) l.

(** The files of a kind that are dirty: parsed and not yet validated. *)
Definition dirty (isKind : FileInfo -> bool) (st : State) : list FileInfo :=
  List.filter (Diagnostics.isDirty isKind) (files st).

(** The calls of one pass, read off the state the pass starts in: every dirty
    unknown file; then the first dirty domain alone, or else the first dirty
    problem and the first dirty plan; the flag of a call tells whether more
    than one file of its kind was dirty. *)
Definition passCalls (st : State) : list Call :=
  map (fun f => ValidateUnknownFile (fileUri f)) (dirty isUnknownPddl st)
  ++ match dirty isDomain st with
     | d :: ds => [ValidatePddlDocument (fileUri d) (1 <? length (d :: ds))%nat]
     | [] =>
         match dirty isProblem st with
         | p :: ps => [ValidatePddlDocument (fileUri p) (1 <? length (p :: ps))%nat]
         | [] => []
         end
         ++ match dirty isPlan st with
            | p :: ps => [ValidatePlan (fileUri p) (1 <? length (p :: ps))%nat]
            | [] => []
            end
     end.

(** The files [fs] are the files [fs0] but for the status of files of
    kind [K]. *)
Definition touched (K : FileKind -> bool) (fs0 fs : list FileInfo) : Prop :=
  Forall2 (fun f0 f => f = f0 \/ (K (kind f0) = true /\ exists s, f = withStatus s f0))
          fs0 fs.

Definition notPlan (k : FileKind) : bool :=
  match k with PlanKind _ _ => false | _ => true end.

Definition unknown (k : FileKind) : bool :=
  match k with UnknownKind => true | _ => false end.

(** What a method logs when it is called through [call] and makes no call of
    its own. *)
Definition keepsCalls {A} (m : M A) : Prop :=
  forall st, calls (log (exec m st)) = calls (log st).





(** ** What the specification says about the type-object index *)

(** The object list of a type, empty when the index does not hold the type. *)
Definition objectsOf (typeName : string) (m : TypeObjectMap.t) : list string :=
  default [] (TypeObjectMap.getObjects <$> TypeObjectMap.getTypeCaseInsensitive typeName m).

(** [objectName] is listed under [typeName] and has an owner. *)
Definition added (typeName objectName : string) (m : TypeObjectMap.t) : Prop :=
  exists e, TypeObjectMap.getTypeCaseInsensitive typeName m = Some e
            /\ objectName ∈ TypeObjectMap.getObjects e
            /\ is_Some (TypeObjectMap.owners m !! objectName).

(** ** What the code shows about the statuses of the files *)

(** The files [fs] with the status of those whose URI is among [uris] set
    to [s]. *)
Definition marked (uris : list string) (s : FileStatus) (fs : list FileInfo)
  : list FileInfo :=
  map (fun f => if bool_decide (fileUri f ∈ uris) then withStatus s f else f) fs.

Arguments marked : simpl never.

(** The statuses a validation leaves behind. *)
Definition settled (s : FileStatus) : Prop := s = Validating \/ s = Validated.

(** The files [fs] are the files [fs0], one by one, but for files whose status
    moved to a settled one. *)
Definition settles (fs0 fs : list FileInfo) : Prop :=
  Forall2 (fun f0 f => f = f0 \/ exists s, settled s /\ f = withStatus s f0) fs0 fs.

(** The number of files waiting for a validation. *)
Definition parsedCount (fs : list FileInfo) : nat :=
  length (List.filter (fun f => bool_decide (status f = Parsed)) fs).

(** The parser is configured: [executableOrService] is set and not empty. *)
Definition parserConfigured (settings : PDDLParserSettings) : Prop :=
  exists c s, executableOrService settings = Some (String c s).

(** The validator [createValidator] builds anew from the settings. *)
Definition builtFrom (settings : PDDLParserSettings) : Validator :=
  let path := default "" (executableOrService settings) in
  if Diagnostics.isService path
  then ValidatorService path (serviceAuthenticationEnabled settings)
  else ValidatorExecutable path (executableOptions settings) (problemPattern settings).

(** The runs of an external validator a log records. *)
Definition validatorRuns (l : list Event) : list Event :=
  List.filter (fun e => match e with
                        | ValidatorValidate _ _ _ _ | Spawn _ _ _ => true
                        | _ => false
                        end) l.

(** No file with the URI [u] is waiting for a validation. *)
Definition settledAt (u : string) (fs : list FileInfo) : Prop :=
  Forall (fun f => fileUri f = u -> status f <> Parsed) fs.

(** The files as [revalidateAll] marks them: every file that is not Dirty
    counts as parsed, and waits for a validation. *)
Definition refreshed (fs : list FileInfo) : list FileInfo :=
  map (fun f => if bool_decide (status f = Dirty) then f else withStatus Parsed f) fs.

(** ** What the code shows about the completion items *)

(** The elements of [l] that are not in [seen], each once, in the order of
    their first occurrence. *)
Fixpoint firstOccurrences (seen l : list string) : list string :=
  match l with
  | [] => []
  | x :: r =>
      if bool_decide (x ∈ seen) then firstOccurrences seen r
      else x :: firstOccurrences (x :: seen) r
  end.

(** ** What the code shows about the graph of objects *)

(** The index of the first occurrence of [x] in [l]. *)
Fixpoint position (x : string) (l : list string) : option nat :=
  match l with
  | [] => None
  | y :: r => if String.eqb y x then Some 0%nat else S <$> position x r
  end.

(** The objects the first entry of the type lists; none when no entry has the
    type. *)
Definition objectsOfType (allTypeObjects : list TypeObjectMap.TypeObjects)
  (typeName : string) : list string :=
  match List.find (fun element => String.eqb (TypeObjectMap.type element) typeName)
          allTypeObjects with
  | Some objectsOfType => TypeObjectMap.getObjects objectsOfType
  | None => []
  end.

(** ** What the code shows about the validate command *)

(** The events a user sees: a message, the validator started, text in the
    output channel. *)
Definition reports (e : Event) : bool :=
  match e with
  | ShowErrorMessage _ | Spawn _ _ _ | OutputAppend _ | OutputShow => true
  | _ => false
  end.

(** ** Sample data

    A plan of two steps and an output of the validator. *)

Definition samplePlan : FileInfo :=
  mkFileInfo "file:///w/p.plan" "p" "" Parsed
    (PlanKind "prob" [mkPlanStep "a" (Js.Fin 1) 3; mkPlanStep "b" (Js.Fin 2.5) 4]).

Definition sampleTail : string :=
"
Plan failed to execute
Plan Repair Advice:

(b) has an unsatisfied precondition at time 2.5
(Set (p) to true)

Failed plans:
 p.plan".

Definition sampleFailure : string :=
  "Checking next happening (time 1.0)
Checking next happening (time 2.5)" +:+ sampleTail.

Definition sampleError : JsError := mkError "Error" "spawnSync validate ETIMEDOUT".

Definition sampleNoHappening : string :=
  "Plan failed to execute" +:+ sampleTail.

(** A folder with one problem, one plan, two unknown files. *)

Definition sampleExt : Collaborators :=
  mkCollaborators
    (fun s => s)
    (fun line character => mkRange line character line (character + 100))
    (fun _ => "file:///w")
    (fun uri => uri)
    (fun prefix _ => "/tmp/" +:+ prefix +:+ ".pddl")
    (fun _ => "/w")
    (fun _ _ _ => mkSpawnResult None "Plan valid" None "0")
    "pddl" "validatorPath".

Definition sampleSettings : PDDLParserSettings :=
  mkSettings None (Some "validate.exe") "" "" false.

Definition sampleProblem : FileInfo :=
  mkFileInfo "file:///w/prob.pddl" "prob" "(define (problem prob) (:domain d))" Parsed
    (ProblemKind "d").



Definition sampleState (fs : list FileInfo) : State :=
  mkState fs ∅ (mkConfiguration sampleSettings "validate" "0.001") sampleSettings
    None None 0 [] 0 [].


(** A domain for the problem, and states whose configuration lacks the parser
    or the plan validator. *)

Definition sampleDomain : FileInfo :=
  mkFileInfo "file:///w/d.pddl" "d" "(define (domain d))" Parsed DomainKind.

Definition sampleWorkspace : list FileInfo := [sampleDomain; sampleProblem; samplePlan].

Definition sampleStateWith (configuration : PddlConfiguration) (fs : list FileInfo)
  : State :=
  mkState fs ∅ configuration (getParserSettings configuration) None None 0 [] 0 [].

Definition sampleNoParser : PddlConfiguration :=
  mkConfiguration (mkSettings None None "" "" false) "validate" "0.001".

Definition sampleNoValidate : PddlConfiguration :=
  mkConfiguration sampleSettings "" "0.001".

(** A domain with the types [vehicle] and [truck], a problem with two trucks
    and a car. *)

Definition sampleDomainInfo : DomainInfo :=
  mkDomainInfo [] [] [] (fun _ => []) ["vehicle"; "truck"] ["object"; "vehicle"; "truck"]
    [("vehicle", "object"); ("truck", "vehicle")].

Definition sampleProblemInfo : ProblemInfo :=
  mkProblemInfo [TypeObjectMap.mkTypeObjects "truck" ["t1"; "t2"];
                 TypeObjectMap.mkTypeObjects "vehicle" ["car"]].

Definition sampleTables : SymbolTables :=
  mkSymbolTables (fun _ => sampleDomainInfo) (fun _ => sampleProblemInfo)
    (fun constants objects => constants ++ objects)
    (fun uri _ text => ret (mkFileInfo uri "" text Parsed UnknownKind))
    (fun uri _ text => ret (Some (mkFileInfo uri "p" text Parsed (PlanKind "prob" [])))).

Definition samplePlanDocument : TextDocument :=
  mkTextDocument "file:///w/p.plan" 1 "plan" 1 (fun _ => "0.0: (a)").

(** ** Facts about the output parser *)

Section PlanValidatorFacts.
Import PlanValidator.

Lemma matches_Contains p s : Js.matches p s = true <-> Contains p s.
Proof. apply Js.matches_true. Qed.

Lemma matches_not_Contains p s : Js.matches p s = false <-> ~ Contains p s.
Proof.
  rewrite <- matches_Contains. destruct (Js.matches p s); split; congruence.
Qed.

Lemma timeStampLoop_unfold rest ts :
  timeStampLoop rest ts =
  match failurePattern_exec rest with
  | Some (cap, rest') => timeStampLoop rest' (Js.parseFloat cap)
  | None => ts
  end.
Proof.
  rewrite timeStampLoop_equation_1.
  destruct (inspect (failurePattern_exec rest)) as [[[cap rest']|] e];
    cbn; rewrite e; reflexivity.
Qed.

Lemma failurePattern_Some s cap rest :
  failurePattern s = Some (cap, rest) ->
  s = happeningPrefix +:+ cap +:+ ")" +:+ rest /\ TimeText cap.
Proof.
  unfold failurePattern. intros H.
  apply Js.re_lit_Some in H as (g & -> & H).
  apply Js.re_plus_Some in H as (d1 & r2 & Hg & Hd1 & HP1 & H & _).
  apply Js.re_class_Some in H as (c & r3 & -> & Hc & H).
  apply Js.re_plus_Some in H as (d2 & r4 & -> & Hd2 & HP2 & H & _).
  apply Js.re_lit_Some in H as (r5 & -> & [= <- <-]).
  assert (g = (d1 +:+ String c d2) +:+ ")" +:+ r5) as ->.
  { rewrite Hg, Js.append_assoc. by rewrite Js.append_cons. }
  rewrite Js.captured_append. split.
  - by rewrite !Js.append_assoc.
  - by exists d1, c, d2.
Qed.

Lemma failurePattern_complete T post :
  TimeText T -> is_Some (failurePattern (happeningPrefix +:+ T +:+ ")" +:+ post)).
Proof.
  intros (d1 & c & d2 & -> & Hd1 & HP1 & Hc & Hd2 & HP2).
  unfold failurePattern, Js.re_lit at 1. rewrite Js.strip_prefix_append.
  rewrite Js.append_assoc, Js.append_cons.
  apply Js.re_plus_complete; [done..|]. simpl. rewrite Hc.
  apply Js.re_plus_complete; [done..|].
  unfold Js.re_lit. rewrite Js.strip_prefix_append. by eexists.
Qed.

Lemma failurePattern_exec_Some s cap rest :
  failurePattern_exec s = Some (cap, rest) ->
  exists pre,
    s = pre +:+ happeningPrefix +:+ cap +:+ ")" +:+ rest /\ TimeText cap
    /\ forall pre' t', s = pre' +:+ t' ->
         (String.length pre' < String.length pre)%nat -> failurePattern t' = None.
Proof.
  intros H. apply Js.re_search_Some in H as (pre & t & -> & H & Hleft).
  apply failurePattern_Some in H as [-> HT]. by exists pre.
Qed.




Lemma not_Occurs_loop s ts : ~ Occurs s -> timeStampLoop s ts = ts.
Proof.
  intros Hno. rewrite timeStampLoop_unfold.
  destruct (failurePattern_exec s) as [[cap rest]|] eqn:E; [|done].
  apply failurePattern_exec_Some in E as (pre & -> & HT & _).
  destruct Hno. by exists pre, cap, rest.
Qed.









Lemma append_same_length a b a' b' :
  a +:+ b = a' +:+ b' -> String.length a = String.length a' -> a = a' /\ b = b'.
Proof.
  revert a'. induction a as [|x a IH]; intros [|y a'] H Hl; try done.
  rewrite !Js.append_cons in H. injection H as -> H. simpl in Hl.
  destruct (IH a' H) as [-> ->]; [lia|done].
Qed.


Lemma not_Occurs_search s : failurePattern_exec s = None -> ~ Occurs s.
Proof.
  intros H (pre & T & post & -> & HT).
  destruct (failurePattern_complete T post HT) as [x Hx].
  destruct (Js.re_search_complete failurePattern pre _ (mk_is_Some _ _ Hx)) as [? ?].
  unfold failurePattern_exec in H. congruence.
Qed.



(** The pattern as the source writes it: the unescaped [.] stands for any
    character, so a whole number of three digits or more is read as a
    timestamp, and one of fewer digits is no occurrence. *)
Example timestamp_of_three_digits :
  timeStampLoop "Checking next happening (time 100)" (Js.Fin (-1)) = Js.parseFloat "100".
Proof. reflexivity. Qed.

Example timestamp_of_one_digit :
  timeStampLoop "Checking next happening (time 5)" (Js.Fin (-1)) = Js.Fin (-1).
Proof. reflexivity. Qed.

Lemma isAny_all d : Js.forallb Js.isAny d = true.
Proof.
  induction d as [|c d IH]; [done|]. simpl. rewrite IH.
  unfold Js.isAny. by destruct (Js.isWhiteSpace c).
Qed.

Lemma repairAdvicePattern_Some s block :
  repairAdvicePattern s = Some block ->
  exists b, s = adviceStart +:+ block +:+ adviceEnd +:+ b /\ block <> ""
    /\ forall block' b', s = adviceStart +:+ block' +:+ adviceEnd +:+ b' ->
         (String.length block' <= String.length block)%nat.
Proof.
  unfold repairAdvicePattern. intros H.
  apply Js.re_lit_Some in H as (g & -> & H).
  apply Js.re_plus_Some in H as (d & r & -> & Hd & _ & H & Hmax).
  apply Js.re_lit_Some in H as (b & -> & [= <-]).
  rewrite Js.captured_append. exists b. repeat split; [done|].
  intros block' b' Heq%(inj _).
  destruct (le_lt_dec (String.length block') (String.length d)) as [|Hlt]; [done|].
  specialize (Hmax _ _ Heq (isAny_all _) Hlt).
  unfold Js.re_lit in Hmax. by rewrite Js.strip_prefix_append in Hmax.
Qed.

Lemma repairAdvicePattern_complete block b :
  block <> "" ->
  is_Some (repairAdvicePattern (adviceStart +:+ block +:+ adviceEnd +:+ b)).
Proof.
  intros Hb. unfold repairAdvicePattern, Js.re_lit at 1.
  rewrite Js.strip_prefix_append.
  apply Js.re_plus_complete; [done|apply isAny_all|].
  unfold Js.re_lit. rewrite Js.strip_prefix_append. by eexists.
Qed.

Lemma search_advice_Some output block :
  Js.re_search repairAdvicePattern output = Some block ->
  exists a b, AdviceBlock output a block b /\ Outermost output a block.
Proof.
  intros H. apply Js.re_search_Some in H as (a & t & -> & H & Hleft).
  apply repairAdvicePattern_Some in H as (b & -> & Hne & Hmax).
  exists a, b. split; [done|].
  intros a' block' b' [Heq Hne'].
  assert (String.length a <= String.length a')%nat as Hle.
  { destruct (le_lt_dec (String.length a) (String.length a')) as [|Hlt]; [done|].
    specialize (Hleft _ _ Heq Hlt).
    destruct (repairAdvicePattern_complete block' b' Hne') as [? ?].
    unfold adviceStart, adviceEnd in *. congruence. }
  split; [done|]. intros Hlen.
  apply append_same_length in Heq as [_ Heq]; [|done]. by eapply Hmax.
Qed.

Lemma search_advice_None output :
  Js.re_search repairAdvicePattern output = None ->
  forall a block b, ~ AdviceBlock output a block b.
Proof.
  intros H a block b [-> Hne].
  apply Js.re_search_None with (pre := a)
    (t := adviceStart +:+ block +:+ adviceEnd +:+ b) in H; [|done].
  destruct (repairAdvicePattern_complete block b Hne) as [? ?]. congruence.
Qed.


Lemma RepairHints_unique output hints :
  RepairHints output hints -> hints = repairHints output.
Proof.
  unfold repairHints. intros [a block b Hblock Hout|Hno].
  - destruct (Js.re_search _ output) as [block0|] eqn:E.
    + apply search_advice_Some in E as (a0 & b0 & Hblock0 & Hout0).
      destruct (Hout _ _ _ Hblock0) as [Hle Hmax].
      destruct (Hout0 _ _ _ Hblock) as [Hle0 Hmax0].
      assert (String.length a = String.length a0) as Hlen by lia.
      destruct Hblock as [-> _], Hblock0 as [Heq _].
      apply append_same_length in Heq as [_ Heq%(inj _)]; [|done].
      apply append_same_length in Heq as [-> _]; [done|].
      specialize (Hmax Hlen). specialize (Hmax0 (eq_sym Hlen)). lia.
    + by destruct (search_advice_None _ E _ _ _ Hblock).
  - destruct (Js.re_search _ output) as [block0|] eqn:E; [|done].
    apply search_advice_Some in E as (a0 & b0 & Hblock0 & _).
    by destruct (Hno _ _ _ Hblock0).
Qed.

Lemma ErrorLine_unique planInfo timeStamp line :
  ErrorLine (getSteps planInfo) timeStamp line -> line = errorLine planInfo timeStamp.
Proof.
  unfold errorLine, within. generalize (getSteps planInfo). intros steps.
  intros [before step after -> Hbefore Hstep|Hnone].
  - induction Hbefore as [|s before Hs _ IH]; simpl.
    + unfold within in Hstep. by rewrite Hstep.
    + unfold within in Hs. by destruct (equalsWithin _ _ _).
  - induction Hnone as [|s steps Hs _ IH]; [done|]. simpl.
    unfold within in Hs. by destruct (equalsWithin _ _ _).
Qed.

Lemma ErrorLine_errorLine planInfo timeStamp :
  ErrorLine (getSteps planInfo) timeStamp (errorLine planInfo timeStamp).
Proof.
  unfold errorLine. generalize (getSteps planInfo). intros steps.
  induction steps as [|s steps IH]; simpl.
  - by constructor.
  - destruct (equalsWithin (startTime s) timeStamp (1 # 10000)) eqn:E.
    + by apply (line_of_step _ _ [] s steps).
    + assert (~ within timeStamp s) as Hs by (unfold within; congruence).
      destruct IH as [before step' after -> Hb Hw|Hnone].
      * apply (line_of_step _ _ (s :: before) step' after);
          [done|by constructor|done].
      * apply line_zero. by constructor.
Qed.

Lemma analyzeOutput_failedAtTime planInfo output :
  Contains "Plan failed to execute" output \/ Contains "Goal not satisfied" output ->
  analyzeOutput planInfo None output =
  PlanValidationOutcome.failedAtTime planInfo
    (timeStampLoop output (Js.Fin (-1))) (repairHints output).
Proof.
  intros H. unfold analyzeOutput, repairHints.
  assert (Js.matches "Plan failed to execute" output
          || Js.matches "Goal not satisfied" output = true) as ->.
  { apply orb_true_iff. by rewrite !matches_Contains. }
  by destruct (Js.re_search _ output).
Qed.



Lemma not_Contains_compute p s : Js.matches p s = false -> ~ Contains p s.
Proof. apply matches_not_Contains. Qed.

(** C5, as the claim states it, for every validator output whatever the
    process error: refuted by an output "Plan valid" that comes with a
    process error, which [analyzeOutput] reports as a failure. *)
Lemma analyzeOutput_valid_despite_error :
  ~ (forall planInfo error output,
       Contains "Plan valid" output ->
       ~ Contains "Plan failed to execute" output ->
       ~ Contains "Goal not satisfied" output ->
       ~ Contains "Bad plan description!" output ->
       diagnostics (analyzeOutput planInfo error output) = []
       /\ PlanValidationOutcome.getError (analyzeOutput planInfo error output) = None).
Proof.
  intros H.
  destruct (H samplePlan (Some sampleError) "Plan valid") as [Hd _];
    [by apply matches_Contains | by apply not_Contains_compute..|].
  discriminate Hd.
Qed.

(** C5, amended.  When no process error occurred and the output contains
    "Plan valid" and none of "Plan failed to execute", "Goal not satisfied"
    and "Bad plan description!", the outcome has no diagnostics and no error
    string. *)
Theorem analyzeOutput_valid planInfo output :
  Contains "Plan valid" output ->
  ~ Contains "Plan failed to execute" output ->
  ~ Contains "Goal not satisfied" output ->
  ~ Contains "Bad plan description!" output ->
  diagnostics (analyzeOutput planInfo None output) = []
  /\ PlanValidationOutcome.getError (analyzeOutput planInfo None output) = None.
Proof.
  intros Hv%matches_Contains Hf%matches_not_Contains Hg%matches_not_Contains
    Hb%matches_not_Contains.
  unfold analyzeOutput. by rewrite Hf, Hg, Hb, Hv.
Qed.

Lemma analyzeOutput_valid_witness :
  Contains "Plan valid" "Plan valid"
  /\ diagnostics (analyzeOutput samplePlan None "Plan valid") = []
  /\ PlanValidationOutcome.getError (analyzeOutput samplePlan None "Plan valid") = None.
Proof.
  split; [by apply matches_Contains|].
  apply (analyzeOutput_valid samplePlan "Plan valid");
    [by apply matches_Contains | by apply not_Contains_compute..].
Defined.

(** C6.  When no process error occurred and the output contains
    "Bad plan description!" and neither "Plan failed to execute" nor
    "Goal not satisfied", the outcome has exactly one diagnostic: an Error on
    line 0 that says the plan description is invalid. *)
Theorem analyzeOutput_invalidPlanDescription planInfo output :
  Contains "Bad plan description!" output ->
  ~ Contains "Plan failed to execute" output ->
  ~ Contains "Goal not satisfied" output ->
  diagnostics (analyzeOutput planInfo None output)
  = [mkDiagnostic (createRangeFromLine 0) "Invalid plan description."
       DiagnosticSeverity.Error].
Proof.
  intros Hb%matches_Contains Hf%matches_not_Contains Hg%matches_not_Contains.
  unfold analyzeOutput. by rewrite Hf, Hg, Hb.
Qed.

Lemma analyzeOutput_invalidPlanDescription_witness :
  Contains "Bad plan description!" "Bad plan description!"
  /\ diagnostics (analyzeOutput samplePlan None "Bad plan description!")
     = [mkDiagnostic (mkRange 0 0 0 100) "Invalid plan description."
          DiagnosticSeverity.Error].
Proof.
  split; [by apply matches_Contains|].
  apply (analyzeOutput_invalidPlanDescription samplePlan "Bad plan description!");
    [by apply matches_Contains | by apply not_Contains_compute..].
Defined.

Lemma differsAtLeast_not_within step :
  differsAtLeast (1 # 10000) (-1) step -> ~ within (Js.Fin (-1)) step.
Proof.
  unfold differsAtLeast, within, equalsWithin, Js.Qltb.
  destruct (startTime step) as [| |x]; [done..|].
  intros Hle. apply Qle_bool_iff in Hle. by rewrite Hle.
Qed.

(** C9.  When the output contains "Plan failed to execute" or "Goal not
    satisfied" and no occurrence of "Checking next happening (time T)", the
    timestamp stays -1; for a plan whose steps all start at least 1e-4 away
    from -1, every Warning diagnostic of the outcome is on line 0 (and, no
    process error having occurred, every diagnostic is such a Warning). *)
Theorem analyzeOutput_no_happening planInfo error output :
  Contains "Plan failed to execute" output \/ Contains "Goal not satisfied" output ->
  ~ Occurs output ->
  Forall (differsAtLeast (1 # 10000) (-1)) (getSteps planInfo) ->
  let outcome := analyzeOutput planInfo error output in
  Forall (fun d => severity d = DiagnosticSeverity.Warning ->
                   range d = createRangeFromLine 0) (diagnostics outcome)
  /\ (error = None ->
      timeStampLoop output (Js.Fin (-1)) = Js.Fin (-1)
      /\ (exists hints, outcome
            = PlanValidationOutcome.failedAtTime planInfo (Js.Fin (-1)) hints)
      /\ Forall (fun d => severity d = DiagnosticSeverity.Warning
                          /\ range d = createRangeFromLine 0) (diagnostics outcome)).
Proof.
  intros Hfail Hno Hsteps outcome.
  assert (errorLine planInfo (Js.Fin (-1)) = 0%nat) as Hline.
  { symmetry. apply ErrorLine_unique, line_zero.
    eapply Forall_impl; [done|]. apply differsAtLeast_not_within. }
  assert (Forall (fun d => severity d = DiagnosticSeverity.Warning
                           /\ range d = createRangeFromLine 0)
            (diagnostics (analyzeOutput planInfo None output))
          /\ analyzeOutput planInfo None output
             = PlanValidationOutcome.failedAtTime planInfo (Js.Fin (-1))
                 (repairHints output)) as [Hall Hout].
  { rewrite (analyzeOutput_failedAtTime _ _ Hfail), (not_Occurs_loop _ _ Hno).
    split; [|done]. unfold PlanValidationOutcome.failedAtTime. cbn [diagnostics].
    fold (errorLine planInfo (Js.Fin (-1))). rewrite Hline.
    apply Forall_map, Forall_forall. by intros. }
  subst outcome. destruct error as [e|].
  - split; [|done]. by repeat constructor.
  - split.
    + eapply Forall_impl; [done|]. by intros d [_ ?].
    + intros _. split; [by apply not_Occurs_loop|]. split; [by eexists|done].
Qed.

Lemma analyzeOutput_no_happening_witness :
  Contains "Plan failed to execute" sampleNoHappening
  /\ ~ Occurs sampleNoHappening
  /\ Forall (differsAtLeast (1 # 10000) (-1)) (getSteps samplePlan)
  /\ Forall (fun d => severity d = DiagnosticSeverity.Warning
                      /\ range d = createRangeFromLine 0)
       (diagnostics (analyzeOutput samplePlan None sampleNoHappening)).
Proof.
  assert (Contains "Plan failed to execute" sampleNoHappening) as H1.
  { apply matches_Contains. reflexivity. }
  assert (~ Occurs sampleNoHappening) as H2.
  { apply not_Occurs_search. vm_compute. reflexivity. }
  assert (Forall (differsAtLeast (1 # 10000) (-1)) (getSteps samplePlan)) as H3.
  { repeat constructor; unfold differsAtLeast; cbn; apply Qle_bool_iff; reflexivity. }
  repeat split; try assumption.
  apply (analyzeOutput_no_happening samplePlan None sampleNoHappening
           (or_introl H1) H2 H3).
  reflexivity.
Defined.

End PlanValidatorFacts.

(** ** Facts about the scheduler *)

Section DiagnosticsFacts.
Import Diagnostics.
Context (ext : Collaborators).








End DiagnosticsFacts.



(** ** Facts about the type-object index *)

Section TypeObjectMapFacts.
Import TypeObjectMap.

Lemma addObject_elem o o' e : o ∈ getObjects e -> o ∈ getObjects (addObject o' e).
Proof.
  intros H. unfold addObject. case_bool_decide; [done|]. cbn.
  apply elem_of_app. by left.
Qed.

Lemma add_added t o m : added t o (add t o m).
Proof.
  unfold added, add, getTypeCaseInsensitive. cbn. eexists. split.
  - apply lookup_insert_eq.
  - split.
    + unfold addObject. case_bool_decide; [done|]. cbn.
      apply elem_of_app. right. by apply list_elem_of_singleton.
    + destruct (owners m !! o) eqn:E; [by rewrite E|]. by rewrite lookup_insert_eq.
Qed.

Lemma add_keeps_added t o o' m : added t o m -> added t o (add t o' m).
Proof.
  intros (e & He & Ho & Hown). unfold added, add, getTypeCaseInsensitive in *. cbn.
  rewrite He. cbn. eexists. split; [apply lookup_insert_eq|].
  split; [by apply addObject_elem|].
  destruct (owners m !! o') eqn:E; [done|].
  destruct (decide (o' = o)) as [->|Hne].
  - by rewrite lookup_insert_eq.
  - by rewrite lookup_insert_ne.
Qed.

(** Adding what was added changes nothing. *)
Lemma add_noop t o m : added t o m -> add t o m = m.
Proof.
  intros (e & He & Ho & [x Hx]). unfold add, getTypeCaseInsensitive in *.
  rewrite He, Hx. cbn. unfold addObject. rewrite bool_decide_eq_true_2 by done.
  rewrite insert_id by done. by destruct m.
Qed.

Lemma addAll_cons t o os m : addAll t (o :: os) m = addAll t os (add t o m).
Proof. reflexivity. Qed.

Lemma addAll_keeps_added t o os m : added t o m -> added t o (addAll t os m).
Proof.
  revert m. induction os as [|o' os IH]; intros m H; [done|].
  rewrite addAll_cons. by apply IH, add_keeps_added.
Qed.

Lemma addAll_added t o os m : o ∈ os -> added t o (addAll t os m).
Proof.
  revert m. induction os as [|o' os IH]; intros m H; [by apply elem_of_nil in H|].
  rewrite addAll_cons. apply elem_of_cons in H as [->|H].
  - apply addAll_keeps_added, add_added.
  - by apply IH.
Qed.

Lemma addAll_noop t os m : Forall (fun o => added t o m) os -> addAll t os m = m.
Proof.
  induction 1 as [|o os Ho _ IH]; [done|].
  rewrite addAll_cons, (add_noop _ _ _ Ho). done.
Qed.

Lemma objectsOf_add t x m :
  objectsOf t (add t x m)
  = if bool_decide (x ∈ objectsOf t m) then objectsOf t m else objectsOf t m ++ [x].
Proof.
  unfold objectsOf, add, getTypeCaseInsensitive. cbn. rewrite lookup_insert_eq. cbn.
  destruct (types m !! Js.toLowerCase t) as [e|]; cbn; unfold addObject; cbn;
    by destruct (bool_decide _).
Qed.

(** [addAll] appends to the object list of the type, and nothing that the
    list holds already. *)
Lemma objectsOf_addAll t os m :
  exists rest,
    objectsOf t (addAll t os m) = objectsOf t m ++ rest
    /\ forall x, x ∈ objectsOf t m -> x ∉ rest.
Proof.
  revert m. induction os as [|o os IH]; intros m.
  - exists []. split; [by rewrite app_nil_r|]. intros x _. apply not_elem_of_nil.
  - rewrite addAll_cons. destruct (IH (add t o m)) as (rest & -> & Hrest).
    rewrite objectsOf_add in *. case_bool_decide as Ho.
    + by exists rest.
    + exists (o :: rest). split; [by rewrite <- app_assoc|].
      intros x Hx. apply not_elem_of_cons. split; [by intros ->|].
      apply Hrest, elem_of_app. by left.
Qed.

Lemma length_add_added t x o m :
  added t o m -> TypeObjectMap.length (add t x m) = TypeObjectMap.length m.
Proof.
  intros (e & He & _). unfold TypeObjectMap.length, add, getTypeCaseInsensitive in *.
  cbn. by eapply map_size_insert_Some.
Qed.

Lemma length_addAll_added t os o m :
  added t o m -> TypeObjectMap.length (addAll t os m) = TypeObjectMap.length m.
Proof.
  revert m. induction os as [|x os IH]; intros m H; [done|].
  rewrite addAll_cons, IH by by apply add_keeps_added. by eapply length_add_added.
Qed.

Lemma added_objectsOf t o m : added t o m -> o ∈ objectsOf t m.
Proof. intros (e & He & Ho & _). unfold objectsOf. by rewrite He. Qed.

(** C7.  Adding a (type, object) pair a second time leaves the index as the
    first [add] left it: the same length and the same object list of the type.
    So does [addAll] of a list whose objects were all added before, such as
    the list of the object alone, or the list [addAll] itself has just added.
    [addAll] of any list leaves the length as it was and does not list the
    object a second time: it appends other objects only. *)
Theorem add_idempotent typeName objectName objects m :
  let m1 := add typeName objectName m in
  let m2 := addAll typeName objects m in
  (add typeName objectName m1 = m1
   /\ TypeObjectMap.length (add typeName objectName m1) = TypeObjectMap.length m1
   /\ getTypeCaseInsensitive typeName (add typeName objectName m1)
      = getTypeCaseInsensitive typeName m1)
  /\ (addAll typeName [objectName] m1 = m1
      /\ (Forall (fun o => added typeName o m1) objects ->
          addAll typeName objects m1 = m1
          /\ TypeObjectMap.length (addAll typeName objects m1) = TypeObjectMap.length m1
          /\ getTypeCaseInsensitive typeName (addAll typeName objects m1)
             = getTypeCaseInsensitive typeName m1))
  /\ (TypeObjectMap.length (addAll typeName objects m1) = TypeObjectMap.length m1
      /\ exists rest,
           objectsOf typeName (addAll typeName objects m1)
           = objectsOf typeName m1 ++ rest
           /\ objectName ∉ rest)
  /\ (addAll typeName objects m2 = m2
      /\ TypeObjectMap.length (addAll typeName objects m2) = TypeObjectMap.length m2
      /\ getTypeCaseInsensitive typeName (addAll typeName objects m2)
         = getTypeCaseInsensitive typeName m2).
Proof.
  intros m1 m2.
  assert (added typeName objectName m1) as Ha by apply add_added.
  assert (add typeName objectName m1 = m1) as E1 by by apply add_noop.
  assert (addAll typeName objects m2 = m2) as E2.
  { apply addAll_noop, Forall_forall. intros o Ho. by apply addAll_added. }
  split; [by rewrite E1|]. split; [split|split].
  - change (addAll typeName [objectName] m1) with (add typeName objectName m1).
    by rewrite E1.
  - intros Hall. by rewrite (addAll_noop _ _ _ Hall).
  - split; [by eapply length_addAll_added|].
    destruct (objectsOf_addAll typeName objects m1) as (rest & Hrest & Hnot).
    exists rest. split; [done|]. by apply Hnot, added_objectsOf.
  - by rewrite E2.
Qed.

Lemma add_idempotent_witness :
  Forall (fun o => added "type1" o (add "type1" "object1" TypeObjectMap.empty))
         ["object1"]
  /\ addAll "type1" ["object1"] (add "type1" "object1" TypeObjectMap.empty)
     = add "type1" "object1" TypeObjectMap.empty.
Proof.
  assert (Forall (fun o => added "type1" o (add "type1" "object1" TypeObjectMap.empty))
            ["object1"]) as H.
  { repeat constructor. apply add_added. }
  split; [exact H|].
  exact (proj1 (proj2 (proj1 (proj2
    (add_idempotent "type1" "object1" ["object1"] TypeObjectMap.empty))) H)).
Defined.

(** The unit test "should add one type and object", twice on purpose. *)
Example add_twice :
  let m := add "type1" "object1" (add "type1" "object1" TypeObjectMap.empty) in
  TypeObjectMap.length m = 1%nat
  /\ type <$> getTypeOf "object1" m = Some "type1"
  /\ getObjects <$> getTypeCaseInsensitive "type1" m = Some ["object1"].
Proof. by vm_compute. Qed.

End TypeObjectMapFacts.

(** *** The monad laws the proofs step with *)

Lemma exec_bind {A B} (m : M A) (k : A -> M B) st :
  exec (bind m k) st = exec (k (eval m st)) (exec m st).
Proof. unfold exec, eval, bind. by destruct (m st). Qed.

Lemma eval_bind {A B} (m : M A) (k : A -> M B) st :
  eval (bind m k) st = eval (k (eval m st)) (exec m st).
Proof. unfold exec, eval, bind. by destruct (m st). Qed.

Lemma exec_gets {A} (f : State -> A) st : exec (gets f) st = st.
Proof. reflexivity. Qed.

Lemma eval_gets {A} (f : State -> A) st : eval (gets f) st = f st.
Proof. reflexivity. Qed.

Lemma exec_ret {A} (a : A) st : exec (ret a) st = st.
Proof. reflexivity. Qed.

Lemma exec_modify f st : exec (modify f) st = f st.
Proof. reflexivity. Qed.

Lemma exec_forEach_cons {A} (x : A) l body st :
  exec (forEach (x :: l) body) st = exec (forEach l body) (exec (body x) st).
Proof. cbn [forEach]. by rewrite exec_bind. Qed.

(** ** Invariants of the validation methods

    A property of the state that the primitive updates keep is kept by the
    validation methods.  The property may restrict, by [okU], the files whose
    status is set, and by [okE] the events that are logged. *)

Section Invariant.
Import Diagnostics.
Context (ext : Collaborators).
Context (I : State -> Prop) (okU : string -> Prop) (okE : Event -> Prop).
Hypothesis I_status :
  forall st u s, okU u -> I st -> I (exec (PddlWorkspace.setStatus u s) st).
Hypothesis I_diagnostics : forall st f, I st -> I (set_diagnosticCollection f st).
Hypothesis I_validator : forall st v, I st -> I (set_validator v st).
Hypothesis I_emit : forall st e, okE e -> I st -> I (exec (emit e) st).
Hypothesis I_schedule : forall st, I st -> I (exec scheduleValidation st).
Hypothesis okE_external : forall e, external e = true -> okE e.
Hypothesis okU_store :
  forall st f, I st -> f ∈ files st -> isPlan f = false -> okU (fileUri f).

Definition keeps {A} (m : M A) : Prop := forall st, I st -> I (exec m st).

Lemma keeps_ret {A} (a : A) : keeps (ret a).
Proof. by intros st. Qed.

Lemma keeps_gets {A} (f : State -> A) : keeps (gets f).
Proof. by intros st. Qed.

Lemma keeps_bind {A B} (m : M A) (k : A -> M B) :
  keeps m -> (forall a, keeps (k a)) -> keeps (bind m k).
Proof. intros Hm Hk st H. rewrite exec_bind. by apply Hk, Hm. Qed.

Lemma keeps_when b m : keeps m -> keeps (when b m).
Proof. destruct b; [done|]. intros _. apply keeps_ret. Qed.

Lemma keeps_emit e : external e = true -> keeps (emit e).
Proof. intros He st. by apply I_emit, okE_external. Qed.

Lemma keeps_forEach {A} (l : list A) body :
  Forall (fun x => keeps (body x)) l -> keeps (forEach l body).
Proof.
  induction 1 as [|x l Hx _ IH]; [apply keeps_ret|].
  cbn [forEach]. apply keeps_bind; [done|]. by intros _.
Qed.

Lemma keeps_sendDiagnostics d : keeps (sendDiagnostics d).
Proof. intros st. apply I_diagnostics. Qed.

Lemma keeps_sendDiagnostic u m s : keeps (sendDiagnostic ext u m s).
Proof. intros st. apply I_diagnostics. Qed.

Lemma keeps_clearDiagnostics u : keeps (clearDiagnostics u).
Proof. intros st. apply I_diagnostics. Qed.

Lemma keeps_setStatus u s : okU u -> keeps (PddlWorkspace.setStatus u s).
Proof. intros Hu st. by apply I_status. Qed.

Lemma keeps_appendLine b line : keeps (PlanValidator.appendLine b line).
Proof. apply keeps_when. by apply keeps_emit. Qed.

Lemma keeps_testConfiguration : keeps (PlanValidator.testConfiguration ext).
Proof.
  unfold PlanValidator.testConfiguration. apply keeps_bind; [apply keeps_gets|].
  intros p. destruct (_ =? _)%nat; [|apply keeps_ret].
  apply keeps_bind; [by apply keeps_emit|]. intros _. apply keeps_ret.
Qed.

Lemma keeps_set_validator v : keeps (modify (set_validator v)).
Proof. intros st. apply I_validator. Qed.

Lemma keeps_createValidator : keeps createValidator.
Proof.
  unfold createValidator. apply keeps_bind; [apply keeps_gets|]. intros v.
  apply keeps_bind; [apply keeps_gets|]. intros settings.
  destruct v as [v|].
  - match goal with |- keeps (if ?b then _ else _) => destruct b end;
      [|apply keeps_ret].
    apply keeps_bind; [apply keeps_set_validator|]. intros _. apply keeps_ret.
  - apply keeps_bind; [apply keeps_set_validator|]. intros _. apply keeps_ret.
Qed.

Lemma keeps_onSuccess flag d : keeps (onSuccess flag d).
Proof.
  unfold onSuccess. apply keeps_bind; [apply keeps_sendDiagnostics|].
  intros _. apply keeps_when. intros st. apply I_schedule.
Qed.

Lemma keeps_onValidatePlanError err : keeps (onValidatePlanError err).
Proof.
  unfold onValidatePlanError. apply keeps_bind; [by apply keeps_emit|].
  intros _. by apply keeps_emit.
Qed.

Lemma keeps_onValidateError err : keeps (onValidateError err).
Proof.
  unfold onValidateError. apply keeps_bind; [by apply keeps_emit|].
  intros _. apply keeps_bind; [by apply keeps_emit|]. intros _. by apply keeps_emit.
Qed.

Lemma keeps_getDomainFileFor problemFile :
  okU (fileUri problemFile) -> keeps (getDomainFileFor ext problemFile).
Proof.
  intros Hu. unfold getDomainFileFor. apply keeps_bind; [by intros st|].
  intros ds. destruct (1 <? length ds)%nat; [|destruct (length ds =? 0)%nat].
  - apply keeps_bind; [apply keeps_sendDiagnostic|]. intros _.
    apply keeps_bind; [by apply keeps_setStatus|]. intros _. apply keeps_ret.
  - apply keeps_bind; [apply keeps_sendDiagnostic|]. intros _.
    apply keeps_bind; [by apply keeps_setStatus|]. intros _. apply keeps_ret.
  - apply keeps_ret.
Qed.

Lemma keeps_validateDomainAndProblems domainInfo problemFiles flag :
  okU (fileUri domainInfo) -> Forall (fun p => okU (fileUri p)) problemFiles ->
  keeps (validateDomainAndProblems domainInfo problemFiles flag).
Proof.
  intros Hd Hp. unfold validateDomainAndProblems.
  apply keeps_bind; [apply keeps_gets|]. intros settings.
  destruct (executableOrService settings) as [[|c s]|]; [by apply keeps_emit| |by apply keeps_emit].
  apply keeps_bind; [by apply keeps_setStatus|]. intros _.
  apply keeps_bind.
  { apply keeps_forEach. eapply Forall_impl; [done|]. intros p ?. by apply keeps_setStatus. }
  intros _. apply keeps_bind; [apply keeps_createValidator|]. intros v.
  by apply keeps_emit.
Qed.

Lemma keeps_bind_read {A B} (m : M A) (k : A -> M B) :
  (forall st, exec m st = st) ->
  (forall st, I st -> I (exec (k (eval m st)) st)) ->
  keeps (bind m k).
Proof. intros Hm Hk st H. rewrite exec_bind, Hm. by apply Hk. Qed.

Lemma getProblemFiles_elem domainInfo st p :
  p ∈ eval (PddlWorkspace.getProblemFiles ext domainInfo) st ->
  p ∈ files st /\ isProblem p = true.
Proof.
  unfold PddlWorkspace.getProblemFiles, PddlWorkspace.getFolderOf, eval, bind, gets, ret.
  cbn. rewrite !list_elem_of_In, !filter_In, andb_true_iff. tauto.
Qed.

Lemma getDomainFilesFor_elem problemFile st d :
  d ∈ eval (PddlWorkspace.getDomainFilesFor ext problemFile) st ->
  d ∈ files st /\ isDomain d = true.
Proof.
  unfold PddlWorkspace.getDomainFilesFor, PddlWorkspace.getFolderOf, eval, bind, gets, ret.
  cbn. rewrite !list_elem_of_In, !filter_In, andb_true_iff. tauto.
Qed.

(** When [getDomainFileFor] finds the domain it changes nothing. *)
Lemma getDomainFileFor_Some problemFile st d :
  eval (getDomainFileFor ext problemFile) st = Some d ->
  exec (getDomainFileFor ext problemFile) st = st
  /\ d ∈ files st /\ isDomain d = true.
Proof.
  unfold getDomainFileFor. rewrite exec_bind, eval_bind.
  change (exec (PddlWorkspace.getDomainFilesFor ext problemFile) st) with st.
  pose proof (getDomainFilesFor_elem problemFile st) as Helem.
  destruct (eval (PddlWorkspace.getDomainFilesFor ext problemFile) st) as [|d0 ds];
    [done|].
  destruct ds as [|d1 ds]; [|done]. cbn. intros [= <-]. split; [done|].
  apply Helem. by left.
Qed.

Lemma isDomain_not_plan f : isDomain f = true -> isPlan f = false.
Proof. unfold isDomain, isPlan. by destruct (kind f). Qed.

Lemma isProblem_not_plan f : isProblem f = true -> isPlan f = false.
Proof. unfold isProblem, isPlan. by destruct (kind f). Qed.

Lemma keeps_validatePddlDocument fileInfo flag :
  okU (fileUri fileInfo) -> keeps (validatePddlDocument ext fileInfo flag).
Proof.
  intros Hu. unfold validatePddlDocument.
  destruct (isDomain fileInfo); [|destruct (isProblem fileInfo); [|apply keeps_ret]].
  - apply keeps_bind_read; [done|]. intros st HI.
    apply keeps_validateDomainAndProblems; [done| |done].
    apply Forall_forall. intros p [Hp1 Hp2]%getProblemFiles_elem.
    eapply okU_store; [done..|]. by apply isProblem_not_plan.
  - intros st HI. rewrite exec_bind.
    destruct (eval (getDomainFileFor ext fileInfo) st) as [d|] eqn:E.
    + apply getDomainFileFor_Some in E as (-> & Hd1 & Hd2).
      apply keeps_validateDomainAndProblems; [|by constructor|done].
      eapply okU_store; [done..|]. by apply isDomain_not_plan.
    + by apply keeps_getDomainFileFor.
Qed.

Lemma keeps_validatePlanAndReportDiagnostics planInfo showOutput onS onE :
  (forall d, keeps (onS d)) -> (forall e, keeps (onE e)) ->
  keeps (PlanValidator.validatePlanAndReportDiagnostics ext planInfo showOutput onS onE).
Proof.
  intros HS HE. unfold PlanValidator.validatePlanAndReportDiagnostics.
  apply keeps_bind; [apply keeps_gets|]. intros epsilon.
  apply keeps_bind; [apply keeps_gets|]. intros validatePath.
  apply keeps_bind; [by intros st|]. intros folder.
  destruct (PlanValidator.findProblemFile planInfo folder) as [problemFileInfo|].
  2:{ apply keeps_bind; [apply HS|]. intros _. apply keeps_ret. }
  apply keeps_bind; [by intros st|]. intros [domainFileInfo|].
  2:{ apply keeps_bind; [apply HS|]. intros _. apply keeps_ret. }
  apply keeps_bind; [by apply keeps_emit|]. intros _.
  apply keeps_bind; [apply keeps_appendLine|]. intros _.
  apply keeps_bind; [apply keeps_appendLine|]. intros _.
  apply keeps_bind.
  { destruct (stderr _); [|apply keeps_ret].
    apply keeps_bind; [apply keeps_when; by apply keeps_emit|]. intros _.
    apply keeps_appendLine. }
  intros _. apply keeps_bind.
  { destruct (spawnError _); [|apply HS].
    apply keeps_bind; [apply keeps_appendLine|]. intros _. apply HE. }
  intros _. apply keeps_bind; [apply keeps_appendLine|]. intros _.
  apply keeps_bind; [apply keeps_when; by apply keeps_emit|]. intros _.
  apply keeps_ret.
Qed.

Lemma keeps_validatePlan planInfo flag :
  okU (fileUri planInfo) -> keeps (validatePlan ext planInfo flag).
Proof.
  intros Hu. unfold validatePlan.
  apply keeps_bind; [apply keeps_testConfiguration|]. intros [|]; [|apply keeps_ret].
  cbn [negb]. apply keeps_bind; [by apply keeps_setStatus|]. intros _.
  apply keeps_bind; [|intros _; apply keeps_ret].
  apply keeps_validatePlanAndReportDiagnostics.
  - apply keeps_onSuccess.
  - apply keeps_onValidatePlanError.
Qed.

Lemma keeps_validateUnknownFile fileInfo :
  okU (fileUri fileInfo) -> keeps (validateUnknownFile ext fileInfo).
Proof.
  intros Hu. unfold validateUnknownFile.
  apply keeps_bind; [by apply keeps_setStatus|]. intros _.
  apply keeps_bind; [|intros _; by apply keeps_setStatus].
  destruct (_ <? _)%nat; [apply keeps_sendDiagnostic|apply keeps_clearDiagnostics].
Qed.

Lemma keeps_call c m : okE (Called c) -> keeps m -> keeps (call c m).
Proof.
  intros Hc Hm. unfold call. apply keeps_bind; [|by intros _].
  intros st. by apply I_emit.
Qed.

Lemma keeps_validateAllDirty :
  (forall c, okE (Called c)) -> (forall u, okU u) -> keeps (validateAllDirty ext).
Proof.
  intros Hc Hu. unfold validateAllDirty.
  apply keeps_bind; [by intros st|]. intros dirtyUnknowns.
  apply keeps_bind.
  { apply keeps_forEach, Forall_forall. intros f _.
    apply keeps_call; [done|]. by apply keeps_validateUnknownFile. }
  intros _. apply keeps_bind; [by intros st|]. intros [|d ds].
  - apply keeps_bind; [by intros st|]. intros dirtyProblems.
    apply keeps_bind.
    { destruct dirtyProblems; [apply keeps_ret|].
      apply keeps_call; [done|]. by apply keeps_validatePddlDocument. }
    intros _. apply keeps_bind; [by intros st|]. intros [|p ps]; [apply keeps_ret|].
    apply keeps_call; [done|]. by apply keeps_validatePlan.
  - apply keeps_call; [done|]. by apply keeps_validatePddlDocument.
Qed.

End Invariant.

(** ** Facts about the debounce *)

Section DebounceFacts.
Import Diagnostics EventLoop.
Context (ext : Collaborators).

Lemma singleSlot_cases st :
  singleSlot st ->
  timers st = [] \/ exists h due, timers st = [(h, due)] /\ timeout st = Some h.
Proof.
  unfold singleSlot. destruct (timers st) as [|[h due] [|t l]]; [by left| |done].
  intros H. right. by exists h, due.
Qed.

(** Cancelling leaves no timer pending. *)
Lemma cancel_timers st :
  singleSlot st -> timers (exec cancelScheduledValidation st) = [].
Proof.
  intros [E|(h & due & E & Ht)]%singleSlot_cases;
    unfold cancelScheduledValidation; rewrite exec_bind, eval_gets, exec_gets.
  - destruct (timeout st); cbn; by rewrite E.
  - rewrite Ht. cbn. rewrite E. rewrite filter_cons_False; [done|].
    cbn. intros H. by apply H.
Qed.

Lemma cancel_frame st :
  let st' := exec cancelScheduledValidation st in
  timeout st' = timeout st /\ clock st' = clock st /\ nextTimer st' = nextTimer st
  /\ log st' = log st /\ files st' = files st
  /\ pddlParserSettings st' = pddlParserSettings st
  /\ pddlConfiguration st' = pddlConfiguration st.
Proof.
  cbv zeta. unfold cancelScheduledValidation.
  rewrite exec_bind, eval_gets, exec_gets.
  destruct (timeout st) eqn:E; cbn; repeat split; done.
Qed.

Lemma scheduleValidation_frame st :
  let st' := exec scheduleValidation st in
  clock st' = clock st /\ log st' = log st /\ files st' = files st
  /\ pddlParserSettings st' = pddlParserSettings st
  /\ diagnosticCollection st' = diagnosticCollection st.
Proof.
  cbv zeta. unfold scheduleValidation, cancelScheduledValidation.
  rewrite !exec_bind, !eval_gets, !exec_gets.
  destruct (timeout st) eqn:E; cbn; repeat split; done.
Qed.

(** [scheduleValidation] cancels the pending timer and starts one, due after
    the configured delay. *)
Lemma scheduleValidation_effect st :
  singleSlot st ->
  let st' := exec scheduleValidation st in
  timers st' = [(nextTimer st, (clock st + delayMs st)%nat)]
  /\ timeout st' = Some (nextTimer st) /\ nextTimer st' = S (nextTimer st)
  /\ clock st' = clock st /\ log st' = log st /\ files st' = files st
  /\ pddlParserSettings st' = pddlParserSettings st.
Proof.
  intros Hs. pose proof (cancel_timers st Hs) as Ht.
  destruct (cancel_frame st) as (_ & Hc & Hn & Hl & Hf & Hp & _).
  cbv zeta. unfold scheduleValidation. rewrite exec_bind.
  set (st1 := exec cancelScheduledValidation st) in *.
  rewrite exec_bind, eval_gets, exec_gets.
  unfold setTimeout, exec, bind, modify, delayMs. cbn.
  by rewrite Ht, Hc, Hn, Hl, Hf, Hp.
Qed.

Lemma scheduleValidation_singleSlot st :
  singleSlot st -> singleSlot (exec scheduleValidation st).
Proof.
  intros Hs. destruct (scheduleValidation_effect st Hs) as (Ht & Ho & _).
  unfold singleSlot. by rewrite Ht, Ho.
Qed.

Lemma keeps_singleSlot_validateAllDirty st :
  singleSlot st -> singleSlot (exec (validateAllDirty ext) st).
Proof.
  apply (keeps_validateAllDirty ext singleSlot (fun _ => True) (fun _ => True));
    try done.
  intros. by apply scheduleValidation_singleSlot.
Qed.












End DebounceFacts.

(** ** Facts about the validation pass *)

Section PassFacts.
Import Diagnostics.
Context (ext : Collaborators).

Lemma touched_refl K fs : touched K fs fs.
Proof. apply Forall2_same_length_lookup_2; [done|]. intros i f0 f ??. left. congruence. Qed.

Lemma touched_uris K fs0 fs : touched K fs0 fs -> map fileUri fs = map fileUri fs0.
Proof.
  induction 1 as [|f0 f fs0 fs Hf _ IH]; [done|]. cbn. rewrite IH.
  by destruct Hf as [->|(_ & s & ->)].
Qed.

Lemma touched_filter K p fs0 fs :
  touched K fs0 fs ->
  (forall f s, K (kind f) = true -> p f = false /\ p (withStatus s f) = false) ->
  List.filter p fs = List.filter p fs0.
Proof.
  intros H Hp. induction H as [|f0 f fs0 fs Hf _ IH]; [done|]. cbn. rewrite IH.
  destruct Hf as [->|(HK & s & ->)]; [done|].
  destruct (Hp f0 s HK) as [-> ->]. done.
Qed.

Lemma NoDup_uri fs f g :
  NoDup (map fileUri fs) -> f ∈ fs -> g ∈ fs -> fileUri f = fileUri g -> f = g.
Proof.
  induction fs as [|x fs IH]; [by intros _ ?%elem_of_nil|].
  cbn. intros [Hx Hnd]%NoDup_cons [->|Hf]%elem_of_cons [->|Hg]%elem_of_cons Hu;
    [done| | |by apply IH].
  - destruct Hx. rewrite Hu. by apply list_elem_of_fmap_2.
  - destruct Hx. rewrite <- Hu. by apply list_elem_of_fmap_2.
Qed.

Lemma touched_setStatus K fs0 fs u s f0 :
  NoDup (map fileUri fs0) -> f0 ∈ fs0 -> fileUri f0 = u -> K (kind f0) = true ->
  touched K fs0 fs ->
  touched K fs0 (map (fun f => if decide (fileUri f = u) then withStatus s f else f) fs).
Proof.
  intros Hnd Hf0 Hu HK H.
  assert (forall x, x ∈ fs0 -> fileUri x = u -> K (kind x) = true) as Hall.
  { intros x Hx Hxu. assert (x = f0) as -> by (eapply NoDup_uri; eauto; congruence).
    done. }
  clear Hf0 HK Hnd Hu. induction H as [|x0 x fs0 fs Hx _ IH]; [constructor|].
  cbn. constructor.
  - case_decide as Hd; [|done]. right.
    destruct Hx as [->|(HK & s' & ->)].
    + split; [apply Hall; [by left|done]|]. by exists s.
    + split; [done|]. by exists s.
  - apply IH. intros y Hy. apply Hall. by right.
Qed.

Lemma touched_elem K fs0 fs f :
  touched K fs0 fs -> f ∈ fs ->
  exists f0, f0 ∈ fs0 /\ fileUri f0 = fileUri f /\ kind f0 = kind f.
Proof.
  induction 1 as [|x0 x fs0 fs Hx _ IH]; [by intros ?%elem_of_nil|].
  intros [->|Hf]%elem_of_cons.
  - exists x0. split; [by left|]. by destruct Hx as [->|(_ & s & ->)].
  - destruct (IH Hf) as (f0 & ? & ?). exists f0. split; [by right|done].
Qed.

(** The validation methods change nothing of the files but the status, and
    that of files of kind [K] only, when they are called on such files. *)
Section Touch.
Context (K : FileKind -> bool) (st0 : State).
Hypothesis Hnd : NoDup (map fileUri (files st0)).

Definition Itouch (st : State) : Prop := touched K (files st0) (files st).
Definition okTouch (u : string) : Prop :=
  exists f0, f0 ∈ files st0 /\ fileUri f0 = u /\ K (kind f0) = true.

Lemma Itouch_status st u s :
  okTouch u -> Itouch st -> Itouch (exec (PddlWorkspace.setStatus u s) st).
Proof. intros (f0 & Hf0 & Hu & HK) Ht. by eapply touched_setStatus. Qed.

Lemma Itouch_schedule st : Itouch st -> Itouch (exec scheduleValidation st).
Proof.
  unfold Itouch. by destruct (scheduleValidation_frame st) as (_ & _ & -> & _).
Qed.

Lemma okTouch_store st f :
  Itouch st -> f ∈ files st -> K (kind f) = true -> okTouch (fileUri f).
Proof.
  intros Ht Hf HK. destruct (touched_elem _ _ _ _ Ht Hf) as (f0 & Hf0 & Hu & Hk).
  exists f0. by rewrite Hk.
Qed.

Lemma okTouch_start f :
  f ∈ files st0 -> K (kind f) = true -> okTouch (fileUri f).
Proof. intros. by exists f. Qed.
End Touch.

(** [validatePddlDocument] leaves the plans as they are. *)
Lemma validatePddlDocument_touched st fileInfo flag :
  NoDup (map fileUri (files st)) -> fileInfo ∈ files st -> isPlan fileInfo = false ->
  touched notPlan (files st) (files (exec (validatePddlDocument ext fileInfo flag) st)).
Proof.
  intros Hnd Hf Hp.
  apply (keeps_validatePddlDocument ext (Itouch notPlan st) (okTouch notPlan st)
           (fun _ => True)).
  - intros. by apply Itouch_status.
  - by intros.
  - by intros.
  - by intros.
  - done.
  - intros s f Ht Hin Hpl. eapply okTouch_store; [done..|].
    unfold isPlan in Hpl. by destruct (kind f).
  - apply okTouch_start; [done|]. unfold isPlan in Hp. by destruct (kind fileInfo).
  - apply touched_refl.
Qed.

(** The validation of unknown files leaves the other files as they are. *)
Lemma validateUnknownFiles_touched st U :
  NoDup (map fileUri (files st)) ->
  Forall (fun f => f ∈ files st /\ isUnknownPddl f = true) U ->
  touched unknown (files st)
    (files (exec (forEach U (fun file =>
              call (ValidateUnknownFile (fileUri file)) (validateUnknownFile ext file)))
            st)).
Proof.
  intros Hnd HU.
  apply (keeps_forEach (Itouch unknown st)); [|apply touched_refl].
  eapply Forall_impl; [done|]. intros f [Hf Hk].
  apply (keeps_call (Itouch unknown st) (fun _ => True)); [by intros|done|].
  apply (keeps_validateUnknownFile ext (Itouch unknown st) (okTouch unknown st)).
  - intros. by apply Itouch_status.
  - by intros.
  - apply okTouch_start; [done|]. unfold isUnknownPddl in Hk. by destruct (kind f).
Qed.

Lemma calls_emit e st :
  calls (log (exec (emit e) st))
  = calls (log st) ++ match e with Called c => [c] | _ => [] end.
Proof.
  unfold calls, emit, exec, modify. cbn. rewrite flat_map_app. cbn.
  by rewrite app_nil_r.
Qed.

Lemma calls_call c m st :
  keepsCalls m -> calls (log (exec (call c m) st)) = calls (log st) ++ [c].
Proof. intros Hm. unfold call. by rewrite exec_bind, Hm, calls_emit. Qed.

Lemma calls_external st e L :
  external e = true -> calls (log st) = L -> calls (log (exec (emit e) st)) = L.
Proof. intros He <-. rewrite calls_emit. destruct e; try done; by rewrite app_nil_r. Qed.

Lemma calls_schedule st L :
  calls (log st) = L -> calls (log (exec scheduleValidation st)) = L.
Proof. by destruct (scheduleValidation_frame st) as (_ & -> & _). Qed.

Lemma keepsCalls_validateUnknownFile f : keepsCalls (validateUnknownFile ext f).
Proof.
  intros st.
  apply (keeps_validateUnknownFile ext (fun s => calls (log s) = calls (log st))
           (fun _ => True)); by intros.
Qed.

Lemma keepsCalls_validatePddlDocument f flag :
  keepsCalls (validatePddlDocument ext f flag).
Proof.
  intros st.
  apply (keeps_validatePddlDocument ext (fun s => calls (log s) = calls (log st))
           (fun _ => True) (fun e => external e = true)).
  - by intros.
  - by intros.
  - by intros.
  - intros. by apply calls_external.
  - done.
  - done.
  - done.
  - done.
Qed.

Lemma keepsCalls_validatePlan f flag : keepsCalls (validatePlan ext f flag).
Proof.
  intros st.
  apply (keeps_validatePlan ext (fun s => calls (log s) = calls (log st))
           (fun _ => True) (fun e => external e = true)).
  - by intros.
  - by intros.
  - intros. by apply calls_external.
  - intros. by apply calls_schedule.
  - done.
  - done.
  - done.
Qed.

Lemma calls_validateUnknownFiles U st :
  calls (log (exec (forEach U (fun file =>
            call (ValidateUnknownFile (fileUri file)) (validateUnknownFile ext file)))
          st))
  = calls (log st) ++ map (fun f => ValidateUnknownFile (fileUri f)) U.
Proof.
  revert st. induction U as [|f U IH]; intros st.
  - by rewrite app_nil_r.
  - rewrite exec_forEach_cons, IH, calls_call by apply keepsCalls_validateUnknownFile.
    by rewrite <- app_assoc.
Qed.

Lemma dirty_elem isKind st f :
  f ∈ dirty isKind st -> f ∈ files st /\ isKind f = true.
Proof.
  unfold dirty, isDirty. rewrite !list_elem_of_In, filter_In, andb_true_iff. tauto.
Qed.

Lemma unknown_not_dirty isKind f s :
  (forall g, isUnknownPddl g = true -> isKind g = false) ->
  unknown (kind f) = true ->
  isDirty isKind f = false /\ isDirty isKind (withStatus s f) = false.
Proof.
  intros HK Hu. unfold isDirty.
  rewrite !HK; [done| |]; unfold isUnknownPddl; cbn; by destruct (kind f).
Qed.

Lemma notPlan_not_dirty f s :
  notPlan (kind f) = true ->
  isDirty isPlan f = false /\ isDirty isPlan (withStatus s f) = false.
Proof. unfold isDirty, isPlan. cbn. by destruct (kind f). Qed.

(** The calls of a pass, in order. *)
Lemma validateAllDirty_calls st :
  NoDup (map fileUri (files st)) ->
  calls (log (exec (validateAllDirty ext) st)) = calls (log st) ++ passCalls st.
Proof.
  intros Hnd. unfold validateAllDirty, passCalls.
  rewrite exec_bind. change (exec (PddlWorkspace.getAllFilesIf _) st) with st.
  change (eval (PddlWorkspace.getAllFilesIf (isDirty isUnknownPddl)) st)
    with (dirty isUnknownPddl st).
  rewrite exec_bind.
  pose proof (calls_validateUnknownFiles (dirty isUnknownPddl st) st) as Hc1.
  assert (touched unknown (files st)
            (files (exec (forEach (dirty isUnknownPddl st) (fun file =>
               call (ValidateUnknownFile (fileUri file)) (validateUnknownFile ext file)))
             st))) as Ht1.
  { apply validateUnknownFiles_touched; [done|].
    apply Forall_forall. intros f. apply dirty_elem. }
  set (st1 := exec (forEach _ _) st) in *.
  assert (forall isKind, (forall g, isUnknownPddl g = true -> isKind g = false) ->
            dirty isKind st1 = dirty isKind st) as Hd1.
  { intros isKind HK. apply (touched_filter _ _ _ _ Ht1).
    intros f s. by apply unknown_not_dirty. }
  assert (NoDup (map fileUri (files st1))) as Hnd1.
  { by rewrite (touched_uris _ _ _ Ht1). }
  rewrite exec_bind. change (exec (PddlWorkspace.getAllFilesIf _) st1) with st1.
  change (eval (PddlWorkspace.getAllFilesIf (isDirty isDomain)) st1)
    with (dirty isDomain st1).
  rewrite <- (Hd1 isDomain), <- (Hd1 isProblem), <- (Hd1 isPlan);
    [| unfold isUnknownPddl, isPlan; intros g; by destruct (kind g)
     | unfold isUnknownPddl, isProblem; intros g; by destruct (kind g)
     | unfold isUnknownPddl, isDomain; intros g; by destruct (kind g)].
  destruct (dirty isDomain st1) as [|d ds].
  - rewrite exec_bind.
    change (exec (PddlWorkspace.getAllFilesIf _) st1) with st1.
    change (eval (PddlWorkspace.getAllFilesIf (isDirty isProblem)) st1)
      with (dirty isProblem st1).
    rewrite exec_bind.
    set (st2 := exec (match dirty isProblem st1 with
                      | [] => ret tt
                      | p :: _ => call _ (validatePddlDocument ext p _)
                      end) st1).
    assert (calls (log st2)
            = calls (log st1)
              ++ match dirty isProblem st1 with
                 | p :: ps => [ValidatePddlDocument (fileUri p)
                                 (1 <? length (p :: ps))%nat]
                 | [] => []
                 end
            /\ dirty isPlan st2 = dirty isPlan st1) as [Hc2 Hd2].
    { subst st2. pose proof (dirty_elem isProblem st1) as Helem.
      destruct (dirty isProblem st1) as [|p ps].
      - by rewrite exec_ret, app_nil_r.
      - split; [apply calls_call, keepsCalls_validatePddlDocument|].
        unfold call. rewrite exec_bind. apply (touched_filter notPlan).
        + destruct (Helem p) as [Hp1 Hp2]; [by left|].
          apply (validatePddlDocument_touched (exec (emit _) st1)); [done..|].
          by apply isProblem_not_plan.
        + intros f s. apply notPlan_not_dirty. }
    rewrite exec_bind. change (exec (PddlWorkspace.getAllFilesIf _) st2) with st2.
    change (eval (PddlWorkspace.getAllFilesIf (isDirty isPlan)) st2)
      with (dirty isPlan st2).
    rewrite Hd2. destruct (dirty isPlan st1) as [|pl pls].
    + by rewrite exec_ret, Hc2, Hc1, app_nil_r, <- app_assoc.
    + rewrite calls_call by apply keepsCalls_validatePlan.
      by rewrite Hc2, Hc1, <- !app_assoc.
  - rewrite calls_call by apply keepsCalls_validatePddlDocument.
    by rewrite Hc1, <- app_assoc.
Qed.



End PassFacts.




(** ** Further facts about the output parser *)

Section OutputFacts.
Import PlanValidator.

Lemma split_nonempty sep s : Js.split sep s <> [].
Proof.
  destruct s as [|c r]; [done|]. simpl.
  destruct (Ascii.eqb c sep); [done|]. by destruct (Js.split sep r).
Qed.

(** Joining the parts of a split with the separator gives the text back. *)
Lemma join_split sep s : Js.join (String sep "") (Js.split sep s) = s.
Proof.
  induction s as [|c r IH]; [done|]. simpl.
  pose proof (split_nonempty sep r) as Hne.
  destruct (Ascii.eqb_spec c sep) as [->|Hc].
  - destruct (Js.split sep r) as [|h t]; [done|].
    change (Js.join (String sep "") ("" :: h :: t))
      with (String sep (Js.join (String sep "") (h :: t))).
    by rewrite IH.
  - destruct (Js.split sep r) as [|h t]; [done|]. rewrite <- IH.
    destruct t as [|h' t]; [done|].
    change (Js.join (String sep "") (String c h :: h' :: t))
      with (String c (h +:+ String sep "" +:+ Js.join (String sep "") (h' :: t))).
    done.
Qed.





(** X1.  With no process error and an output that holds none of the four
    texts the parser looks for (the empty output is one), the outcome is the
    unknown one: a single Warning on line 0 and the error text
    "Unknown error.". *)
Theorem analyzeOutput_unknown planInfo output :
  ~ Contains "Plan failed to execute" output ->
  ~ Contains "Goal not satisfied" output ->
  ~ Contains "Bad plan description!" output ->
  ~ Contains "Plan valid" output ->
  let outcome := analyzeOutput planInfo None output in
  outcome = PlanValidationOutcome.unknown planInfo
  /\ diagnostics outcome
     = [mkDiagnostic (mkRange 0 0 0 100)
          "Unknown error. Run the 'PDDL: Validate plan' command for more information."
          DiagnosticSeverity.Warning]
  /\ PlanValidationOutcome.getError outcome = Some "Unknown error.".
Proof.
  intros Hf%matches_not_Contains Hg%matches_not_Contains Hb%matches_not_Contains
    Hv%matches_not_Contains.
  cbv zeta. unfold analyzeOutput. by rewrite Hf, Hg, Hb, Hv.
Qed.

Lemma analyzeOutput_unknown_witness :
  ~ Contains "Plan valid" ""
  /\ analyzeOutput samplePlan None "" = PlanValidationOutcome.unknown samplePlan.
Proof.
  split; [by apply not_Contains_compute|].
  apply (analyzeOutput_unknown samplePlan ""); by apply not_Contains_compute.
Defined.

(** X2.  The outcome carries no diagnostic exactly when no process error
    occurred and the output holds "Plan valid" and none of "Plan failed to
    execute", "Goal not satisfied" and "Bad plan description!": every other
    outcome reports at least one diagnostic. *)
Theorem analyzeOutput_no_diagnostics planInfo error output :
  diagnostics (analyzeOutput planInfo error output) = []
  <-> error = None
      /\ Contains "Plan valid" output
      /\ ~ Contains "Plan failed to execute" output
      /\ ~ Contains "Goal not satisfied" output
      /\ ~ Contains "Bad plan description!" output.
Proof.
  rewrite <- !matches_not_Contains, <- matches_Contains.
  unfold analyzeOutput. destruct error as [e|].
  { split; [done|]. by intros [? _]. }
  destruct (Js.matches "Plan failed to execute" output) eqn:Hf;
    destruct (Js.matches "Goal not satisfied" output) eqn:Hg; cbn [orb].
  1-3: split; [|by intros (_ & _ & ? & ? & _)];
       destruct (Js.re_search repairAdvicePattern output);
       unfold PlanValidationOutcome.failedAtTime; cbn [diagnostics];
       intros H%fmap_nil_inv; [by apply split_nonempty in H|done].
  destruct (Js.matches "Bad plan description!" output) eqn:Hb.
  { split; [done|]. by intros (_ & _ & _ & _ & ?). }
  destruct (Js.matches "Plan valid" output) eqn:Hv.
  - by split.
  - split; [done|]. by intros (_ & ? & _).
Qed.





(** X4.  On a failure with a block of repair advice, the messages of the
    diagnostics, joined by line feeds, are the block without the white space
    around it: no line of the advice is lost, added or moved. *)
Theorem analyzeOutput_hints_join planInfo output a block b :
  Contains "Plan failed to execute" output \/ Contains "Goal not satisfied" output ->
  AdviceBlock output a block b ->
  Outermost output a block ->
  Js.join (String Js.LF "")
    (map message (diagnostics (analyzeOutput planInfo None output)))
  = Js.trim block.
Proof.
  intros Hfail Hblock Hout. rewrite (analyzeOutput_failedAtTime _ _ Hfail).
  rewrite <- (RepairHints_unique output _ (hints_of_block _ _ _ _ Hblock Hout)).
  unfold PlanValidationOutcome.failedAtTime. cbn [diagnostics].
  rewrite map_map. cbn [message]. rewrite map_id. apply join_split.
Qed.

Lemma analyzeOutput_hints_join_witness :
  exists a block b,
    AdviceBlock sampleFailure a block b
    /\ Outermost sampleFailure a block
    /\ Js.join (String Js.LF "")
         (map message
            (diagnostics (PlanValidator.analyzeOutput samplePlan None sampleFailure)))
       = Js.trim block.
Proof.
  assert (Contains "Plan failed to execute" sampleFailure) as H.
  { apply matches_Contains. reflexivity. }
  destruct (Js.re_search PlanValidator.repairAdvicePattern sampleFailure)
    as [block|] eqn:E; [|vm_compute in E; discriminate E].
  destruct (search_advice_Some sampleFailure block E) as (a & b & HA & HO).
  exists a, block, b. split; [exact HA|]. split; [exact HO|].
  exact (analyzeOutput_hints_join samplePlan sampleFailure a block b (or_introl H) HA HO).
Defined.

(** X5.  Whatever the process error and the output, every diagnostic of the
    outcome spans the columns 0 to 100 of one line, and that line is line 0
    or the line of a step of the plan. *)
Theorem analyzeOutput_anchored planInfo error output :
  Forall (fun d => exists n,
            range d = mkRange n 0 n 100
            /\ (n = 0%nat
                \/ exists step, step ∈ getSteps planInfo /\ n = lineIndex step))
         (diagnostics (analyzeOutput planInfo error output)).
Proof.
  assert (forall timeStamp hints,
            Forall (fun d => exists n,
                      range d = mkRange n 0 n 100
                      /\ (n = 0%nat
                          \/ exists step, step ∈ getSteps planInfo /\ n = lineIndex step))
              (diagnostics (PlanValidationOutcome.failedAtTime planInfo timeStamp hints)))
    as Hfailed.
  { intros timeStamp hints. unfold PlanValidationOutcome.failedAtTime.
    cbn [diagnostics]. apply Forall_map, Forall_forall. intros hint _. cbn [range].
    eexists. split; [reflexivity|].
    destruct (find _ (getSteps planInfo)) as [step|] eqn:E; [|by left].
    right. exists step. split; [|done].
    apply find_some in E as [Hin _]. by apply list_elem_of_In. }
  unfold analyzeOutput. destruct error as [e|].
  { repeat constructor. exists 0%nat. split; [done|by left]. }
  destruct (_ || _).
  { destruct (Js.re_search _ output); apply Hfailed. }
  destruct (Js.matches "Bad plan description!" output).
  { repeat constructor. exists 0%nat. split; [done|by left]. }
  destruct (Js.matches "Plan valid" output); [constructor|].
  repeat constructor. exists 0%nat. split; [done|by left].
Qed.

End OutputFacts.

(** ** Further facts about the scheduler *)

Section SchedulerFacts.
Import Diagnostics.
Context (ext : Collaborators).

Ltac fields :=
  cbn [files diagnosticCollection pddlConfiguration pddlParserSettings validator
       timeout clock timers nextTimer log fst snd].

Lemma set_validator_same st v : validator st = Some v -> set_validator (Some v) st = st.
Proof. destruct st. cbn. by intros ->. Qed.

Lemma createValidator_run st :
  createValidator st
  = (eval createValidator st, set_validator (Some (eval createValidator st)) st).
Proof.
  unfold createValidator, eval, bind, gets, ret, modify. cbn.
  destruct (validator st) as [v|] eqn:E; [|done].
  match goal with |- context [if ?b then _ else _] => destruct b end; [done|].
  cbn. by rewrite set_validator_same.
Qed.

Lemma eval_createValidator_files f st :
  eval createValidator (set_files f st) = eval createValidator st.
Proof.
  unfold eval, createValidator, bind, gets. cbn. destruct (validator st); [|done].
  by match goal with |- context [if ?b then _ else _] => destruct b end.
Qed.

Lemma createValidator_cases st :
  let settings := pddlParserSettings st in
  let path := default "" (executableOrService settings) in
  let v := eval createValidator st in
  (validator st = Some v
   /\ validatorPath v = path
   /\ match v with
      | ValidatorExecutable _ syntax customPattern =>
          syntax = executableOptions settings /\ customPattern = problemPattern settings
      | ValidatorService _ _ => True
      end)
  \/ (v = builtFrom settings /\ validator st <> Some v).
Proof.
  cbv zeta. unfold createValidator, eval, bind, gets, ret, modify. cbn.
  destruct (validator st) as [v|] eqn:E; [|by right].
  destruct (String.eqb_spec (validatorPath v)
              (default "" (executableOrService (pddlParserSettings st)))) as [Hp|Hp];
    cbn [negb orb].
  - destruct v as [p a|p syntax pattern]; cbn [negb orb].
    + left. done.
    + destruct (String.eqb_spec syntax (executableOptions (pddlParserSettings st)));
        destruct (String.eqb_spec pattern (problemPattern (pddlParserSettings st)));
        cbn [negb orb].
      * left. done.
      * right. split; [done|].  cbn. intros [= H]. revert H.
        unfold builtFrom. destruct (isService _); [done|]. intros [= ? ? ?]. done.
      * right. split; [done|]. cbn. intros [= H]. revert H.
        unfold builtFrom. destruct (isService _); [done|]. intros [= ? ? ?]. done.
      * right. split; [done|]. cbn. intros [= H]. revert H.
        unfold builtFrom. destruct (isService _); [done|]. intros [= ? ? ?]. done.
  - right. split; [done|]. cbn. intros [= H]. apply Hp. rewrite H at 1.
    unfold builtFrom. by destruct (isService _).
Qed.

Lemma builtFrom_path settings :
  validatorPath (builtFrom settings) = default "" (executableOrService settings).
Proof. unfold builtFrom. by destruct (isService _). Qed.



(** *** What the primitive updates do to the files *)

Lemma withStatus_withStatus s1 s2 f : withStatus s2 (withStatus s1 f) = withStatus s2 f.
Proof. reflexivity. Qed.

Lemma marked_nil s fs : marked [] s fs = fs.
Proof.
  unfold marked. rewrite <- (map_id fs) at 2. apply map_ext. intros f.
  rewrite bool_decide_eq_false_2; [done|]. apply not_elem_of_nil.
Qed.

Lemma marked_app us vs s fs : marked us s (marked vs s fs) = marked (vs ++ us) s fs.
Proof.
  unfold marked. rewrite map_map. apply map_ext. intros f.
  destruct (bool_decide_reflect (fileUri f ∈ vs)) as [Hv|Hv]; cbn.
  - rewrite (bool_decide_eq_true_2 (fileUri f ∈ vs ++ us)) by (apply elem_of_app; by left).
    by destruct (bool_decide _).
  - destruct (bool_decide_reflect (fileUri f ∈ us)) as [Hu|Hu].
    + by rewrite bool_decide_eq_true_2 by (apply elem_of_app; by right).
    + rewrite bool_decide_eq_false_2; [done|]. by intros [?|?]%elem_of_app.
Qed.

Lemma marked_twice us s1 s2 fs : marked us s2 (marked us s1 fs) = marked us s2 fs.
Proof.
  unfold marked. rewrite map_map. apply map_ext. intros f.
  destruct (bool_decide_reflect (fileUri f ∈ us)) as [Hv|Hv]; cbn.
  - by rewrite bool_decide_eq_true_2.
  - by rewrite bool_decide_eq_false_2.
Qed.

Lemma marked_singleton u s fs :
  map (fun f => if decide (fileUri f = u) then withStatus s f else f) fs
  = marked [u] s fs.
Proof.
  apply map_ext. intros f. case_decide as H.
  - rewrite bool_decide_eq_true_2; [done|]. rewrite H. by left.
  - rewrite bool_decide_eq_false_2; [done|]. by intros ?%list_elem_of_singleton.
Qed.

Lemma setStatus_run u s st :
  PddlWorkspace.setStatus u s st = (tt, set_files (marked [u] s) st).
Proof.
  unfold PddlWorkspace.setStatus, modify, set_files. by rewrite marked_singleton.
Qed.

Lemma setStatus_each_run (ps : list FileInfo) s st :
  forEach ps (fun p => PddlWorkspace.setStatus (fileUri p) s) st
  = (tt, set_files (marked (map fileUri ps) s) st).
Proof.
  revert st. induction ps as [|p ps IH]; intros st.
  - cbn. unfold ret, set_files. rewrite marked_nil. by destruct st.
  - cbn [forEach]. unfold bind. rewrite setStatus_run, IH. cbn.
    unfold set_files. cbn. by rewrite marked_app.
Qed.

Lemma marked_elem us s fs f :
  f ∈ marked us s fs ->
  exists f0, f0 ∈ fs
    /\ ((fileUri f0 ∈ us /\ f = withStatus s f0) \/ ((fileUri f0 ∉ us) /\ f = f0)).
Proof.
  unfold marked. intros (f0 & -> & Hf0)%list_elem_of_fmap. exists f0. split; [done|].
  destruct (bool_decide_reflect (fileUri f0 ∈ us)); [by left|by right].
Qed.

(** *** Validations only settle statuses *)

Lemma settles_refl fs : settles fs fs.
Proof. apply Forall2_same_length_lookup_2; [done|]. intros i f0 f ??. left. congruence. Qed.

Lemma settles_trans fs0 fs1 fs2 : settles fs0 fs1 -> settles fs1 fs2 -> settles fs0 fs2.
Proof.
  intros H. revert fs2. induction H as [|f0 f1 fs0 fs1 H01 _ IH]; intros fs2 H12.
  - done.
  - inversion H12 as [|? f2 ? fs2' H12' Hrest]; subst. constructor; [|by apply IH].
    destruct H01 as [->|(s1 & Hs1 & ->)]; [done|].
    destruct H12' as [->|(s2 & Hs2 & ->)]; right; [by exists s1|by exists s2].
Qed.

Lemma settles_marked us s fs : settled s -> settles fs (marked us s fs).
Proof.
  intros Hs. unfold marked. induction fs as [|f fs IH]; [constructor|].
  cbn. constructor; [|done]. destruct (bool_decide _); [|by left]. right. by exists s.
Qed.

Definition settlesM {A} (m : M A) : Prop :=
  forall st, settles (files st) (files (exec m st)).

Lemma settlesM_ret {A} (a : A) : settlesM (ret a).
Proof. intros st. apply settles_refl. Qed.

Lemma settlesM_bind {A B} (m : M A) (k : A -> M B) :
  settlesM m -> (forall a, settlesM (k a)) -> settlesM (bind m k).
Proof.
  intros Hm Hk st. rewrite exec_bind. eapply settles_trans; [apply Hm|apply Hk].
Qed.

Lemma settlesM_frame {A} (m : M A) :
  (forall st, files (exec m st) = files st) -> settlesM m.
Proof. intros H st. rewrite H. apply settles_refl. Qed.

Lemma settlesM_setStatus u s : settled s -> settlesM (PddlWorkspace.setStatus u s).
Proof.
  intros Hs st. unfold exec. rewrite setStatus_run. cbn. by apply settles_marked.
Qed.

Lemma settlesM_forEach {A} (l : list A) body :
  (forall x, settlesM (body x)) -> settlesM (forEach l body).
Proof.
  intros H. induction l as [|x l IH]; [apply settlesM_ret|].
  cbn [forEach]. apply settlesM_bind; [done|]. by intros _.
Qed.

(** The methods that set no status leave the files as they are. *)
Lemma files_emit e st : files (exec (emit e) st) = files st.
Proof. reflexivity. Qed.

Lemma files_createValidator st : files (exec createValidator st) = files st.
Proof. unfold exec. by rewrite createValidator_run. Qed.

Lemma files_scheduleValidation st : files (exec scheduleValidation st) = files st.
Proof. by destruct (scheduleValidation_frame st) as (_ & _ & ? & _). Qed.

Lemma files_onSuccess flag d st : files (exec (onSuccess flag d) st) = files st.
Proof.
  apply (keeps_onSuccess (fun s => files s = files st)); [done| |done].
  intros s <-. apply files_scheduleValidation.
Qed.

Lemma files_testConfiguration st :
  files (exec (PlanValidator.testConfiguration ext) st) = files st.
Proof.
  apply (keeps_testConfiguration ext (fun s => files s = files st) (fun _ => True));
    [by intros s e _ <-|done|done].
Qed.

Lemma files_validatePlanAndReportDiagnostics planInfo showOutput flag st :
  files (exec (PlanValidator.validatePlanAndReportDiagnostics ext planInfo showOutput
                 (onSuccess flag) onValidatePlanError) st)
  = files st.
Proof.
  apply (keeps_validatePlanAndReportDiagnostics ext (fun s => files s = files st)
           (fun _ => True)).
  - by intros s e _ <-.
  - done.
  - intros d s <-. apply files_onSuccess.
  - by intros e s <-.
  - done.
Qed.

Lemma settlesM_validateUnknownFile fileInfo : settlesM (validateUnknownFile ext fileInfo).
Proof.
  unfold validateUnknownFile.
  apply settlesM_bind; [apply settlesM_setStatus; by left|]. intros _.
  apply settlesM_bind; [|intros _; apply settlesM_setStatus; by right].
  apply settlesM_frame. intros st. by destruct (_ <? _)%nat.
Qed.

Lemma settlesM_getDomainFileFor problemFile :
  settlesM (getDomainFileFor ext problemFile).
Proof.
  unfold getDomainFileFor. apply settlesM_bind; [by apply settlesM_frame|].
  intros ds. destruct (1 <? length ds)%nat; [|destruct (length ds =? 0)%nat].
  - apply settlesM_bind; [by apply settlesM_frame|]. intros _.
    apply settlesM_bind; [apply settlesM_setStatus; by right|]. intros _.
    apply settlesM_ret.
  - apply settlesM_bind; [by apply settlesM_frame|]. intros _.
    apply settlesM_bind; [apply settlesM_setStatus; by right|]. intros _.
    apply settlesM_ret.
  - apply settlesM_ret.
Qed.

Lemma settlesM_validateDomainAndProblems domainInfo problemFiles flag :
  settlesM (validateDomainAndProblems domainInfo problemFiles flag).
Proof.
  unfold validateDomainAndProblems. apply settlesM_bind; [by apply settlesM_frame|].
  intros settings.
  destruct (executableOrService settings) as [[|c s]|]; [by apply settlesM_frame| |by apply settlesM_frame].
  apply settlesM_bind; [apply settlesM_setStatus; by left|]. intros _.
  apply settlesM_bind.
  { apply settlesM_forEach. intros p. apply settlesM_setStatus. by left. }
  intros _. apply settlesM_bind; [apply settlesM_frame, files_createValidator|].
  intros v. by apply settlesM_frame.
Qed.

Lemma settlesM_validatePddlDocument fileInfo flag :
  settlesM (validatePddlDocument ext fileInfo flag).
Proof.
  unfold validatePddlDocument.
  destruct (isDomain fileInfo); [|destruct (isProblem fileInfo); [|apply settlesM_ret]].
  - apply settlesM_bind; [by apply settlesM_frame|]. intros ps.
    apply settlesM_validateDomainAndProblems.
  - apply settlesM_bind; [apply settlesM_getDomainFileFor|]. intros [d|].
    + apply settlesM_validateDomainAndProblems.
    + apply settlesM_ret.
Qed.

Lemma settlesM_validatePlan planInfo flag : settlesM (validatePlan ext planInfo flag).
Proof.
  unfold validatePlan.
  apply settlesM_bind; [apply settlesM_frame, files_testConfiguration|].
  intros [|]; [|apply settlesM_ret]. cbn [negb].
  apply settlesM_bind; [apply settlesM_setStatus; by left|]. intros _.
  apply settlesM_bind; [|intros _; apply settlesM_ret].
  apply settlesM_frame. intros st. apply files_validatePlanAndReportDiagnostics.
Qed.

Lemma settlesM_call c m : settlesM m -> settlesM (call c m).
Proof. intros H. unfold call. apply settlesM_bind; [by apply settlesM_frame|]. by intros _. Qed.

Lemma settlesM_validateAllDirty : settlesM (validateAllDirty ext).
Proof.
  unfold validateAllDirty.
  apply settlesM_bind; [by apply settlesM_frame|]. intros dirtyUnknowns.
  apply settlesM_bind.
  { apply settlesM_forEach. intros f. apply settlesM_call, settlesM_validateUnknownFile. }
  intros _. apply settlesM_bind; [by apply settlesM_frame|]. intros [|d ds].
  - apply settlesM_bind; [by apply settlesM_frame|]. intros dirtyProblems.
    apply settlesM_bind.
    { destruct dirtyProblems; [apply settlesM_ret|].
      apply settlesM_call, settlesM_validatePddlDocument. }
    intros _. apply settlesM_bind; [by apply settlesM_frame|].
    intros [|p ps]; [apply settlesM_ret|].
    apply settlesM_call, settlesM_validatePlan.
  - apply settlesM_call, settlesM_validatePddlDocument.
Qed.


(** *** What the validation methods do to the files *)

Lemma validateUnknownFile_files fileInfo st :
  files (exec (validateUnknownFile ext fileInfo) st)
  = marked [fileUri fileInfo] Validated (files st).
Proof.
  unfold validateUnknownFile. rewrite !exec_bind. unfold exec at 1.
  rewrite setStatus_run. cbn [snd files set_files].
  assert (forall m st0, files (exec (if (0 <? String.length (text fileInfo))%nat
                                     then sendDiagnostic ext (fileUri fileInfo) m
                                            DiagnosticSeverity.Error
                                     else clearDiagnostics (fileUri fileInfo)) st0)
                        = files st0) as ->.
  { intros m st0. by destruct (_ <? _)%nat. }
  unfold exec. rewrite setStatus_run. cbn [snd files set_files]. apply marked_twice.
Qed.

Lemma validateUnknownFiles_files U st :
  files (exec (forEach U (fun file =>
           call (ValidateUnknownFile (fileUri file)) (validateUnknownFile ext file))) st)
  = marked (map fileUri U) Validated (files st).
Proof.
  revert st. induction U as [|f U IH]; intros st.
  - by rewrite marked_nil.
  - rewrite exec_forEach_cons, IH. unfold call. rewrite exec_bind.
    rewrite validateUnknownFile_files. cbn [map]. rewrite files_emit.
    by rewrite marked_app.
Qed.

(** After the unknown files are validated none of them is dirty. *)
Lemma dirty_unknown_marked st :
  List.filter (isDirty isUnknownPddl)
    (marked (map fileUri (dirty isUnknownPddl st)) Validated (files st))
  = [].
Proof.
  unfold dirty. generalize (files st). intros fs.
  assert (forall us, (forall f, f ∈ fs -> isDirty isUnknownPddl f = true -> fileUri f ∈ us)
            -> List.filter (isDirty isUnknownPddl) (marked us Validated fs) = []) as H.
  { intros us. unfold marked. induction fs as [|f fs IH]; intros Hus; [done|].
    cbn. rewrite IH by (intros g Hg; apply Hus; by right).
    destruct (bool_decide_reflect (fileUri f ∈ us)) as [Hin|Hin].
    - unfold isDirty. cbn. by rewrite andb_false_r.
    - destruct (isDirty isUnknownPddl f) eqn:E; [|done].
      destruct Hin. apply Hus; [by left|done]. }
  apply H. intros f Hf Hd. apply list_elem_of_fmap_2.
  apply list_elem_of_In, filter_In. split; [by apply list_elem_of_In|done].
Qed.

(** A pass is the validation of the dirty unknown files, followed by a pass
    that finds no dirty unknown file. *)
Lemma validateAllDirty_unknowns_first st :
  let st1 := exec (forEach (dirty isUnknownPddl st) (fun file =>
               call (ValidateUnknownFile (fileUri file)) (validateUnknownFile ext file)))
               st in
  dirty isUnknownPddl st1 = []
  /\ exec (validateAllDirty ext) st = exec (validateAllDirty ext) st1.
Proof.
  cbv zeta. set (st1 := exec (forEach _ _) st).
  assert (dirty isUnknownPddl st1 = []) as H1.
  { unfold dirty, st1. rewrite validateUnknownFiles_files. apply dirty_unknown_marked. }
  split; [done|].
  unfold validateAllDirty at 2. rewrite exec_bind.
  change (exec (PddlWorkspace.getAllFilesIf _) st1) with st1.
  change (eval (PddlWorkspace.getAllFilesIf (isDirty isUnknownPddl)) st1)
    with (dirty isUnknownPddl st1).
  rewrite H1. cbn [forEach]. rewrite exec_bind, exec_ret.
  unfold validateAllDirty. rewrite exec_bind.
  change (exec (PddlWorkspace.getAllFilesIf _) st) with st.
  change (eval (PddlWorkspace.getAllFilesIf (isDirty isUnknownPddl)) st)
    with (dirty isUnknownPddl st).
  by rewrite exec_bind.
Qed.

Lemma validateDomainAndProblems_run domainInfo problemFiles flag st :
  parserConfigured (pddlParserSettings st) ->
  let v := eval createValidator st in
  validateDomainAndProblems domainInfo problemFiles flag st
  = (tt, set_log (fun l => l ++ [ValidatorValidate v (fileUri domainInfo)
                                   (map fileUri problemFiles) flag])
           (set_validator (Some v)
              (set_files (marked (fileUri domainInfo :: map fileUri problemFiles)
                            Validating) st))).
Proof.
  intros (c & s & Hc). cbv zeta. unfold validateDomainAndProblems, bind, gets.
  rewrite Hc, setStatus_run, setStatus_each_run, createValidator_run.
  rewrite !eval_createValidator_files.
  unfold emit, modify, set_files, set_validator, set_log. fields.
  by rewrite marked_app.
Qed.

Lemma validateDomainAndProblems_unconfigured domainInfo problemFiles flag st :
  ~ parserConfigured (pddlParserSettings st) ->
  validateDomainAndProblems domainInfo problemFiles flag st
  = emit (SuggestNewParserConfiguration true) st.
Proof.
  intros Hc. unfold validateDomainAndProblems, bind, gets.
  destruct (executableOrService (pddlParserSettings st)) as [[|c s]|] eqn:E; [done| |done].
  destruct Hc. by exists c, s.
Qed.


(** *** Counting the files that wait for a validation *)

Lemma settles_uris fs0 fs : settles fs0 fs -> map fileUri fs = map fileUri fs0.
Proof.
  induction 1 as [|f0 f fs0 fs Hf _ IH]; [done|]. cbn. rewrite IH.
  by destruct Hf as [->|(s & _ & ->)].
Qed.

Lemma settles_Parsed f0 f :
  f = f0 \/ (exists s, settled s /\ f = withStatus s f0) ->
  status f = Parsed -> f = f0.
Proof. intros [->|(s & [->| ->] & ->)]; [done|done..]. Qed.

Lemma parsedCount_le fs0 fs : settles fs0 fs -> (parsedCount fs <= parsedCount fs0)%nat.
Proof.
  unfold parsedCount. induction 1 as [|f0 f fs0 fs Hf _ IH]; [done|]. cbn.
  destruct (bool_decide_reflect (status f = Parsed)) as [Hp|Hp].
  - assert (f = f0) as -> by by apply settles_Parsed.
    rewrite bool_decide_eq_true_2 by done. cbn. lia.
  - destruct (bool_decide _); cbn; lia.
Qed.

Lemma parsedCount_lt fs0 fs f :
  settles fs0 fs -> f ∈ fs0 -> status f = Parsed -> settledAt (fileUri f) fs ->
  (parsedCount fs < parsedCount fs0)%nat.
Proof.
  unfold parsedCount, settledAt. intros H. revert f.
  induction H as [|g0 g fs0 fs Hg Hrest IH]; intros f Hf Hp Hs;
    [by apply elem_of_nil in Hf|].
  apply Forall_cons_1 in Hs as [Hsg Hs]. pose proof (parsedCount_le _ _ Hrest) as Hle.
  unfold parsedCount in Hle. cbn.
  apply elem_of_cons in Hf as [<-|Hf].
  - rewrite (bool_decide_eq_true_2 (status f = Parsed)) by done.
    rewrite bool_decide_eq_false_2; [cbn; lia|].
    apply Hsg. by destruct Hg as [->|(s & _ & ->)].
  - specialize (IH f Hf Hp Hs).
    destruct (bool_decide_reflect (status g = Parsed)) as [Hgp|Hgp].
    + assert (g = g0) as -> by by apply settles_Parsed.
      rewrite bool_decide_eq_true_2 by done. cbn. lia.
    + destruct (bool_decide _); cbn; lia.
Qed.

Lemma settledAt_settles u fs0 fs : settles fs0 fs -> settledAt u fs0 -> settledAt u fs.
Proof.
  unfold settledAt. induction 1 as [|f0 f fs0 fs Hf _ IH]; [done|].
  intros [H0 Hs]%Forall_cons_1. constructor; [|by apply IH].
  intros Hu Hp. assert (f = f0) as -> by by apply settles_Parsed. by apply H0.
Qed.

Lemma settledAt_marked u us s fs : settled s -> u ∈ us -> settledAt u (marked us s fs).
Proof.
  intros Hs Hu. unfold settledAt, marked. apply Forall_map, Forall_forall.
  intros f _ Hf. destruct (bool_decide_reflect (fileUri f ∈ us)) as [|Hn].
  - cbn. by destruct Hs as [-> | ->].
  - by rewrite Hf in Hn.
Qed.

Lemma settles_not_dirty isKind fs0 fs :
  settles fs0 fs ->
  List.filter (isDirty isKind) fs0 = [] -> List.filter (isDirty isKind) fs = [].
Proof.
  induction 1 as [|f0 f fs0 fs Hf _ IH]; [done|]. cbn.
  destruct (isDirty isKind f0) eqn:E0; [done|]. intros H0. rewrite (IH H0).
  destruct (isDirty isKind f) eqn:E; [|done].
  assert (status f = Parsed) as Hp.
  { unfold isDirty in E. apply andb_prop in E as [_ E]. by apply bool_decide_eq_true in E. }
  assert (f = f0) as -> by by apply settles_Parsed. congruence.
Qed.

Lemma dirty_nil isKind st :
  Forall (fun f => status f <> Parsed) (files st) -> dirty isKind st = [].
Proof.
  unfold dirty. induction 1 as [|f fs Hf _ IH]; [done|]. cbn. rewrite IH.
  unfold isDirty. rewrite (bool_decide_eq_false_2 (status f = Parsed)) by done.
  by rewrite andb_false_r.
Qed.

(** The pass, step by step. *)
Lemma validateAllDirty_run st :
  dirty isUnknownPddl st = [] ->
  exec (validateAllDirty ext) st
  = match dirty isDomain st with
    | d :: ds =>
        exec (call (ValidatePddlDocument (fileUri d) (1 <? length (d :: ds))%nat)
                (validatePddlDocument ext d (1 <? length (d :: ds))%nat)) st
    | [] =>
        let st2 :=
          match dirty isProblem st with
          | p :: ps =>
              exec (call (ValidatePddlDocument (fileUri p) (1 <? length (p :: ps))%nat)
                      (validatePddlDocument ext p (1 <? length (p :: ps))%nat)) st
          | [] => st
          end in
        match dirty isPlan st2 with
        | pl :: pls =>
            exec (call (ValidatePlan (fileUri pl) (1 <? length (pl :: pls))%nat)
                    (validatePlan ext pl (1 <? length (pl :: pls))%nat)) st2
        | [] => st2
        end
    end.
Proof.
  intros HU. unfold validateAllDirty. rewrite exec_bind.
  change (exec (PddlWorkspace.getAllFilesIf _) st) with st.
  change (eval (PddlWorkspace.getAllFilesIf (isDirty isUnknownPddl)) st)
    with (dirty isUnknownPddl st).
  rewrite HU. cbn [forEach]. rewrite exec_bind, exec_ret, exec_bind.
  change (exec (PddlWorkspace.getAllFilesIf _) st) with st.
  change (eval (PddlWorkspace.getAllFilesIf (isDirty isDomain)) st)
    with (dirty isDomain st).
  destruct (dirty isDomain st) as [|d ds]; [|done].
  rewrite exec_bind.
  change (exec (PddlWorkspace.getAllFilesIf _) st) with st.
  change (eval (PddlWorkspace.getAllFilesIf (isDirty isProblem)) st)
    with (dirty isProblem st).
  rewrite exec_bind. cbv zeta.
  set (st2 := exec (match dirty isProblem st with
                    | [] => ret tt
                    | p :: _ => call _ (validatePddlDocument ext p _)
                    end) st).
  assert (st2 = match dirty isProblem st with
                | p :: ps =>
                    exec (call (ValidatePddlDocument (fileUri p) (1 <? length (p :: ps))%nat)
                            (validatePddlDocument ext p (1 <? length (p :: ps))%nat)) st
                | [] => st
                end) as <-.
  { subst st2. by destruct (dirty isProblem st). }
  rewrite exec_bind.
  change (exec (PddlWorkspace.getAllFilesIf _) st2) with st2.
  change (eval (PddlWorkspace.getAllFilesIf (isDirty isPlan)) st2)
    with (dirty isPlan st2).
  by destruct (dirty isPlan st2).
Qed.

(** X7.  When no file is waiting for a validation (none has the status
    Parsed), a pass changes nothing at all: no status, no diagnostic, no timer,
    no entry in the log. *)
Theorem validateAllDirty_clean st :
  Forall (fun f => status f <> Parsed) (files st) ->
  exec (validateAllDirty ext) st = st.
Proof.
  intros H. rewrite validateAllDirty_run by by apply dirty_nil.
  rewrite (dirty_nil isDomain), (dirty_nil isProblem) by done. cbv zeta.
  by rewrite (dirty_nil isPlan).
Qed.

(** X8.  A pass changes nothing of the files but their statuses, and it
    moves a status to Validating or Validated only: the files keep their
    order, URI, name, text and kind, no file becomes Dirty or Parsed, and the
    number of files that wait for a validation does not grow. *)
Theorem validateAllDirty_settles st :
  let st' := exec (validateAllDirty ext) st in
  Forall2 (fun f0 f =>
             fileUri f = fileUri f0 /\ name f = name f0 /\ text f = text f0
             /\ kind f = kind f0
             /\ (status f = status f0 \/ status f = Validating \/ status f = Validated))
          (files st) (files st')
  /\ (parsedCount (files st') <= parsedCount (files st))%nat.
Proof.
  cbv zeta. pose proof (settlesM_validateAllDirty st) as H.
  split; [|by apply parsedCount_le].
  eapply Forall2_impl; [done|]. cbn.
  intros f0 f [->|(s & [-> | ->] & ->)]; cbn; tauto.
Qed.

(** X9.  After a pass no unknown file is waiting: a pass validates every
    dirty unknown file, however many there are. *)
Theorem validateAllDirty_no_dirty_unknown st :
  dirty isUnknownPddl (exec (validateAllDirty ext) st) = [].
Proof.
  destruct (validateAllDirty_unknowns_first st) as [H1 ->].
  eapply settles_not_dirty; [apply settlesM_validateAllDirty|done].
Qed.


(** *** The configuration is left as it is *)

Definition sameConfig (st s : State) : Prop :=
  pddlParserSettings s = pddlParserSettings st
  /\ pddlConfiguration s = pddlConfiguration st.



Lemma sameConfig_unknowns U st :
  sameConfig st (exec (forEach U (fun file =>
     call (ValidateUnknownFile (fileUri file)) (validateUnknownFile ext file))) st).
Proof.
  apply (keeps_forEach (sameConfig st)); [|done].
  apply Forall_forall. intros f _.
  apply (keeps_call (sameConfig st) (fun _ => True)); [done|done|].
  by apply (keeps_validateUnknownFile ext (sameConfig st) (fun _ => True)).
Qed.

Lemma sameConfig_validatePddlDocument c f flag st :
  sameConfig st (exec (call c (validatePddlDocument ext f flag)) st).
Proof.
  apply (keeps_call (sameConfig st) (fun _ => True)); [done|done| |done].
  by apply (keeps_validatePddlDocument ext (sameConfig st) (fun _ => True) (fun _ => True)).
Qed.

(** *** Every pass makes progress *)

Lemma call_files c m st : files (exec (call c m) st) = files (exec m (exec (emit (Called c)) st)).
Proof. unfold call. by rewrite exec_bind. Qed.

Lemma validatePddlDocument_settledAt f flag st :
  parserConfigured (pddlParserSettings st) ->
  isDomain f = true \/ isProblem f = true ->
  settledAt (fileUri f) (files (exec (validatePddlDocument ext f flag) st)).
Proof.
  intros Hc Hk. unfold validatePddlDocument.
  destruct (isDomain f) eqn:Hd.
  - rewrite exec_bind. unfold exec at 1. rewrite validateDomainAndProblems_run by done.
    cbn [snd]. unfold set_log, set_validator, set_files. fields.
    apply settledAt_marked; [by left|by left].
  - destruct Hk as [?|Hp]; [done|]. rewrite Hp, exec_bind.
    destruct (eval (getDomainFileFor ext f) st) as [d|] eqn:E.
    + apply getDomainFileFor_Some in E as (-> & _ & _).
      unfold exec. rewrite validateDomainAndProblems_run by done.
      cbn [snd]. unfold set_log, set_validator, set_files. fields.
      apply settledAt_marked; [by left|]. cbn. right. by left.
    + rewrite exec_ret. revert E. unfold getDomainFileFor.
      rewrite exec_bind, eval_bind.
      change (exec (PddlWorkspace.getDomainFilesFor ext f) st) with st.
      destruct (eval (PddlWorkspace.getDomainFilesFor ext f) st) as [|d0 [|d1 ds]];
        [|done|]; intros _; cbn [length Nat.ltb Nat.leb Nat.eqb];
        rewrite !exec_bind, exec_ret; unfold exec at 1; rewrite setStatus_run;
        cbn [snd]; unfold set_files; fields;
        (apply settledAt_marked; [by right|by left]).
Qed.

Lemma validatePlan_settledAt f flag st :
  getValidatorPath (pddlConfiguration st) <> "" ->
  settledAt (fileUri f) (files (exec (validatePlan ext f flag) st)).
Proof.
  intros Hc. unfold validatePlan, PlanValidator.testConfiguration.
  rewrite !exec_bind, !eval_bind, eval_gets, exec_gets.
  destruct (getValidatorPath (pddlConfiguration st)) as [|c p] eqn:E; [done|].
  cbn [String.length Nat.eqb]. rewrite exec_ret. cbn [eval ret fst negb].
  rewrite !exec_bind, exec_ret, files_validatePlanAndReportDiagnostics.
  unfold exec. rewrite setStatus_run. cbn [snd]. unfold set_files. fields.
  apply settledAt_marked; [by left|by left].
Qed.

Lemma kind_cases f :
  isUnknownPddl f = true \/ isDomain f = true \/ isProblem f = true \/ isPlan f = true.
Proof. unfold isUnknownPddl, isDomain, isProblem, isPlan. destruct (kind f); tauto. Qed.

Lemma dirty_intro isKind st f :
  f ∈ files st -> isKind f = true -> status f = Parsed -> f ∈ dirty isKind st.
Proof.
  intros Hf Hk Hp. apply list_elem_of_In, filter_In. split; [by apply list_elem_of_In|].
  unfold isDirty. by rewrite Hk, bool_decide_eq_true_2.
Qed.

Lemma dirty_Parsed isKind st f : f ∈ dirty isKind st -> status f = Parsed.
Proof.
  intros [_ H]%list_elem_of_In%filter_In. unfold isDirty in H.
  apply andb_prop in H as [_ H]. by apply bool_decide_eq_true in H.
Qed.

(** X10.  With the parser and the plan validator configured, a pass that
    finds a file waiting for a validation leaves fewer files waiting than it
    found: sweeps that follow one another cannot go on for ever over the same
    files. *)
Theorem validateAllDirty_progress st :
  parserConfigured (pddlParserSettings st) ->
  getValidatorPath (pddlConfiguration st) <> "" ->
  (exists f, f ∈ files st /\ status f = Parsed) ->
  (parsedCount (files (exec (validateAllDirty ext) st)) < parsedCount (files st))%nat.
Proof.
  intros Hparser Hpath (f & Hf & Hp).
  assert (exists g, g ∈ files st /\ status g = Parsed
                    /\ settledAt (fileUri g) (files (exec (validateAllDirty ext) st)))
    as (g & Hg & Hgp & Hs).
  2:{ eapply parsedCount_lt; [apply settlesM_validateAllDirty|done..]. }
  destruct (validateAllDirty_unknowns_first st) as [H1 ->].
  set (st1 := exec (forEach _ _) st) in *.
  assert (files st1 = marked (map fileUri (dirty isUnknownPddl st)) Validated (files st))
    as Hfiles1 by apply validateUnknownFiles_files.
  destruct (dirty isUnknownPddl st) as [|u U] eqn:HU.
  - (* no dirty unknown file: the first dirty file of the other kinds *)
    assert (st1 = st) as -> by done. clear Hfiles1.
    rewrite validateAllDirty_run by done.
    destruct (dirty isDomain st) as [|d ds] eqn:HD.
    + cbv zeta.
      set (st2 := match dirty isProblem st with [] => st | p :: ps => _ end).
      assert (settles (files st) (files st2)) as H2.
      { subst st2. destruct (dirty isProblem st) as [|p ps]; [apply settles_refl|].
        apply settlesM_call, settlesM_validatePddlDocument. }
      assert (sameConfig st st2) as [_ Hcfg].
      { subst st2. destruct (dirty isProblem st) as [|p ps]; [done|].
        apply sameConfig_validatePddlDocument. }
      assert (settles (files st2)
                (files match dirty isPlan st2 with
                       | [] => st2
                       | pl :: pls =>
                           exec (call (ValidatePlan (fileUri pl) (1 <? length (pl :: pls))%nat)
                                   (validatePlan ext pl (1 <? length (pl :: pls))%nat)) st2
                       end)) as H3.
      { destruct (dirty isPlan st2) as [|pl pls]; [apply settles_refl|].
        apply settlesM_call, settlesM_validatePlan. }
      destruct (dirty isProblem st) as [|p ps] eqn:HP.
      * (* the first dirty plan *)
        assert (st2 = st) as -> by done.
        assert (f ∈ dirty isPlan st) as Hfd.
        { destruct (kind_cases f) as [Hk|[Hk|[Hk|Hk]]].
          - pose proof (dirty_intro _ _ _ Hf Hk Hp) as H. rewrite HU in H.
            by apply elem_of_nil in H.
          - pose proof (dirty_intro _ _ _ Hf Hk Hp) as H. rewrite HD in H.
            by apply elem_of_nil in H.
          - pose proof (dirty_intro _ _ _ Hf Hk Hp) as H. rewrite HP in H.
            by apply elem_of_nil in H.
          - by apply dirty_intro. }
        pose proof (dirty_elem isPlan st) as Helem.
        pose proof (dirty_Parsed isPlan st) as Hpar.
        destruct (dirty isPlan st) as [|pl pls]; [by apply elem_of_nil in Hfd|].
        exists pl. destruct (Helem pl) as [Hin _]; [by left|].
        split; [done|]. split; [apply Hpar; by left|].
        rewrite call_files. by apply validatePlan_settledAt.
      * (* the first dirty problem *)
        pose proof (dirty_elem isProblem st) as Helem.
        pose proof (dirty_Parsed isProblem st) as Hpar. rewrite HP in Helem, Hpar.
        exists p. destruct (Helem p) as [Hin Hk]; [by left|].
        split; [done|]. split; [apply Hpar; by left|].
        eapply settledAt_settles; [exact H3|]. subst st2. rewrite call_files.
        apply validatePddlDocument_settledAt; [done|by right].
    + (* the first dirty domain *)
      pose proof (dirty_elem isDomain st) as Helem.
      pose proof (dirty_Parsed isDomain st) as Hpar. rewrite HD in Helem, Hpar.
      exists d. destruct (Helem d) as [Hin Hk]; [by left|].
      split; [done|]. split; [apply Hpar; by left|].
      rewrite call_files. apply validatePddlDocument_settledAt; [done|by left].
  - (* the first dirty unknown file *)
    pose proof (dirty_elem isUnknownPddl st) as Helem.
    pose proof (dirty_Parsed isUnknownPddl st) as Hpar. rewrite HU in Helem, Hpar.
    exists u. destruct (Helem u) as [Hin Hk]; [by left|].
    split; [done|]. split; [apply Hpar; by left|].
    eapply settledAt_settles; [apply settlesM_validateAllDirty|].
    rewrite Hfiles1. apply settledAt_marked; [by right|by left].
Qed.


(** *** Without a parser, a dirty domain blocks the pass *)

Lemma validatorRuns_app l1 l2 : validatorRuns (l1 ++ l2) = validatorRuns l1 ++ validatorRuns l2.
Proof. apply List.filter_app. Qed.

Lemma quiet_unknowns U st :
  let st1 := exec (forEach U (fun file =>
               call (ValidateUnknownFile (fileUri file)) (validateUnknownFile ext file)))
               st in
  timers st1 = timers st /\ validatorRuns (log st1) = validatorRuns (log st).
Proof.
  cbv zeta.
  apply (keeps_forEach (fun s => timers s = timers st
                                 /\ validatorRuns (log s) = validatorRuns (log st)));
    [|done].
  apply Forall_forall. intros f _.
  apply (keeps_call _ (fun e => validatorRuns [e] = [])).
  - intros s e He [<- <-]. split; [done|]. unfold emit, exec, modify. cbn.
    by rewrite validatorRuns_app, He, app_nil_r.
  - done.
  - by apply (keeps_validateUnknownFile ext _ (fun _ => True)).
Qed.

Lemma blocked_pass st :
  NoDup (map fileUri (files st)) ->
  ~ parserConfigured (pddlParserSettings st) ->
  dirty isDomain st <> [] ->
  let st' := exec (validateAllDirty ext) st in
  map fileUri (files st') = map fileUri (files st)
  /\ pddlParserSettings st' = pddlParserSettings st
  /\ dirty isDomain st' = dirty isDomain st
  /\ dirty isProblem st' = dirty isProblem st
  /\ dirty isPlan st' = dirty isPlan st
  /\ validatorRuns (log st') = validatorRuns (log st)
  /\ timers st' = timers st.
Proof.
  intros Hnd Hc HD. cbv zeta.
  destruct (validateAllDirty_unknowns_first st) as [H1 ->].
  destruct (quiet_unknowns (dirty isUnknownPddl st) st) as [Ht1 Hr1].
  destruct (sameConfig_unknowns (dirty isUnknownPddl st) st) as [Hs1 _].
  assert (touched unknown (files st)
            (files (exec (forEach (dirty isUnknownPddl st) (fun file =>
               call (ValidateUnknownFile (fileUri file)) (validateUnknownFile ext file)))
             st))) as Htouch.
  { apply validateUnknownFiles_touched; [done|].
    apply Forall_forall. intros f. apply dirty_elem. }
  set (st1 := exec (forEach _ _) st) in *.
  assert (forall isKind, (forall g, isUnknownPddl g = true -> isKind g = false) ->
            dirty isKind st1 = dirty isKind st) as Hd1.
  { intros isKind HK. apply (touched_filter _ _ _ _ Htouch).
    intros f s. by apply unknown_not_dirty. }
  assert (dirty isDomain st1 = dirty isDomain st) as HdD.
  { apply Hd1. unfold isUnknownPddl, isDomain. intros g. by destruct (kind g). }
  assert (dirty isProblem st1 = dirty isProblem st) as HdP.
  { apply Hd1. unfold isUnknownPddl, isProblem. intros g. by destruct (kind g). }
  assert (dirty isPlan st1 = dirty isPlan st) as HdPl.
  { apply Hd1. unfold isUnknownPddl, isPlan. intros g. by destruct (kind g). }
  rewrite validateAllDirty_run by done. rewrite HdD.
  pose proof (dirty_elem isDomain st) as Helem.
  destruct (dirty isDomain st) as [|d ds] eqn:E; [done|].
  destruct (Helem d) as [_ Hk]; [by left|].
  set (c := ValidatePddlDocument (fileUri d) (1 <? length (d :: ds))%nat).
  assert (exec (call c (validatePddlDocument ext d (1 <? length (d :: ds))%nat)) st1
          = set_log (fun l => l ++ [SuggestNewParserConfiguration true])
              (set_log (fun l => l ++ [Called c]) st1)) as ->.
  { unfold call, validatePddlDocument. rewrite Hk, !exec_bind.
    change (exec (PddlWorkspace.getProblemFiles ext d) ?s) with s.
    unfold exec at 1. rewrite validateDomainAndProblems_unconfigured; [done|].
    cbn. by rewrite Hs1. }
  unfold dirty in *. unfold set_log. fields.
  rewrite (touched_uris _ _ _ Htouch), Hs1, HdP, HdPl, Ht1, HdD.
  rewrite <- !app_assoc, validatorRuns_app, Hr1. cbn. by rewrite app_nil_r.
Qed.

(** X11.  While no parser is configured, a dirty domain blocks the passes
    (in a workspace whose files have different URIs): however many passes
    run, the dirty domains stay dirty, the dirty problems and plans are never
    validated, no validator runs and no pass is scheduled. *)
Theorem validateAllDirty_blocked n st :
  NoDup (map fileUri (files st)) ->
  ~ parserConfigured (pddlParserSettings st) ->
  dirty isDomain st <> [] ->
  let st' := Nat.iter n (exec (validateAllDirty ext)) st in
  dirty isDomain st' = dirty isDomain st
  /\ dirty isProblem st' = dirty isProblem st
  /\ dirty isPlan st' = dirty isPlan st
  /\ validatorRuns (log st') = validatorRuns (log st)
  /\ timers st' = timers st.
Proof.
  intros Hnd Hc HD. cbv zeta.
  assert (let st' := Nat.iter n (exec (validateAllDirty ext)) st in
          map fileUri (files st') = map fileUri (files st)
          /\ pddlParserSettings st' = pddlParserSettings st
          /\ dirty isDomain st' = dirty isDomain st
          /\ dirty isProblem st' = dirty isProblem st
          /\ dirty isPlan st' = dirty isPlan st
          /\ validatorRuns (log st') = validatorRuns (log st)
          /\ timers st' = timers st) as H; [|cbv zeta in H; tauto].
  induction n as [|n IH]; [done|]. cbv zeta in *.
  destruct IH as (Hu & Hs & H1 & H2 & H3 & H4 & H5).
  destruct (blocked_pass (Nat.iter n (exec (validateAllDirty ext)) st))
    as (Hu' & Hs' & H1' & H2' & H3' & H4' & H5').
  - by rewrite Hu.
  - by rewrite Hs.
  - by rewrite H1.
  - change (Nat.iter (S n) (exec (validateAllDirty ext)) st)
      with (exec (validateAllDirty ext) (Nat.iter n (exec (validateAllDirty ext)) st)).
    by rewrite Hu', Hs', H1', H2', H3', H4', H5'.
Qed.


(** *** The validation of domains and problems *)

(** X12.  With a parser configured, [validateDomainAndProblems] marks the
    domain and every listed problem file as Validating, leaves every other
    file as it is, and hands the domain and the problems to the validator
    exactly once; the validator is the one [this.validator] holds afterwards
    and has the configured path.  Diagnostics and timers are left alone: they
    change only when the validator answers. *)
Theorem validateDomainAndProblems_marks domainInfo problemFiles flag st :
  parserConfigured (pddlParserSettings st) ->
  let st' := exec (validateDomainAndProblems domainInfo problemFiles flag) st in
  files st'
  = marked (fileUri domainInfo :: map fileUri problemFiles) Validating (files st)
  /\ (exists v,
        log st' = log st ++ [ValidatorValidate v (fileUri domainInfo)
                               (map fileUri problemFiles) flag]
        /\ validator st' = Some v
        /\ validatorPath v = default "" (executableOrService (pddlParserSettings st)))
  /\ diagnosticCollection st' = diagnosticCollection st
  /\ timers st' = timers st.
Proof.
  intros Hc. cbv zeta. unfold exec.
  rewrite validateDomainAndProblems_run by done. cbn [snd].
  unfold set_log, set_validator, set_files. fields.
  split; [done|]. split; [|done]. eexists. split; [done|]. split; [done|].
  destruct (createValidator_cases st) as [(_ & ? & _)|[-> _]]; [done|apply builtFrom_path].
Qed.

(** X13.  [getDomainFileFor] returns a file exactly when one domain file of
    the problem's folder has the name the problem refers to; it returns that
    file, a domain of the workspace, and changes nothing: it sends no
    diagnostic and sets no status. *)
Theorem getDomainFileFor_resolved problemFile st :
  let domainFiles := eval (PddlWorkspace.getDomainFilesFor ext problemFile) st in
  (forall d, eval (getDomainFileFor ext problemFile) st = Some d <-> domainFiles = [d])
  /\ (forall d, domainFiles = [d] ->
        exec (getDomainFileFor ext problemFile) st = st
        /\ d ∈ files st /\ isDomain d = true
        /\ Js.toLowerCase (name d) = Js.toLowerCase (getDomainName problemFile)).
Proof.
  cbv zeta.
  assert (forall d, eval (getDomainFileFor ext problemFile) st = Some d
                    <-> eval (PddlWorkspace.getDomainFilesFor ext problemFile) st = [d])
    as Hiff.
  { intros d. unfold getDomainFileFor. rewrite eval_bind.
    change (exec (PddlWorkspace.getDomainFilesFor ext problemFile) st) with st.
    destruct (eval (PddlWorkspace.getDomainFilesFor ext problemFile) st)
      as [|d0 [|d1 ds]]; cbn; split; congruence. }
  split; [done|]. intros d Hd.
  destruct (getDomainFileFor_Some ext problemFile st d) as (? & ? & ?);
    [by apply Hiff|].
  split; [done|]. split; [done|]. split; [done|].
  assert (d ∈ eval (PddlWorkspace.getDomainFilesFor ext problemFile) st) as Hin.
  { rewrite Hd. by left. }
  unfold PddlWorkspace.getDomainFilesFor, PddlWorkspace.getFolderOf, eval, bind, gets, ret
    in Hin. cbn in Hin.
  apply list_elem_of_In, filter_In in Hin as [_ Hin].
  apply andb_prop in Hin as [_ Hin]. by apply String.eqb_eq in Hin.
Qed.

(** X14.  With a parser configured, [validatePddlDocument] validates a domain
    together with the problem files the workspace lists for it, and a problem
    whose domain is resolved together with that domain and no other problem;
    the domain and the problems validated are marked Validating.  On a file
    that is neither a domain nor a problem it does nothing. *)
Theorem validatePddlDocument_dispatch fileInfo flag st :
  parserConfigured (pddlParserSettings st) ->
  let st' := exec (validatePddlDocument ext fileInfo flag) st in
  (isDomain fileInfo = true ->
   let problemFiles := eval (PddlWorkspace.getProblemFiles ext fileInfo) st in
   files st' = marked (fileUri fileInfo :: map fileUri problemFiles) Validating (files st)
   /\ validatorRuns (log st')
      = validatorRuns (log st)
        ++ [ValidatorValidate (eval createValidator st) (fileUri fileInfo)
              (map fileUri problemFiles) flag])
  /\ (isProblem fileInfo = true ->
      forall domainFile,
        eval (getDomainFileFor ext fileInfo) st = Some domainFile ->
        files st' = marked [fileUri domainFile; fileUri fileInfo] Validating (files st)
        /\ validatorRuns (log st')
           = validatorRuns (log st)
             ++ [ValidatorValidate (eval createValidator st) (fileUri domainFile)
                   [fileUri fileInfo] flag])
  /\ (isDomain fileInfo = false -> isProblem fileInfo = false -> st' = st).
Proof.
  intros Hc. cbv zeta. unfold validatePddlDocument. split; [|split].
  - intros Hd. rewrite Hd, exec_bind.
    change (exec (PddlWorkspace.getProblemFiles ext fileInfo) st) with st.
    unfold exec. rewrite validateDomainAndProblems_run by done. cbn [snd].
    unfold set_log, set_validator, set_files. fields.
    by rewrite validatorRuns_app.
  - intros Hp domainFile Hdom.
    assert (isDomain fileInfo = false) as ->.
    { unfold isProblem, isDomain in *. by destruct (kind fileInfo). }
    rewrite Hp, exec_bind, Hdom.
    apply getDomainFileFor_Some in Hdom as (-> & _).
    unfold exec. rewrite validateDomainAndProblems_run by done. cbn [snd].
    unfold set_log, set_validator, set_files. fields.
    by rewrite validatorRuns_app.
  - by intros -> ->.
Qed.

(** *** Publishing diagnostics *)

Lemma sendDiagnostics_union d st :
  diagnosticCollection (exec (sendDiagnostics d) st) = d ∪ diagnosticCollection st.
Proof.
  unfold sendDiagnostics, exec, modify. cbn.
  induction d as [|u ds d Hu Hfold IH] using map_first_key_ind.
  - by rewrite map_fold_empty, (left_id_L ∅ (∪)).
  - rewrite map_fold_insert_first_key by done. rewrite IH.
    by rewrite insert_union_l.
Qed.


(** X15.  Diagnostics replace, they never pile up.  [sendDiagnostics] sets
    the entry of every URI of the map it is given and leaves the other
    entries alone, so sending the same map again changes nothing;
    [sendDiagnostic] leaves exactly one diagnostic for the file, whatever was
    there, and [clearDiagnostics] after it leaves what [clearDiagnostics]
    alone leaves. *)
Theorem sendDiagnostics_replaces d u message1 severity1 message2 severity2 st :
  (forall fileUri,
     diagnosticCollection (exec (sendDiagnostics d) st) !! fileUri
     = match d !! fileUri with
       | Some ds => Some ds
       | None => diagnosticCollection st !! fileUri
       end)
  /\ exec (sendDiagnostics d) (exec (sendDiagnostics d) st) = exec (sendDiagnostics d) st
  /\ diagnosticCollection (exec (sendDiagnostic ext u message2 severity2) st) !! u
     = Some [mkDiagnostic (createRange ext 0 0) message2 severity2]
  /\ exec (sendDiagnostic ext u message2 severity2)
       (exec (sendDiagnostic ext u message1 severity1) st)
     = exec (sendDiagnostic ext u message2 severity2) st
  /\ exec (clearDiagnostics u) (exec (sendDiagnostic ext u message1 severity1) st)
     = exec (clearDiagnostics u) st.
Proof.
  split; [|split; [|split; [|split]]].
  - intros fileUri. rewrite sendDiagnostics_union, lookup_union.
    destruct (d !! fileUri); [|by rewrite (left_id_L None union)].
    by destruct (diagnosticCollection st !! fileUri).
  - pose proof (sendDiagnostics_union d (exec (sendDiagnostics d) st)) as H2.
    pose proof (sendDiagnostics_union d st) as H1.
    rewrite H1 in H2. rewrite (assoc_L (∪)), (idemp_L (∪)) , <- H1 in H2.
    revert H2. unfold sendDiagnostics, exec, modify, set_diagnosticCollection. cbn.
    by intros ->.
  - unfold sendDiagnostic, exec, modify. cbn. apply lookup_insert_eq.
  - unfold sendDiagnostic, exec, modify, set_diagnosticCollection. cbn.
    by rewrite insert_insert_eq.
  - unfold sendDiagnostic, clearDiagnostics, exec, modify, set_diagnosticCollection. cbn.
    by rewrite delete_insert_eq.
Qed.

(** *** The validation of a plan *)

(** X16.  When the path of the plan validator is not configured,
    [validatePlan] shows the message that asks for it and does nothing else:
    the plan keeps its status, so it is still waiting at the next pass, no
    process is started, and no diagnostic and no timer changes. *)
Theorem validatePlan_not_configured planInfo flag st :
  getValidatorPath (pddlConfiguration st) = "" ->
  exec (validatePlan ext planInfo flag) st
  = set_log (fun l => l ++ [ShowErrorMessage
                              ("Set the 'validate' executable path to the '"
                               +:+ CONF_PDDL ext +:+ "." +:+ VALIDATION_PATH ext
                               +:+ "' setting.")]) st.
Proof.
  intros H. unfold validatePlan, PlanValidator.testConfiguration.
  rewrite !exec_bind, !eval_bind, eval_gets, exec_gets, H. reflexivity.
Qed.










Lemma marked_id us s fs :
  Forall (fun f => fileUri f ∉ us) fs -> marked us s fs = fs.
Proof.
  unfold marked. induction 1 as [|f fs Hf _ IH]; [done|]. cbn.
  by rewrite bool_decide_eq_false_2, IH.
Qed.










(** *** Revalidation and the change of the configuration *)

(** The timers started since the handle [n0] was the next free one. *)
Definition startedSince (n0 : nat) (st : State) : Prop :=
  Forall (fun t => (n0 <= fst t)%nat) (timers st) /\ (n0 <= nextTimer st)%nat.

Lemma startedSince_schedule n0 st :
  startedSince n0 st -> startedSince n0 (exec scheduleValidation st).
Proof.
  intros [Ht Hn]. unfold scheduleValidation. rewrite exec_bind.
  assert (startedSince n0 (exec cancelScheduledValidation st)) as [Ht' Hn'].
  { unfold cancelScheduledValidation. rewrite exec_bind, eval_gets, exec_gets.
    destruct (timeout st); [|done]. split; [|done]. cbn.
    apply Forall_forall. intros t [_ Hin]%list_elem_of_filter.
    rewrite Forall_forall in Ht. by apply Ht. }
  revert Ht' Hn'. generalize (exec cancelScheduledValidation st). intros st1 Ht' Hn'.
  rewrite exec_bind, eval_gets, exec_gets.
  unfold setTimeout, exec, bind, modify. cbn [snd fst].
  unfold startedSince, set_timeout, set_nextTimer, set_timers. fields. split; [|lia].
  apply Forall_app. split; [done|]. by repeat constructor.
Qed.

Lemma startedSince_validateAllDirty n0 st :
  startedSince n0 st -> startedSince n0 (exec (validateAllDirty ext) st).
Proof.
  apply (keeps_validateAllDirty ext (startedSince n0) (fun _ => True) (fun _ => True));
    try done.
  apply startedSince_schedule.
Qed.

Lemma refreshed_uris fs : map fileUri (refreshed fs) = map fileUri fs.
Proof.
  unfold refreshed. rewrite map_map. apply map_ext. intros f.
  by destruct (bool_decide _).
Qed.

Lemma refreshed_dirty isKind fs :
  (forall f s, isKind (withStatus s f) = isKind f) ->
  List.filter (isDirty isKind) (refreshed fs)
  = map (withStatus Parsed)
      (List.filter (fun f => isKind f && negb (bool_decide (status f = Dirty))) fs).
Proof.
  intros HK. unfold refreshed. induction fs as [|f fs IH]; [done|]. cbn.
  rewrite IH. unfold isDirty.
  destruct (bool_decide_reflect (status f = Dirty)) as [Hd|Hd]; cbn.
  - by rewrite Hd, !andb_false_r.
  - rewrite HK, !andb_true_r. by destruct (isKind f).
Qed.

(** X19.  [revalidateAll] validates anew, in a workspace whose files have
    different URIs and with no timer pending but the one the scheduler holds:
    every file that is not Dirty counts as waiting, whatever its status was,
    and the pass that follows at once makes the calls of a pass over these
    files.  The sweep that was pending is cancelled: a timer pending
    afterwards was started by the revalidation itself, and at most one is. *)
Theorem revalidateAll_revalidates st :
  NoDup (map fileUri (files st)) ->
  EventLoop.singleSlot st ->
  let fresh := set_files refreshed st in
  let st' := exec (revalidateAll ext) st in
  calls (log st') = calls (log st) ++ passCalls fresh
  /\ (forall isKind, (forall f s, isKind (withStatus s f) = isKind f) ->
        dirty isKind fresh
        = map (withStatus Parsed)
            (List.filter (fun f => isKind f && negb (bool_decide (status f = Dirty)))
               (files st)))
  /\ Forall (fun t => (nextTimer st <= fst t)%nat) (timers st')
  /\ EventLoop.singleSlot st'.
Proof.
  intros Hnd Hs. cbv zeta. unfold revalidateAll. rewrite !exec_bind, exec_modify.
  change (set_files (map _) st) with (set_files refreshed st).
  set (fresh := set_files refreshed st).
  assert (EventLoop.singleSlot fresh) as Hsf by done.
  pose proof (cancel_timers fresh Hsf) as Ht.
  destruct (cancel_frame fresh) as (_ & _ & Hn & Hl & Hf & _).
  set (stc := exec cancelScheduledValidation fresh) in *.
  split; [|split; [|split]].
  - rewrite validateAllDirty_calls.
    + rewrite Hl. unfold passCalls, dirty. by rewrite Hf.
    + rewrite Hf. cbn. by rewrite refreshed_uris.
  - intros isKind HK. by apply refreshed_dirty.
  - apply (startedSince_validateAllDirty (nextTimer st) stc).
    split; [by rewrite Ht|]. by rewrite Hn.
  - apply keeps_singleSlot_validateAllDirty. unfold EventLoop.singleSlot. by rewrite Ht.
Qed.



End SchedulerFacts.

Lemma validateAllDirty_clean_witness :
  exec (Diagnostics.validateAllDirty sampleExt)
    (sampleState [withStatus Validated sampleProblem])
  = sampleState [withStatus Validated sampleProblem].
Proof.
  apply (validateAllDirty_clean sampleExt). repeat constructor. discriminate.
Defined.

Lemma validateAllDirty_progress_witness :
  parserConfigured (pddlParserSettings (sampleState sampleWorkspace))
  /\ (parsedCount (files (exec (Diagnostics.validateAllDirty sampleExt)
                            (sampleState sampleWorkspace)))
      < parsedCount (files (sampleState sampleWorkspace)))%nat.
Proof.
  assert (parserConfigured (pddlParserSettings (sampleState sampleWorkspace))) as H.
  { by eexists _, _. }
  split; [exact H|].
  apply (validateAllDirty_progress sampleExt); [exact H|discriminate|].
  exists sampleDomain. split; [by left|done].
Defined.

Lemma validateAllDirty_blocked_witness :
  ~ parserConfigured (pddlParserSettings (sampleStateWith sampleNoParser sampleWorkspace))
  /\ dirty isDomain
       (Nat.iter 3 (exec (Diagnostics.validateAllDirty sampleExt))
          (sampleStateWith sampleNoParser sampleWorkspace))
     = [sampleDomain].
Proof.
  assert (~ parserConfigured
            (pddlParserSettings (sampleStateWith sampleNoParser sampleWorkspace))) as H.
  { intros (c & s & E). discriminate E. }
  split; [exact H|].
  apply (validateAllDirty_blocked sampleExt 3
           (sampleStateWith sampleNoParser sampleWorkspace)); [compute_done|exact H|].
  discriminate.
Defined.

Lemma validateDomainAndProblems_marks_witness :
  files (exec (Diagnostics.validateDomainAndProblems sampleDomain [sampleProblem] false)
           (sampleState sampleWorkspace))
  = [withStatus Validating sampleDomain; withStatus Validating sampleProblem; samplePlan].
Proof.
  apply (validateDomainAndProblems_marks sampleDomain [sampleProblem] false
           (sampleState sampleWorkspace)).
  by eexists _, _.
Defined.

Lemma validatePddlDocument_dispatch_witness :
  files (exec (Diagnostics.validatePddlDocument sampleExt sampleProblem false)
           (sampleState sampleWorkspace))
  = marked [fileUri sampleDomain; fileUri sampleProblem] Validating sampleWorkspace.
Proof.
  assert (parserConfigured (pddlParserSettings (sampleState sampleWorkspace))) as H.
  { by eexists _, _. }
  destruct (validatePddlDocument_dispatch sampleExt sampleProblem false
              (sampleState sampleWorkspace) H) as (_ & Hp & _).
  exact (proj1 (Hp eq_refl sampleDomain eq_refl)).
Defined.

Lemma validatePlan_not_configured_witness :
  log (exec (Diagnostics.validatePlan sampleExt samplePlan false)
         (sampleStateWith sampleNoValidate sampleWorkspace))
  = [ShowErrorMessage
       "Set the 'validate' executable path to the 'pddl.validatorPath' setting."].
Proof.
  rewrite (validatePlan_not_configured sampleExt samplePlan false
             (sampleStateWith sampleNoValidate sampleWorkspace) eq_refl).
  reflexivity.
Defined.



Lemma revalidateAll_revalidates_witness :
  calls (log (exec (Diagnostics.revalidateAll sampleExt)
                (sampleState [withStatus Validated sampleDomain; sampleProblem])))
  = [ValidatePddlDocument "file:///w/d.pddl" false].
Proof.
  rewrite (proj1 (revalidateAll_revalidates sampleExt
                    (sampleState [withStatus Validated sampleDomain; sampleProblem])
                    ltac:(compute_done) I)).
  reflexivity.
Defined.


(** ** Facts about the completion items *)

Section CompletionFacts.
Import CompletionCollector.
Context (ext : Collaborators) (tables : SymbolTables).

Lemma flatten_concat {A} (a : list (list A)) : flatten a = concat a.
Proof.
  unfold flatten.
  assert (forall acc, fold_left (fun x y => x ++ y) a acc = acc ++ concat a) as H.
  { induction a as [|x a IH]; intros acc; cbn.
    - by rewrite app_nil_r.
    - by rewrite IH, app_assoc. }
  apply H.
Qed.

Lemma elem_of_concat {A} (x : A) (ls : list (list A)) :
  x ∈ concat ls <-> exists l, x ∈ l /\ l ∈ ls.
Proof.
  induction ls as [|l ls IH]; cbn.
  - split; [by intros ?%elem_of_nil|by intros (? & _ & ?%elem_of_nil)].
  - rewrite elem_of_app, IH. split.
    + intros [?|(l' & ? & ?)]; [exists l; split; [done|by left]|].
      exists l'. split; [done|by right].
    + intros (l' & ? & [->|?]%elem_of_cons); [by left|]. right. by exists l'.
Qed.

Lemma includes_elem types t : includes types t = true <-> t ∈ types.
Proof.
  unfold includes. rewrite existsb_exists. split.
  - intros (x & Hx & ->%String.eqb_eq). by apply list_elem_of_In.
  - intros H. exists t. split; [by apply list_elem_of_In|apply String.eqb_refl].
Qed.

Lemma indexOfFrom_seen i pre l v :
  v ∈ pre -> (indexOfFrom i (pre ++ l) v < Z.of_nat (i + length pre))%Z.
Proof.
  revert i. induction pre as [|x pre IH]; intros i Hin; [by apply elem_of_nil in Hin|].
  cbn. destruct (String.eqb_spec x v) as [->|Hne]; [lia|].
  apply elem_of_cons in Hin as [->|Hin]; [done|].
  specialize (IH (S i) Hin). lia.
Qed.

Lemma indexOfFrom_fresh i pre r v :
  v ∉ pre -> indexOfFrom i (pre ++ v :: r) v = Z.of_nat (i + length pre).
Proof.
  revert i. induction pre as [|x pre IH]; intros i Hin; cbn.
  - rewrite String.eqb_refl. f_equal. lia.
  - apply not_elem_of_cons in Hin as [Hne Hin].
    destruct (String.eqb_spec x v) as [->|_]; [done|].
    rewrite IH by done. f_equal. lia.
Qed.

Lemma firstOccurrences_seen seen seen' l :
  (forall x, x ∈ seen <-> x ∈ seen') ->
  firstOccurrences seen l = firstOccurrences seen' l.
Proof.
  revert seen seen'. induction l as [|x r IH]; intros seen seen' H; [done|]. cbn.
  rewrite (bool_decide_ext (x ∈ seen) (x ∈ seen')) by done.
  destruct (bool_decide _); [by apply IH|]. f_equal. apply IH.
  intros y. rewrite !elem_of_cons. by rewrite H.
Qed.

Lemma distinct_from pre l :
  filterFrom (fun v i => (indexOf (pre ++ l) v =? Z.of_nat i)%Z) (length pre) l
  = firstOccurrences pre l.
Proof.
  revert pre. induction l as [|x r IH]; intros pre; [done|]. cbn [filterFrom firstOccurrences].
  specialize (IH (pre ++ [x])). rewrite <- app_assoc, length_app in IH. cbn in IH.
  replace (length pre + 1)%nat with (S (length pre)) in IH by lia. rewrite IH.
  unfold indexOf. destruct (bool_decide_reflect (x ∈ pre)) as [Hin|Hin].
  - pose proof (indexOfFrom_seen 0 pre (x :: r) x Hin) as Hlt. cbn in Hlt.
    rewrite (proj2 (Z.eqb_neq _ _)) by lia.
    apply firstOccurrences_seen. intros y. rewrite elem_of_app, list_elem_of_singleton.
    split; [intros [?| ->]; done|by left].
  - rewrite (indexOfFrom_fresh 0 pre r x Hin). cbn. rewrite Z.eqb_refl. f_equal.
    apply firstOccurrences_seen. intros y.
    rewrite elem_of_app, list_elem_of_singleton, elem_of_cons. tauto.
Qed.

Lemma firstOccurrences_elem seen l x :
  x ∈ firstOccurrences seen l <-> x ∈ l /\ x ∉ seen.
Proof.
  revert seen. induction l as [|y r IH]; intros seen; cbn.
  - split; [by intros ?%elem_of_nil|by intros [?%elem_of_nil _]].
  - destruct (bool_decide_reflect (y ∈ seen)) as [Hin|Hin].
    + rewrite IH, elem_of_cons. split; [tauto|]. intros [[->|?] ?]; done.
    + rewrite !elem_of_cons, IH, not_elem_of_cons. split.
      * intros [->|[? [? ?]]]; [by split; [left|]|by split; [right|]].
      * intros [[->|?] ?]; [by left|].
        destruct (decide (x = y)) as [->|]; [by left|by right].
Qed.

Lemma firstOccurrences_NoDup seen l : NoDup (firstOccurrences seen l).
Proof.
  revert seen. induction l as [|y r IH]; intros seen; cbn; [constructor|].
  destruct (bool_decide _); [apply IH|]. constructor; [|apply IH].
  rewrite firstOccurrences_elem, not_elem_of_cons. tauto.
Qed.

Lemma distinct_firstOccurrences a : distinct a = firstOccurrences [] a.
Proof. apply (distinct_from [] a). Qed.

(** X22.  The types directly involved, which the source makes distinct with
    [filter((v, i, a) => a.indexOf(v) === i)], are the types of the
    parameters of the variables, each once, in the order of their first
    occurrence; [getTypesInvolved] puts before them the types that inherit
    from them, so that a type is involved exactly when it is the type of a
    parameter or inherits from one. *)
Theorem getTypesInvolved_distinct variables domainFile :
  let parameterTypes := map parameterType (concat (map parameters variables)) in
  let typesDirectlyInvolved := distinct parameterTypes in
  typesDirectlyInvolved = firstOccurrences [] parameterTypes
  /\ NoDup typesDirectlyInvolved
  /\ (forall t, t ∈ typesDirectlyInvolved <-> t ∈ parameterTypes)
  /\ getTypesInvolved variables domainFile
     = concat (map (getTypesInheritingFrom domainFile) typesDirectlyInvolved)
       ++ typesDirectlyInvolved
  /\ (forall t, t ∈ getTypesInvolved variables domainFile
        <-> t ∈ parameterTypes
            \/ exists t0, t0 ∈ parameterTypes /\ t ∈ getTypesInheritingFrom domainFile t0).
Proof.
  cbv zeta. set (parameterTypes := map parameterType (concat (map parameters variables))).
  assert (forall t, t ∈ distinct parameterTypes <-> t ∈ parameterTypes) as Helem.
  { intros t. rewrite distinct_firstOccurrences, firstOccurrences_elem.
    split; [tauto|]. intros ?. split; [done|apply not_elem_of_nil]. }
  assert (getTypesInvolved variables domainFile
          = concat (map (getTypesInheritingFrom domainFile) (distinct parameterTypes))
            ++ distinct parameterTypes) as Hinv.
  { unfold getTypesInvolved. by rewrite !flatten_concat. }
  split; [apply distinct_firstOccurrences|].
  split; [rewrite distinct_firstOccurrences; apply firstOccurrences_NoDup|].
  split; [done|]. split; [done|].
  intros t. rewrite Hinv, elem_of_app, Helem. split.
  - intros [Hin|?]; [|by left]. right.
    apply elem_of_concat in Hin as (l & Ht & (t0 & -> & Ht0)%list_elem_of_fmap).
    exists t0. by rewrite <- Helem.
  - intros [?|(t0 & Ht0 & Ht)]; [by right|]. left.
    apply elem_of_concat. eexists. split; [done|].
    apply list_elem_of_fmap_2. by apply Helem.
Qed.


Lemma getObjects_concat allTypeObjects types :
  getObjects allTypeObjects types
  = concat (map TypeObjectMap.getObjects
              (List.filter (fun typeObjects =>
                              bool_decide (TypeObjectMap.type typeObjects ∈ types))
                 allTypeObjects)).
Proof.
  unfold getObjects. rewrite flatten_concat. do 2 f_equal.
  apply filter_ext. intros typeObjects.
  destruct (bool_decide_reflect (TypeObjectMap.type typeObjects ∈ types)) as [H|H].
  - by apply includes_elem.
  - destruct (includes types _) eqn:E; [|done]. by apply includes_elem in E.
Qed.

(** X23.  [getObjects] returns the objects of the entries whose type is among
    the types given, in the order of the entries: an object is returned
    exactly when an entry of such a type lists it.  Only the set of the types
    matters, not their order nor how often a type is given; the objects of
    two lists of entries are those of the first followed by those of the
    second, and no type gives no object. *)
Theorem getObjects_spec allTypeObjects types :
  (forall objectName,
     objectName ∈ getObjects allTypeObjects types
     <-> exists typeObjects,
           typeObjects ∈ allTypeObjects
           /\ TypeObjectMap.type typeObjects ∈ types
           /\ objectName ∈ TypeObjectMap.getObjects typeObjects)
  /\ (forall types',
        (forall t, t ∈ types <-> t ∈ types') ->
        getObjects allTypeObjects types' = getObjects allTypeObjects types)
  /\ (forall more,
        getObjects (allTypeObjects ++ more) types
        = getObjects allTypeObjects types ++ getObjects more types)
  /\ getObjects allTypeObjects [] = []
  /\ length (getObjects allTypeObjects types)
     = sum_list (map (fun typeObjects =>
                        if bool_decide (TypeObjectMap.type typeObjects ∈ types)
                        then length (TypeObjectMap.getObjects typeObjects) else 0%nat)
                   allTypeObjects).
Proof.
  split; [|split; [|split; [|split]]].
  - intros objectName. rewrite getObjects_concat, elem_of_concat. split.
    + intros (l & Ho & (typeObjects & -> & Hin)%list_elem_of_fmap).
      apply list_elem_of_In, filter_In in Hin as [Hin Ht].
      exists typeObjects. split; [by apply list_elem_of_In|].
      split; [by apply bool_decide_eq_true in Ht|done].
    + intros (typeObjects & Hin & Ht & Ho). eexists. split; [done|].
      apply list_elem_of_fmap_2, list_elem_of_In, filter_In.
      split; [by apply list_elem_of_In|by apply bool_decide_eq_true].
  - intros types' H. rewrite !getObjects_concat. do 2 f_equal.
    apply filter_ext. intros typeObjects. apply bool_decide_ext. by rewrite H.
  - intros more. rewrite !getObjects_concat.
    by rewrite List.filter_app, map_app, concat_app.
  - rewrite getObjects_concat.
    assert (List.filter (fun typeObjects =>
                           bool_decide (TypeObjectMap.type typeObjects ∈ []))
              allTypeObjects = []) as ->; [|done].
    induction allTypeObjects as [|x l IH]; [done|]. cbn.
    rewrite bool_decide_eq_false_2; [done|]. apply not_elem_of_nil.
  - rewrite getObjects_concat. induction allTypeObjects as [|x l IH]; [done|]. cbn.
    destruct (bool_decide _); cbn; [|done]. by rewrite length_app, IH.
Qed.

Lemma isSymmetric_spec variable :
  isSymmetric variable = true
  <-> exists p0 p1, parameters variable = [p0; p1]
                    /\ parameterType p0 = parameterType p1.
Proof.
  unfold isSymmetric. destruct (parameters variable) as [|p0 [|p1 [|p2 ps]]]; cbn.
  - split; [done|]. by intros (? & ? & ? & _).
  - split; [done|]. by intros (? & ? & ? & _).
  - rewrite String.eqb_eq. split; [by exists p0, p1|].
    by intros (? & ? & [= <- <-] & ?).
  - split; [done|]. by intros (? & ? & ? & _).
Qed.

(** X24.  [createSymmetricInit] appends to the completions, in this order:
    the item for a predicate and a function when the domain has a symmetric
    predicate and a symmetric function, the item for a predicate when it has a
    symmetric predicate, the item for a function when it has a symmetric
    function.  So it adds no item, one item or three items, never two; it adds
    none exactly when the domain has no symmetric predicate and no symmetric
    function; and every item is a snippet.  A predicate or function is
    symmetric when it has exactly two parameters, of one type. *)
Theorem createSymmetricInit_items problemFileInfo domainFile completions :
  let symmetricPredicates := getSymmetricPredicates domainFile in
  let symmetricFunctions := getSymmetricFunctions domainFile in
  exists items,
    createSymmetricInit tables problemFileInfo domainFile completions
    = completions ++ items
    /\ map label items
       = (if bool_decide (symmetricPredicates <> [] /\ symmetricFunctions <> [])
          then ["Initialize a symmetric predicate and function"] else [])
         ++ (if bool_decide (symmetricPredicates <> [])
             then ["Initialize a symmetric predicate"] else [])
         ++ (if bool_decide (symmetricFunctions <> [])
             then ["Initialize a symmetric function"] else [])
    /\ Forall (fun item => itemKind item = CompletionItemKind.Snippet) items
    /\ (length items = 0 \/ length items = 1 \/ length items = 3)%nat
    /\ (items = [] <-> symmetricPredicates = [] /\ symmetricFunctions = [])
    /\ (forall variable,
          variable ∈ symmetricPredicates
          <-> variable ∈ getPredicates domainFile
              /\ exists p0 p1, parameters variable = [p0; p1]
                               /\ parameterType p0 = parameterType p1).
Proof.
  cbv zeta. unfold createSymmetricInit.
  assert (forall variable,
            variable ∈ getSymmetricPredicates domainFile
            <-> variable ∈ getPredicates domainFile
                /\ exists p0 p1, parameters variable = [p0; p1]
                                 /\ parameterType p0 = parameterType p1) as Hsym.
  { intros variable. unfold getSymmetricPredicates.
    by rewrite !list_elem_of_In, filter_In, isSymmetric_spec. }
  destruct (getSymmetricPredicates domainFile) as [|p ps];
    destruct (getSymmetricFunctions domainFile) as [|f fs];
    cbn [length Nat.ltb Nat.leb andb].
  - exists []. rewrite app_nil_r.
    split; [done|]. split; [done|]. split; [done|]. split; [by left|]. by split.
  - eexists [_]. split; [done|]. split; [done|]. split; [by repeat constructor|].
    split; [right; by left|]. split; [|done]. split; [done|]. by intros [_ ?].
  - eexists [_]. split; [done|]. split; [done|]. split; [by repeat constructor|].
    split; [right; by left|]. split; [|done]. split; [done|]. by intros [? _].
  - eexists [_; _; _]. rewrite <- !app_assoc.
    split; [done|]. split; [done|]. split; [by repeat constructor|].
    split; [right; by right|]. split; [|done]. split; [done|]. by intros [? _].
Qed.

(** X25.  [provideCompletionItems] changes nothing but what the upsert of the
    document changes, and offers items only for a problem file, with the
    position after [(:init] and before [(:goal], when the folder holds
    exactly one domain file of the name the problem refers to; then the items
    are those [createSymmetricInit] makes of this problem and domain.  In
    every other case it offers nothing. *)
Theorem provideCompletionItems_guard document position st :
  let upsert := upsertFile tables (uri document) (version document)
                  (getText document None) in
  let activeFileInfo := eval upsert st in
  let st1 := exec upsert st in
  let domainFiles := eval (PddlWorkspace.getDomainFilesFor ext activeFileInfo) st1 in
  let completions := eval (provideCompletionItems ext tables document position) st in
  exec (provideCompletionItems ext tables document position) st = st1
  /\ (isInInit document position = true
      <-> Contains "(:init"
            (getText document (Some (mkRange 0 0 (line position) (character position))))
          /\ Contains "(:goal"
               (getText document
                  (Some (mkRange (line position) (character position)
                           (lineCount document) 10000))))
  /\ (forall domainFile,
        isProblem activeFileInfo = true -> isInInit document position = true ->
        domainFiles = [domainFile] ->
        completions
        = createSymmetricInit tables (asProblemInfo tables activeFileInfo)
            (asDomainInfo tables domainFile) [])
  /\ (isProblem activeFileInfo = false \/ isInInit document position = false
      \/ length domainFiles <> 1%nat ->
      completions = []).
Proof.
  cbv zeta. unfold provideCompletionItems.
  rewrite exec_bind, eval_bind.
  set (activeFileInfo := eval _ st). set (st1 := exec _ st).
  unfold createProblemCompletionItems.
  split; [|split; [|split]].
  - destruct (isProblem activeFileInfo); [|done]. rewrite exec_bind.
    change (exec (PddlWorkspace.getDomainFilesFor ext activeFileInfo) st1) with st1.
    by destruct (isInInit document position).
  - unfold isInInit, textIncludes, rangeBetween. cbn [line character].
    rewrite andb_true_iff, <- !matches_Contains. unfold Js.matches. done.
  - intros domainFile -> Hinit Hd. rewrite eval_bind.
    change (exec (PddlWorkspace.getDomainFilesFor ext activeFileInfo) st1) with st1.
    rewrite Hinit, Hd. done.
  - intros H. destruct (isProblem activeFileInfo); [|done]. rewrite eval_bind.
    change (exec (PddlWorkspace.getDomainFilesFor ext activeFileInfo) st1) with st1.
    destruct (isInInit document position); [|done].
    destruct H as [?|[?|H]]; [done..|].
    unfold createProblemInitCompletionItems.
    by destruct (eval (PddlWorkspace.getDomainFilesFor ext activeFileInfo) st1)
      as [|d [|d' ds]].
Qed.

End CompletionFacts.

(** ** Facts about the graph of objects *)

Section GraphFacts.
Import ProblemObjectsRendererDelegate.

Lemma mapSet_fresh key value m :
  key ∉ map fst m -> mapSet key value m = m ++ [(key, value)].
Proof.
  induction m as [|[k v] m IH]; [done|]. cbn.
  intros [Hne Hin]%not_elem_of_cons.
  destruct (String.eqb_spec k key) as [->|_]; [done|]. by rewrite IH.
Qed.

Lemma mapGet_app key m m' :
  mapGet key (m ++ m')
  = match mapGet key m with Some v => Some v | None => mapGet key m' end.
Proof.
  induction m as [|[k v] m IH]; [done|]. cbn. by destruct (String.eqb k key).
Qed.

Definition numbered (i : nat) (l : list string) : list (string * nat) :=
  imap (fun k x => (x, (i + k)%nat)) l.

Lemma numbered_cons i x l : numbered i (x :: l) = (x, i) :: numbered (S i) l.
Proof.
  unfold numbered. cbn. rewrite Nat.add_0_r. f_equal. apply imap_ext.
  intros k y _. cbn. f_equal. lia.
Qed.

Lemma numbered_app i l l' :
  numbered i (l ++ l') = numbered i l ++ numbered (i + length l) l'.
Proof.
  unfold numbered. rewrite imap_app. f_equal. apply imap_ext. intros k y _. cbn.
  f_equal. lia.
Qed.

Lemma numbered_keys i l : map fst (numbered i l) = l.
Proof.
  revert i. induction l as [|x l IH]; intros i; [done|].
  rewrite numbered_cons. cbn. by rewrite IH.
Qed.

Lemma mapGet_numbered key i l :
  mapGet key (numbered i l) = (fun p => (i + p)%nat) <$> position key l.
Proof.
  revert i. induction l as [|x l IH]; intros i; [done|].
  rewrite numbered_cons. cbn. destruct (String.eqb x key).
  - cbn. f_equal. lia.
  - rewrite IH. destruct (position key l); cbn; [|done]. f_equal. lia.
Qed.

Lemma position_app_l x l l' : x ∈ l -> position x (l ++ l') = position x l.
Proof.
  induction l as [|y l IH]; [by intros ?%elem_of_nil|]. cbn.
  destruct (String.eqb_spec y x) as [->|Hne]; [done|].
  intros [->|Hin]%elem_of_cons; [done|]. by rewrite IH.
Qed.

Lemma position_app_r x l l' :
  x ∉ l -> position x (l ++ l') = (fun p => (length l + p)%nat) <$> position x l'.
Proof.
  induction l as [|y l IH]; cbn.
  - intros _. destruct (position x l'); [done|done].
  - intros [Hne Hin]%not_elem_of_cons.
    destruct (String.eqb_spec y x) as [->|_]; [done|]. rewrite IH by done.
    by destruct (position x l').
Qed.

Lemma position_None x l : position x l = None <-> x ∉ l.
Proof.
  induction l as [|y l IH]; cbn.
  - split; [intros _; apply not_elem_of_nil|done].
  - rewrite not_elem_of_cons. destruct (String.eqb_spec y x) as [->|Hne].
    + split; [done|]. by intros [? _].
    + destruct (position x l); cbn.
      * split; [done|]. intros [_ H]. by apply IH in H.
      * split; [|done]. intros _. split; [done|]. by apply IH.
Qed.

Lemma position_here x l l' : x ∉ l -> position x (l ++ x :: l') = Some (length l).
Proof.
  intros H. rewrite position_app_r by done. cbn. rewrite String.eqb_refl. cbn.
  f_equal. lia.
Qed.

(** The loop over the types. *)
Lemma types_loop l i d :
  NoDup (map fst (nodes d) ++ l) ->
  let d' :=
    forEachFrom (fun t index d =>
        set_typeNames (fun s => {[ t ]} ∪ s) (set_nodes (mapSet t index) d)) i l d in
  nodes d' = nodes d ++ numbered i l
  /\ relationships d' = relationships d
  /\ objectsAndConstantsPerType d' = objectsAndConstantsPerType d
  /\ lastIndex d' = lastIndex d
  /\ (forall x, x ∈ typeNames d' <-> x ∈ l \/ x ∈ typeNames d).
Proof.
  revert i d. induction l as [|t l IH]; intros i d Hnd; cbn [forEachFrom].
  - cbv zeta. rewrite app_nil_r. repeat split; try done.
    + by right.
    + by intros [?%elem_of_nil|?].
  - cbv zeta. rewrite numbered_cons.
    apply NoDup_app in Hnd as (Hn1 & Hdis & [Ht Hn2]%NoDup_cons).
    assert (t ∉ map fst (nodes d)) as Hfresh.
    { intros Hin. apply (Hdis t Hin). by left. }
    destruct (IH (S i) (set_typeNames (fun s => {[ t ]} ∪ s)
                          (set_nodes (mapSet t i) d))) as (H1 & H2 & H3 & H4 & H5).
    { cbn. rewrite mapSet_fresh by done. rewrite map_app. cbn.
      rewrite <- app_assoc. cbn. apply NoDup_app. split; [done|]. split.
      - intros x Hx [->|Hin]%elem_of_cons; [done|]. apply (Hdis x Hx). by right.
      - by constructor. }
    rewrite H1, H2, H3, H4. cbn. rewrite mapSet_fresh by done.
    rewrite <- app_assoc. repeat split; try done.
    + intros Hx. apply H5 in Hx as [?|Hx]; [left; by right|]. cbn in Hx.
      apply elem_of_union in Hx as [->%elem_of_singleton|?]; [left; by left|by right].
    + intros [[->|?]%elem_of_cons|?]; apply H5; [right|by left|right]; cbn;
        apply elem_of_union; [left; by apply elem_of_singleton|by right].
Qed.

(** The loop over the inheritance edges. *)
Lemma edges_loop edges d :
  let d' := fold_left (fun d edge => addEdge edge "extends" d) edges d in
  nodes d' = nodes d
  /\ relationships d'
     = relationships d
       ++ map (fun edge => NetworkEdge.mk (mapGet edge.1 (nodes d))
                             (mapGet edge.2 (nodes d)) "extends") edges
  /\ objectsAndConstantsPerType d' = objectsAndConstantsPerType d
  /\ lastIndex d' = lastIndex d
  /\ typeNames d' = typeNames d.
Proof.
  revert d. induction edges as [|[a b] edges IH]; intros d; cbn [fold_left].
  - cbv zeta. by rewrite app_nil_r.
  - cbv zeta. destruct (IH (addEdge (a, b) "extends" d)) as (H1 & H2 & H3 & H4 & H5).
    rewrite H1, H2, H3, H4, H5. cbn. by rewrite <- app_assoc.
Qed.

(** The loop over the objects of one type. *)
Lemma objects_loop typeName objects j d :
  NoDup (map fst (nodes d) ++ objects) ->
  typeName ∈ map fst (nodes d) ->
  let d' :=
    forEachFrom (fun objectName index d =>
        addEdge (objectName, typeName) ""
          (set_nodes (mapSet objectName (index + lastIndex d)) d)) j objects d in
  nodes d' = nodes d ++ numbered (j + lastIndex d) objects
  /\ relationships d'
     = relationships d
       ++ imap (fun k _ => NetworkEdge.mk (Some (j + lastIndex d + k)%nat)
                             (mapGet typeName (nodes d)) "") objects
  /\ objectsAndConstantsPerType d' = objectsAndConstantsPerType d
  /\ lastIndex d' = lastIndex d
  /\ typeNames d' = typeNames d.
Proof.
  revert j d. induction objects as [|o objects IH]; intros j d Hnd Ht; cbn [forEachFrom].
  - cbv zeta. by rewrite !app_nil_r.
  - cbv zeta. rewrite numbered_cons.
    apply NoDup_app in Hnd as (Hn1 & Hdis & [Ho Hn2]%NoDup_cons).
    assert (o ∉ map fst (nodes d)) as Hfresh.
    { intros Hin. apply (Hdis o Hin). by left. }
    set (d1 := addEdge (o, typeName) "" (set_nodes (mapSet o (j + lastIndex d)) d)).
    assert (nodes d1 = nodes d ++ [(o, (j + lastIndex d)%nat)]) as Hnodes1.
    { cbn. by rewrite mapSet_fresh. }
    assert (mapGet typeName (nodes d1) = mapGet typeName (nodes d)) as Hget.
    { rewrite Hnodes1, mapGet_app.
      destruct (mapGet typeName (nodes d)) eqn:E; [done|].
      exfalso. clear -E Ht. induction (nodes d) as [|[k v] m IH]; cbn in *.
      - by apply elem_of_nil in Ht.
      - destruct (String.eqb_spec k typeName) as [->|Hne]; [done|].
        apply elem_of_cons in Ht as [->|Ht]; [done|]. by apply IH. }
    destruct (IH (S j) d1) as (H1 & H2 & H3 & H4 & H5).
    { rewrite Hnodes1, map_app. cbn. rewrite <- app_assoc. cbn.
      apply NoDup_app. split; [done|]. split.
      - intros x Hx [->|Hin]%elem_of_cons; [done|]. apply (Hdis x Hx). by right.
      - by constructor. }
    { rewrite Hnodes1, map_app. apply elem_of_app. by left. }
    rewrite H1, H2, H3, H4, H5, Hget, Hnodes1. cbn [lastIndex d1 addEdge set_relationships
      set_nodes relationships objectsAndConstantsPerType typeNames toEdge nodes].
    rewrite <- !app_assoc. cbn [app imap]. rewrite Nat.add_0_r.
    assert (mapGet o (mapSet o (j + lastIndex d) (nodes d)) = Some (j + lastIndex d)%nat)
      as ->.
    { rewrite mapSet_fresh, mapGet_app by done.
      assert (mapGet o (nodes d) = None) as ->.
      { clear -Hfresh. induction (nodes d) as [|[k v] m IH]; [done|]. cbn in *.
        apply not_elem_of_cons in Hfresh as [Hne Hfresh].
        destruct (String.eqb_spec k o) as [->|_]; [done|]. by apply IH. }
      cbn. by rewrite String.eqb_refl. }
    assert (mapGet typeName (mapSet o (j + lastIndex d) (nodes d))
            = mapGet typeName (nodes d)) as ->.
    { change (mapSet o (j + lastIndex d) (nodes d)) with (nodes d1). exact Hget. }
    repeat split; try done.
    do 2 f_equal. apply imap_ext. intros k x _. cbn. do 2 f_equal. lia.
Qed.


Lemma mapGet_keys key m : key ∈ map fst m -> is_Some (mapGet key m).
Proof.
  induction m as [|[k v] m IH]; cbn; [by intros ?%elem_of_nil|].
  destruct (String.eqb_spec k key) as [->|Hne]; [by eexists|].
  intros [->|Hin]%elem_of_cons; [done|]. by apply IH.
Qed.

(** The objects of one type, on a delegate whose nodes are numbered in the
    order of their labels. *)
Lemma addObjects_numbered typeName labels d :
  let objects := objectsOfType (objectsAndConstantsPerType d) typeName in
  nodes d = numbered 0 labels ->
  lastIndex d = length labels ->
  NoDup (labels ++ objects) ->
  typeName ∈ labels ->
  let d' := addObjects typeName d in
  nodes d' = numbered 0 (labels ++ objects)
  /\ lastIndex d' = length (labels ++ objects)
  /\ relationships d'
     = relationships d
       ++ map (fun objectName =>
                 NetworkEdge.mk (position objectName (labels ++ objects))
                   (position typeName (labels ++ objects)) "") objects
  /\ objectsAndConstantsPerType d' = objectsAndConstantsPerType d
  /\ typeNames d' = typeNames d.
Proof.
  intros objects Hnodes Hlast Hnd Ht. cbv zeta. unfold addObjects.
  subst objects. unfold objectsOfType in *.
  destruct (List.find _ (objectsAndConstantsPerType d)) as [e|].
  2:{ rewrite app_nil_r. cbn [map]. by rewrite app_nil_r, Hnodes, Hlast. }
  destruct (objects_loop typeName (TypeObjectMap.getObjects e) 0 d)
    as (H1 & H2 & H3 & H4 & H5).
  { by rewrite Hnodes, numbered_keys. }
  { by rewrite Hnodes, numbered_keys. }
  cbn [nodes relationships objectsAndConstantsPerType lastIndex typeNames set_lastIndex].
  rewrite H1, H2, H3, H4, H5, Hnodes, Hlast, numbered_app, length_app.
  split; [done|]. split; [done|]. split; [|done]. f_equal.
  rewrite mapGet_numbered, (position_app_l typeName) by done.
  assert (exists p, position typeName labels = Some p) as [p Hp].
  { destruct (position typeName labels) eqn:E; [by eexists|].
    by apply position_None in E. }
  rewrite Hp. cbn [fmap option_fmap option_map].
  apply NoDup_app in Hnd as (_ & Hdis & Hnd).
  assert (forall pre post, TypeObjectMap.getObjects e = pre ++ post ->
            imap (fun k _ => NetworkEdge.mk (Some (length labels + (length pre + k))%nat)
                               (Some p) "") post
            = map (fun objectName =>
                     NetworkEdge.mk
                       (position objectName (labels ++ TypeObjectMap.getObjects e))
                       (Some p) "") post) as Hgen.
  { intros pre post. revert pre. induction post as [|o post IH]; intros pre Heq; [done|].
    cbn [imap map]. f_equal.
    - f_equal. rewrite position_app_r, Heq.
      + rewrite position_here; [cbn; f_equal; lia|]. rewrite Heq in Hnd.
        apply NoDup_app in Hnd as (_ & Hd' & _). intros Hin. apply (Hd' o Hin). by left.
      + intros Hin. apply (Hdis o Hin). rewrite Heq. apply elem_of_app. right. by left.
    - specialize (IH (pre ++ [o])). rewrite <- app_assoc in IH. specialize (IH Heq).
      rewrite <- IH. apply imap_ext. intros k x _. cbn. rewrite length_app. cbn.
      do 2 f_equal; lia. }
  specialize (Hgen [] (TypeObjectMap.getObjects e) eq_refl).
  rewrite <- Hgen. apply imap_ext. intros k x _. cbn. do 2 f_equal; lia.
Qed.


(** The loop over the types whose objects are added. *)
Lemma addObjects_fold types labels d :
  let allTypeObjects := objectsAndConstantsPerType d in
  let objects := concat (map (objectsOfType allTypeObjects) types) in
  nodes d = numbered 0 labels ->
  lastIndex d = length labels ->
  NoDup (labels ++ objects) ->
  Forall (fun t => t ∈ labels) types ->
  let d' := fold_left (fun d t => addObjects t d) types d in
  nodes d' = numbered 0 (labels ++ objects)
  /\ lastIndex d' = length (labels ++ objects)
  /\ relationships d'
     = relationships d
       ++ flat_map (fun t =>
            map (fun objectName =>
                   NetworkEdge.mk (position objectName (labels ++ objects))
                     (position t (labels ++ objects)) "")
                (objectsOfType allTypeObjects t)) types
  /\ typeNames d' = typeNames d.
Proof.
  cbv zeta. revert labels d.
  induction types as [|t types IH]; intros labels d Hnodes Hlast Hnd Ht.
  - cbn. by rewrite !app_nil_r.
  - apply Forall_cons_1 in Ht as [Ht Hts]. cbn [fold_left map concat flat_map] in *.
    rewrite app_assoc in Hnd.
    destruct (addObjects_numbered t labels d Hnodes Hlast) as (H1 & H2 & H3 & H4 & H5);
      [by apply NoDup_app in Hnd as (? & _)|done|].
    destruct (IH (labels ++ objectsOfType (objectsAndConstantsPerType d) t)
                (addObjects t d)) as (H1' & H2' & H3' & H4').
    { done. }
    { done. }
    { by rewrite H4. }
    { eapply Forall_impl; [done|]. intros x ?. apply elem_of_app. by left. }
    rewrite H4 in *. rewrite <- app_assoc in H1', H2', H3'.
    rewrite H1', H2', H3', H4', H3, H5. rewrite <- !app_assoc.
    split; [done|]. split; [done|]. split; [|done]. do 2 f_equal.
    apply map_ext_in. intros o Ho%list_elem_of_In.
    rewrite !app_assoc.
    rewrite (position_app_l o (labels ++ objectsOfType (objectsAndConstantsPerType d) t))
      by (apply elem_of_app; by right).
    rewrite (position_app_l t (labels ++ objectsOfType (objectsAndConstantsPerType d) t))
      by (apply elem_of_app; by left).
    done.
Qed.

(** X26.  When the types of the domain, its type [object] included, and the
    objects of its types are pairwise different names, and every type is
    among the types with [object], the graph is well formed.  The nodes are
    the types followed by the objects, type by type, numbered 0, 1, 2, ... in
    this order; a type is drawn as an ellipse and an object as a box.  The
    relationships are one edge labelled "extends" for every inheritance edge,
    between the nodes of its two types, followed by one edge with an empty
    label from the node of every object to the node of its type. *)
Theorem render_graph tables problem domain :
  let types := getTypesInclObject domain in
  let allTypeObjects :=
    concatObjects tables (getConstants domain) (getObjectsPerType problem) in
  let objects := concat (map (objectsOfType allTypeObjects) (getTypes domain)) in
  let labels := types ++ objects in
  NoDup labels ->
  Forall (fun t => t ∈ types) (getTypes domain) ->
  let graph := render tables problem domain in
  graphNodes graph
  = imap (fun i label =>
            NetworkNode.mk i label
              (if bool_decide (label ∈ types) then "ellipse" else "box")) labels
  /\ graphRelationships graph
     = map (fun edge => NetworkEdge.mk (position edge.1 types) (position edge.2 types)
                          "extends")
         (getTypeInheritanceEdges domain)
       ++ flat_map (fun t =>
            map (fun objectName =>
                   NetworkEdge.mk (position objectName labels) (position t labels) "")
                (objectsOfType allTypeObjects t))
          (getTypes domain)
  /\ (forall objectName, objectName ∈ objects ->
        exists i, position objectName labels = Some i
                  /\ (length types <= i < length labels)%nat)
  /\ (forall t, t ∈ types ->
        exists i, position t labels = Some i /\ (i < length types)%nat).
Proof.
  intros types allTypeObjects objects labels Hnd Hsub. cbv zeta.
  unfold render, new, getNodes, getRelationships. cbn [graphNodes graphRelationships].
  fold types. fold allTypeObjects.
  set (d0 := mk [] [] allTypeObjects 0 ∅).
  destruct (types_loop types 0 d0) as (H1 & H2 & H3 & H4 & H5).
  { cbn. by apply NoDup_app in Hnd as (? & _). }
  set (d1 := forEachFrom _ 0 types d0) in *.
  destruct (edges_loop (getTypeInheritanceEdges domain) d1) as (E1 & E2 & E3 & E4 & E5).
  set (d2 := fold_left _ (getTypeInheritanceEdges domain) d1) in *.
  set (d3 := set_lastIndex (length types) d2).
  destruct (addObjects_fold (getTypes domain) types d3) as (F1 & F2 & F3 & F4).
  { cbn. by rewrite E1, H1. }
  { done. }
  { cbn. by rewrite E3, H3. }
  { done. }
  cbn [objectsAndConstantsPerType d3 set_lastIndex] in F1, F2, F3.
  rewrite E3, H3 in F1, F2, F3. cbn [objectsAndConstantsPerType d0] in F1, F2, F3.
  fold objects labels in F1, F2, F3.
  set (d4 := fold_left _ (getTypes domain) d3) in *.
  assert (forall x, x ∈ typeNames d4 <-> x ∈ types) as Htypes.
  { intros x. rewrite F4. cbn. rewrite E5, H5. cbn. split; [|by left].
    by intros [?|?%elem_of_empty]. }
  split; [|split; [|split]].
  - rewrite F1. unfold numbered.
    change (map ?f ?l) with (f <$> l). rewrite fmap_imap.
    apply imap_ext. intros i x _. cbn. f_equal.
    by rewrite (bool_decide_ext _ _ (Htypes x)).
  - rewrite F3. cbn [relationships d3 set_lastIndex]. rewrite E2, H2. cbn. f_equal.
    apply map_ext. intros [a b]. cbn. rewrite H1. cbn.
    by rewrite !mapGet_numbered; destruct (position a types), (position b types).
  - intros o Ho. apply NoDup_app in Hnd as (_ & Hdis & _).
    assert (o ∉ types) as Hnot by (intros Hin; by apply (Hdis o Hin)).
    unfold labels. rewrite position_app_r by done.
    destruct (position o objects) as [p|] eqn:E; [|by apply position_None in E].
    exists (length types + p)%nat. split; [done|]. rewrite length_app.
    assert (p < length objects)%nat; [|lia].
    clear -E. revert p E. induction objects as [|y l IH]; intros p; cbn; [done|].
    destruct (String.eqb y o); [intros [= <-]; lia|].
    destruct (position o l) as [q|]; cbn; [|done]. intros [= <-].
    specialize (IH q eq_refl). lia.
  - intros t Ht. unfold labels. rewrite position_app_l by done.
    destruct (position t types) as [p|] eqn:E; [|by apply position_None in E].
    exists p. split; [done|].
    clear -E. revert p E. induction types as [|y l IH]; intros p; cbn; [done|].
    destruct (String.eqb y t); [intros [= <-]; lia|].
    destruct (position t l) as [q|]; cbn; [|done]. intros [= <-].
    specialize (IH q eq_refl). lia.
Qed.


(** *** What holds of the graph whatever the names are *)

Lemma mapSet_keys key value m x :
  x ∈ map fst (mapSet key value m) <-> x = key \/ x ∈ map fst m.
Proof.
  induction m as [|[k v] m IH]; cbn.
  - rewrite list_elem_of_singleton. split; [by left|]. by intros [?|?%elem_of_nil].
  - destruct (String.eqb_spec k key) as [->|Hne]; cbn.
    + rewrite elem_of_cons. tauto.
    + rewrite !elem_of_cons, IH. tauto.
Qed.

Lemma mapSet_NoDup key value m :
  NoDup (map fst m) -> NoDup (map fst (mapSet key value m)).
Proof.
  induction m as [|[k v] m IH]; cbn.
  - intros _. apply NoDup_singleton.
  - intros [Hk Hnd]%NoDup_cons. destruct (String.eqb_spec k key) as [->|Hne]; cbn.
    + by constructor.
    + constructor; [|by apply IH]. rewrite mapSet_keys. by intros [?|?].
Qed.

Lemma mapSet_bound key value m b :
  Forall (fun e => (snd e < b)%nat) m -> (value < b)%nat ->
  Forall (fun e => (snd e < b)%nat) (mapSet key value m).
Proof.
  intros H Hv. induction H as [|[k v] m Hk Hm IH]; cbn; [by repeat constructor|].
  destruct (String.eqb k key); constructor; cbn in *; auto.
Qed.

(** The keys of the nodes are pairwise different, every key in [keys] and
    every identifier below [b]. *)
Definition wellKeyed (keys : list string) (b : nat) (d : t) : Prop :=
  NoDup (map fst (nodes d))
  /\ (forall x, x ∈ map fst (nodes d) <-> x ∈ keys)
  /\ Forall (fun e => (snd e < b)%nat) (nodes d).

Lemma wellKeyed_types l i keys d :
  wellKeyed keys i d ->
  let d' :=
    forEachFrom (fun t index d =>
        set_typeNames (fun s => {[ t ]} ∪ s) (set_nodes (mapSet t index) d)) i l d in
  wellKeyed (keys ++ l) (i + length l) d'
  /\ relationships d' = relationships d
  /\ objectsAndConstantsPerType d' = objectsAndConstantsPerType d
  /\ (forall x, x ∈ typeNames d' <-> x ∈ l \/ x ∈ typeNames d).
Proof.
  revert i keys d. induction l as [|t l IH]; intros i keys d (Hnd & Hkeys & Hb);
    cbn [forEachFrom].
  - cbv zeta. rewrite app_nil_r, Nat.add_0_r. repeat split; try done.
    + by apply Hkeys.
    + by apply Hkeys.
    + by right.
    + by intros [?%elem_of_nil|?].
  - cbv zeta.
    destruct (IH (S i) (keys ++ [t])
                (set_typeNames (fun s => {[ t ]} ∪ s) (set_nodes (mapSet t i) d)))
      as (Hw & H2 & H3 & H5).
    { split; [by apply mapSet_NoDup|]. split.
      - intros x. cbn. rewrite mapSet_keys, elem_of_app, list_elem_of_singleton, Hkeys.
        tauto.
      - cbn. apply mapSet_bound; [|lia]. eapply Forall_impl; [done|]. cbn. lia. }
    rewrite <- app_assoc in Hw. cbn in Hw.
    replace (i + length (t :: l))%nat with (S (i + length l)) by (cbn; lia).
    split; [done|]. split; [by rewrite H2|]. split; [by rewrite H3|].
    intros x. rewrite H5. cbn. rewrite elem_of_union, elem_of_singleton, elem_of_cons.
    tauto.
Qed.

Lemma wellKeyed_objects typeName objects j keys d :
  wellKeyed keys (j + lastIndex d) d ->
  let d' :=
    forEachFrom (fun objectName index d =>
        addEdge (objectName, typeName) ""
          (set_nodes (mapSet objectName (index + lastIndex d)) d)) j objects d in
  wellKeyed (keys ++ objects) (j + length objects + lastIndex d) d'
  /\ length (relationships d') = (length (relationships d) + length objects)%nat
  /\ objectsAndConstantsPerType d' = objectsAndConstantsPerType d
  /\ lastIndex d' = lastIndex d
  /\ typeNames d' = typeNames d.
Proof.
  revert j keys d. induction objects as [|o objects IH]; intros j keys d (Hnd & Hkeys & Hb);
    cbn [forEachFrom].
  - cbv zeta. rewrite app_nil_r, !Nat.add_0_r. repeat split; try done.
    + by apply Hkeys.
    + by apply Hkeys.
  - cbv zeta.
    set (d1 := addEdge (o, typeName) "" (set_nodes (mapSet o (j + lastIndex d)) d)).
    destruct (IH (S j) (keys ++ [o]) d1) as (Hw & H2 & H3 & H4 & H5).
    { split; [by apply mapSet_NoDup|]. split.
      - intros x. cbn. rewrite mapSet_keys, elem_of_app, list_elem_of_singleton, Hkeys.
        tauto.
      - cbn. apply mapSet_bound; [|lia]. eapply Forall_impl; [done|]. cbn. lia. }
    rewrite <- app_assoc in Hw. cbn in Hw.
    replace (j + length (o :: objects) + lastIndex d)%nat
      with (S (j + length objects + lastIndex d)) by (cbn; lia).
    split; [done|]. rewrite H2, H3, H4, H5. cbn. rewrite length_app. cbn.
    repeat split; try done. lia.
Qed.

Lemma wellKeyed_addObjects typeName keys d :
  let objects := objectsOfType (objectsAndConstantsPerType d) typeName in
  wellKeyed keys (lastIndex d) d ->
  let d' := addObjects typeName d in
  wellKeyed (keys ++ objects) (lastIndex d') d'
  /\ lastIndex d' = (lastIndex d + length objects)%nat
  /\ length (relationships d') = (length (relationships d) + length objects)%nat
  /\ objectsAndConstantsPerType d' = objectsAndConstantsPerType d
  /\ typeNames d' = typeNames d.
Proof.
  cbv zeta. intros Hw. unfold addObjects, objectsOfType.
  destruct (List.find _ (objectsAndConstantsPerType d)) as [e|].
  2:{ rewrite app_nil_r. cbn. by rewrite !Nat.add_0_r. }
  destruct (wellKeyed_objects typeName (TypeObjectMap.getObjects e) 0 keys d Hw)
    as ((Hnd & Hkeys & Hb) & H2 & H3 & H4 & H5).
  cbn [nodes relationships objectsAndConstantsPerType lastIndex typeNames set_lastIndex].
  rewrite H4. split; [|done]. split; [done|]. split; [done|].
  eapply Forall_impl; [done|]. cbn. lia.
Qed.

Lemma wellKeyed_fold types keys d :
  let allTypeObjects := objectsAndConstantsPerType d in
  let objects := concat (map (objectsOfType allTypeObjects) types) in
  wellKeyed keys (lastIndex d) d ->
  let d' := fold_left (fun d t => addObjects t d) types d in
  wellKeyed (keys ++ objects) (lastIndex d') d'
  /\ lastIndex d' = (lastIndex d + length objects)%nat
  /\ length (relationships d') = (length (relationships d) + length objects)%nat
  /\ typeNames d' = typeNames d.
Proof.
  cbv zeta. revert keys d. induction types as [|t types IH]; intros keys d Hw.
  - cbn. by rewrite app_nil_r, !Nat.add_0_r.
  - cbn [fold_left map concat].
    destruct (wellKeyed_addObjects t keys d Hw) as (Hw1 & H2 & H3 & H4 & H5).
    destruct (IH _ _ Hw1) as (Hw' & H2' & H3' & H4').
    rewrite H4 in *. rewrite <- app_assoc in Hw'.
    split; [done|]. rewrite H2', H3', H4', H2, H3, H5, length_app.
    repeat split; try done; lia.
Qed.

(** X27.  Whatever the names of the types and objects are, the labels of the
    nodes of the graph are pairwise different; they are the types, their type
    [object] included, and the objects of the types.  Every node identifier
    is below the number of types plus the number of objects listed, which is
    where [lastIndex] ends; there is one relationship for every inheritance
    edge and for every object listed; and a node is an ellipse exactly when
    its label is a type. *)
Theorem render_invariants tables problem domain :
  let types := getTypesInclObject domain in
  let allTypeObjects :=
    concatObjects tables (getConstants domain) (getObjectsPerType problem) in
  let objects := concat (map (objectsOfType allTypeObjects) (getTypes domain)) in
  let graph := render tables problem domain in
  NoDup (map NetworkNode.label (graphNodes graph))
  /\ (forall x, x ∈ map NetworkNode.label (graphNodes graph)
        <-> x ∈ types \/ x ∈ objects)
  /\ lastIndex (new tables domain problem) = (length types + length objects)%nat
  /\ Forall (fun node => (NetworkNode.id node < length types + length objects)%nat)
       (graphNodes graph)
  /\ length (graphRelationships graph)
     = (length (getTypeInheritanceEdges domain) + length objects)%nat
  /\ Forall (fun node =>
               NetworkNode.shape node
               = if bool_decide (NetworkNode.label node ∈ types)
                 then "ellipse" else "box")
       (graphNodes graph).
Proof.
  intros types allTypeObjects objects. cbv zeta.
  unfold render, new, getNodes, getRelationships. cbn [graphNodes graphRelationships].
  fold types. fold allTypeObjects.
  set (d0 := mk [] [] allTypeObjects 0 ∅).
  destruct (wellKeyed_types types 0 [] d0) as (Hw1 & H2 & H3 & H5).
  { split; [constructor|]. split; [done|constructor]. }
  set (d1 := forEachFrom _ 0 types d0) in *.
  destruct (edges_loop (getTypeInheritanceEdges domain) d1) as (E1 & E2 & E3 & E4 & E5).
  set (d2 := fold_left _ (getTypeInheritanceEdges domain) d1) in *.
  set (d3 := set_lastIndex (length types) d2).
  destruct (wellKeyed_fold (getTypes domain) types d3) as (Hw & F2 & F3 & F4).
  { unfold wellKeyed in *. cbn [d3 nodes lastIndex set_lastIndex]. by rewrite E1. }
  cbn [objectsAndConstantsPerType d3 set_lastIndex lastIndex relationships] in Hw, F2, F3.
  rewrite E3, H3 in Hw, F2, F3. cbn [objectsAndConstantsPerType d0] in Hw, F2, F3.
  fold objects in Hw, F2, F3.
  set (d4 := fold_left _ (getTypes domain) d3) in *.
  destruct Hw as (Hnd & Hkeys & Hb).
  assert (map NetworkNode.label (map (fun entry => toNode entry d4) (nodes d4))
          = map fst (nodes d4)) as Hlabels.
  { rewrite map_map. apply map_ext. by intros [l i]. }
  assert (forall x, x ∈ typeNames d4 <-> x ∈ types) as Htypes.
  { intros x. rewrite F4. cbn. rewrite E5, H5. cbn. split; [|by left].
    by intros [?|?%elem_of_empty]. }
  rewrite Hlabels. split; [done|]. split.
  { intros x. by rewrite Hkeys, elem_of_app. }
  split; [done|]. split.
  { apply Forall_map. eapply Forall_impl; [done|]. intros [l i]. cbn. lia. }
  split.
  { rewrite F3, E2, H2, length_app, length_map. cbn. lia. }
  apply Forall_map, Forall_forall. intros [l i] _. cbn.
  by rewrite (bool_decide_ext _ _ (Htypes l)).
Qed.

End GraphFacts.

Lemma render_graph_witness :
  map NetworkNode.label
    (graphNodes (ProblemObjectsRendererDelegate.render sampleTables sampleProblemInfo
                   sampleDomainInfo))
  = ["object"; "vehicle"; "truck"; "car"; "t1"; "t2"].
Proof.
  rewrite (proj1 (render_graph sampleTables sampleProblemInfo sampleDomainInfo
                    ltac:(compute_done) ltac:(compute_done))).
  reflexivity.
Defined.

(** ** Facts about the command that validates the plan of the active editor *)

Section CommandFacts.
Import ValidateCommand.
Context (ext : Collaborators) (tables : SymbolTables).

(** [m] does nothing but log events that [P] accepts. *)
Definition logsOnly {A} (P : Event -> Prop) (m : M A) : Prop :=
  forall st, exists events,
    Forall P events /\ exec m st = set_log (fun l => l ++ events) st.

Lemma eval_ret {A} (a : A) st : eval (ret a) st = a.
Proof. done. Qed.

Lemma set_log_nil st : set_log (fun l => l ++ []) st = st.
Proof. destruct st. unfold set_log. cbn. by rewrite app_nil_r. Qed.

Lemma set_log_app a b st :
  set_log (fun l => l ++ b) (set_log (fun l => l ++ a) st)
  = set_log (fun l => l ++ (a ++ b)) st.
Proof. unfold set_log. cbn. by rewrite app_assoc. Qed.

Lemma logsOnly_ret {A} P (a : A) : logsOnly P (ret a).
Proof. intros st. exists []. by rewrite set_log_nil. Qed.

Lemma logsOnly_gets {A} P (f : State -> A) : logsOnly P (gets f).
Proof. intros st. exists []. by rewrite set_log_nil. Qed.

Lemma logsOnly_bind {A B} P (m : M A) (k : A -> M B) :
  logsOnly P m -> (forall a, logsOnly P (k a)) -> logsOnly P (bind m k).
Proof.
  intros Hm Hk st. rewrite exec_bind.
  destruct (Hm st) as (e1 & H1 & ->).
  destruct (Hk (eval m st) (set_log (fun l => l ++ e1) st)) as (e2 & H2 & ->).
  exists (e1 ++ e2). split; [by apply Forall_app|]. apply set_log_app.
Qed.

Lemma logsOnly_emit (P : Event -> Prop) e : P e -> logsOnly P (emit e).
Proof. intros He st. exists [e]. split; [by constructor|done]. Qed.

Lemma logsOnly_when P b m : logsOnly P m -> logsOnly P (when b m).
Proof. destruct b; [done|]. intros _. apply logsOnly_ret. Qed.

Lemma logsOnly_appendLine (P : Event -> Prop) b line :
  (forall text, P (OutputAppend text)) -> logsOnly P (PlanValidator.appendLine b line).
Proof. intros HP. apply logsOnly_when. by apply logsOnly_emit. Qed.

Lemma logsOnly_validatePlanAndReportDiagnostics planInfo showOutput :
  logsOnly (fun e => reports e = true)
    (PlanValidator.validatePlanAndReportDiagnostics ext planInfo showOutput
       (fun _ => ret tt) (fun _ => ret tt)).
Proof.
  unfold PlanValidator.validatePlanAndReportDiagnostics.
  apply logsOnly_bind; [apply logsOnly_gets|]. intros epsilon.
  apply logsOnly_bind; [apply logsOnly_gets|]. intros validatePath.
  apply logsOnly_bind.
  { intros st. exists []. by rewrite set_log_nil. }
  intros folder.
  destruct (PlanValidator.findProblemFile planInfo folder) as [problemFileInfo|].
  2:{ apply logsOnly_bind; [apply logsOnly_ret|]. intros _. apply logsOnly_ret. }
  apply logsOnly_bind.
  { intros st. exists []. by rewrite set_log_nil. }
  intros [domainFileInfo|].
  2:{ apply logsOnly_bind; [apply logsOnly_ret|]. intros _. apply logsOnly_ret. }
  apply logsOnly_bind; [by apply logsOnly_emit|]. intros _.
  apply logsOnly_bind; [by apply logsOnly_appendLine|]. intros _.
  apply logsOnly_bind; [by apply logsOnly_appendLine|]. intros _.
  apply logsOnly_bind.
  { destruct (stderr _); [|apply logsOnly_ret].
    apply logsOnly_bind; [apply logsOnly_when; by apply logsOnly_emit|]. intros _.
    by apply logsOnly_appendLine. }
  intros _. apply logsOnly_bind.
  { destruct (spawnError _); [|apply logsOnly_ret].
    apply logsOnly_bind; [by apply logsOnly_appendLine|]. intros _. apply logsOnly_ret. }
  intros _. apply logsOnly_bind; [by apply logsOnly_appendLine|]. intros _.
  apply logsOnly_bind; [apply logsOnly_when; by apply logsOnly_emit|]. intros _.
  apply logsOnly_ret.
Qed.

(** X28.  The command that validates the plan of the active editor, with the
    validator's path set: once the workspace has taken the document in, the
    command does nothing but show messages, start the validator and write to
    the output channel; it publishes no diagnostics, sets no status and starts
    no timer.  When the workspace returns no plan for the document, all it
    does is show the message that the plan file cannot be opened or parsed. *)
Theorem validateCommand_reports document st :
  languageId document = "plan" ->
  getValidatorPath (pddlConfiguration st) <> "" ->
  let upserted :=
    upsertAndParsePlan tables (uri document) (version document)
      (getText document None) st in
  exists events,
    Forall (fun e => reports e = true) events
    /\ exec (validateCommand ext tables (Some document)) st
       = set_log (fun l => l ++ events) upserted.2
    /\ (upserted.1 = None ->
        events
        = [ShowErrorMessage "Validate tool failed. Cannot open or parse plan file."]).
Proof.
  intros Hplan Hpath. cbv zeta.
  assert (exec (validateCommand ext tables (Some document)) st
          = exec (outcome <- validateTextDocument ext tables document ;;
                  if truthy (getError outcome)
                  then emit (ShowErrorMessage (default "" (getError outcome)))
                  else ret tt) st) as ->.
  { unfold validateCommand. rewrite Hplan.
    change (String.eqb "plan" "plan") with true. cbv iota.
    unfold PlanValidator.testConfiguration.
    rewrite exec_bind, eval_bind, exec_bind, !eval_gets, !exec_gets.
    destruct (getValidatorPath (pddlConfiguration st)) as [|c path] eqn:E; [done|].
    cbn [String.length Nat.eqb]. by rewrite eval_ret, exec_ret. }
  unfold exec at 1. unfold bind at 1. unfold validateTextDocument, bind at 1.
  destruct (upsertAndParsePlan tables (uri document) (version document)
              (getText document None) st) as [[planFileInfo|] st1] eqn:Eu; cbn [fst snd].
  - destruct (logsOnly_validatePlanAndReportDiagnostics planFileInfo true st1)
      as (e1 & H1 & H2).
    unfold bind at 1.
    destruct (PlanValidator.validatePlanAndReportDiagnostics ext planFileInfo true
                (fun _ => ret tt) (fun _ => ret tt) st1) as [outcome st2] eqn:Ev.
    unfold exec in H2. rewrite Ev in H2. cbn [snd] in H2. subst st2.
    unfold ret at 1. destruct (truthy _).
    + exists (e1 ++ [ShowErrorMessage (default "" (getError (OfPlan outcome)))]).
      split; [apply Forall_app; split; [done|by constructor]|]. split; [|done].
      by rewrite <- set_log_app.
    + by exists e1.
  - exists [ShowErrorMessage "Validate tool failed. Cannot open or parse plan file."].
    split; [by constructor|]. done.
Qed.

End CommandFacts.

Lemma validateCommand_reports_witness :
  exists events,
    Forall (fun e => reports e = true) events
    /\ exec (ValidateCommand.validateCommand sampleExt sampleTables
               (Some samplePlanDocument)) (sampleState sampleWorkspace)
       = set_log (fun l => l ++ events) (sampleState sampleWorkspace).
Proof.
  destruct (validateCommand_reports sampleExt sampleTables samplePlanDocument
              (sampleState sampleWorkspace) eq_refl) as (events & H1 & H2 & _);
    [discriminate|].
  exists events. split; [exact H1|exact H2].
Defined.
